(** * Waveshare LTE hat: AT-command executor

    A shallow embedding of package [wavesharecomm] (file
    [wavesharecomm/wavesharecomm.go]) and of the older copy of
    [WriteCommand] in [waveshare_comm/waveshare_comm.go], together with the
    parts of the Go standard library the package runs on: an [io.ReadWriter]
    given by a script, [bufio.Reader.ReadLine] with its fixed-size buffer,
    [bytes.TrimSpace] with its UTF-8 fallback, [bytes.Equal], the [%s] verb
    of [fmt.Sprintf], and a context deadline.

    Conventions.
    - Time is a logical clock in nanoseconds ([Z]).  Only calls to the
      port's [Read] take time; every other action is instantaneous.  The
      caller of [waitForResponse] is parked in its [select] and takes the
      first event that occurs; when the deadline and the worker's channel
      operation fall on the same instant, both cases of the [select] are
      ready and Go picks one at random: the pick is read from the world's
      schedule.
    - A Go slice is an (offset, length) window on the reader's buffer; its
      bytes are whatever the buffer holds when it is looked at.
    - A loop that may spin forever takes fuel; [None] means the fuel ran
      out.  [ReadLine] is shown never to run out ([ReadLine_total]); the
      polling loop of [readLineIgnoreEof] does when no poll takes time.
    - Left out: the text of the log lines, Go's difference between [nil]
      and an empty slice, short writes, and the panics of [bufio] that
      its own guards exclude. *)

From Stdlib Require Import List ZArith NArith Lia Bool String.
From Stdlib Require Import Strings.Byte.
Import ListNotations.

(** ** Byte strings *)

Definition bytes := list byte.

(** A Go string or byte-slice literal without escapes. *)
Definition lit (s : string) : bytes := list_byte_of_string s.

Definition CR : byte := x0d.
Definition LF : byte := x0a.
Definition CRLF : bytes := [CR; LF].
Definition DQUOTE : byte := x22.

(** ** Package io *)
Module io.

(** Error values.  [ErrPort] stands for any error value of the transport
    that is none of the named sentinels. *)
Inductive error : Type :=
| EOF
| ErrNoProgress
| ErrBufferFull
| ErrPort (code : nat)
| ErrNew (msg : string)
| ErrWrap (msg : string) (inner : error).

(** One scripted [Read]: it blocks for [wait] nanoseconds and then
    reports [data] and [rerr]. *)
Record ReadEvent := mkRead { wait : N; data : bytes; rerr : option error }.

(** A scripted [io.ReadWriter].  [incoming] is consumed in order; once it
    is empty every further [Read] behaves as [idle].  [wresults] are the
    errors of the successive [Write] calls (none left: success); [sent]
    records every frame handed to [Write]. *)
Record Port := mkPort {
  incoming : list ReadEvent;
  idle : ReadEvent;
  wresults : list (option error);
  sent : list bytes
}.

(** [port.Read(p)] with [len(p) = n]: at most [n] bytes are handed over;
    what does not fit stays in the port for the next call. *)
Definition Read (p : Port) (n : nat) : (bytes * option error) * N * Port :=
  let '(e, rest) := match incoming p with
                    | e :: es => (e, es)
                    | [] => (idle p, [])
                    end in
  if List.length (data e) <=? n then
    ((data e, rerr e), wait e,
     mkPort rest (idle p) (wresults p) (sent p))
  else
    ((firstn n (data e), None), wait e,
     mkPort (mkRead 0 (skipn n (data e)) (rerr e) :: rest)
            (idle p) (wresults p) (sent p)).

(** [port.Write(b)]. *)
Definition Write (p : Port) (b : bytes) : option error * Port :=
  match wresults p with
  | res :: more => (res, mkPort (incoming p) (idle p) more (sent p ++ [b]))
  | [] => (None, mkPort (incoming p) (idle p) [] (sent p ++ [b]))
  end.

End io.

(** ** The world the package runs in *)

Inductive LogEntry : Type :=
| LogSending (frame : bytes)          (* "Sending command over serial: %s" *)
| LogReadError (e : io.error).        (* "error reading serial: %v" *)

(** Which ready case a [select] takes. *)
Inductive Pick : Type := PickDone | PickChan.

Record World := mkWorld {
  clock : Z;
  port : io.Port;
  logged : list LogEntry;
  sched : nat -> Pick;     (* what the select of the n-th wait picks when
                              both of its cases are ready *)
  nsel : nat               (* waits that went on with this world *)
}.

Definition set_port (wd : World) (p : io.Port) : World :=
  mkWorld (clock wd) p (logged wd) (sched wd) (nsel wd).

Definition advance (wd : World) (d : N) : World :=
  mkWorld (clock wd + Z.of_N d) (port wd) (logged wd) (sched wd) (nsel wd).

Definition log_Printf (wd : World) (e : LogEntry) : World :=
  mkWorld (clock wd) (port wd) (logged wd ++ [e]) (sched wd) (nsel wd).

Definition next_select (wd : World) : World :=
  mkWorld (clock wd) (port wd) (logged wd) (sched wd) (S (nsel wd)).

(** ** Package unicode/utf8 *)
Module utf8.
Local Open Scope N_scope.

Definition RuneError : N := 0xFFFD.
Definition RuneSelf : N := 0x80.
Definition UTFMax : Z := 4.

Definition maskx : N := 0x3F.
Definition mask2 : N := 0x1F.
Definition mask3 : N := 0x0F.
Definition mask4 : N := 0x07.
Definition locb : N := 0x80.
Definition hicb : N := 0xBF.

(** Entries of the table [first]: low three bits the length of the
    encoding, high nibble the index in [acceptRanges]. *)
Definition xx : N := 0xF1.
Definition as_ : N := 0xF0.
Definition s1 : N := 0x02.
Definition s2 : N := 0x13.
Definition s3 : N := 0x03.
Definition s4 : N := 0x23.
Definition s5 : N := 0x34.
Definition s6 : N := 0x04.
Definition s7 : N := 0x44.

Definition first (b : N) : N :=
  if b <? 0x80 then as_
  else if b <? 0xC2 then xx
  else if b <? 0xE0 then s1
  else if b =? 0xE0 then s2
  else if b <? 0xED then s3
  else if b =? 0xED then s4
  else if b <? 0xF0 then s3
  else if b =? 0xF0 then s5
  else if b <? 0xF4 then s6
  else if b =? 0xF4 then s7
  else xx.

Definition acceptRanges (i : N) : N * N :=
  match i with
  | 0 => (locb, hicb)
  | 1 => (0xA0, hicb)
  | 2 => (locb, 0x9F)
  | 3 => (0x90, hicb)
  | 4 => (locb, 0x8F)
  | _ => (0, 0)
  end.

Definition at_ (p : bytes) (i : nat) : N :=
  match nth_error p i with Some c => Byte.to_N c | None => 0 end.

(** [utf8.DecodeRune(p)]: the rune and the width of its encoding. *)
Definition DecodeRune (p : bytes) : N * nat :=
  let n := List.length p in
  if (n <? 1)%nat then (RuneError, 0%nat)
  else
    let p0 := at_ p 0 in
    let x := first p0 in
    if as_ <=? x then
      (if x =? xx then RuneError else p0, 1%nat)
    else
      let sz := N.to_nat (N.land x 7) in
      let accept := acceptRanges (N.shiftr x 4) in
      if (n <? sz)%nat then (RuneError, 1%nat)
      else
        let b1 := at_ p 1 in
        if (b1 <? fst accept) || (snd accept <? b1) then (RuneError, 1%nat)
        else if (sz <=? 2)%nat then
          (N.lor (N.shiftl (N.land p0 mask2) 6) (N.land b1 maskx), 2%nat)
        else
          let b2 := at_ p 2 in
          if (b2 <? locb) || (hicb <? b2) then (RuneError, 1%nat)
          else if (sz <=? 3)%nat then
            (N.lor (N.lor (N.shiftl (N.land p0 mask3) 12)
                          (N.shiftl (N.land b1 maskx) 6))
                   (N.land b2 maskx), 3%nat)
          else
            let b3 := at_ p 3 in
            if (b3 <? locb) || (hicb <? b3) then (RuneError, 1%nat)
            else
              (N.lor (N.lor (N.lor (N.shiftl (N.land p0 mask4) 18)
                                   (N.shiftl (N.land b1 maskx) 12))
                            (N.shiftl (N.land b2 maskx) 6))
                     (N.land b3 maskx), 4%nat).

Definition RuneStart (b : N) : bool := negb (N.land b 0xC0 =? 0x80).

(** The backward scan of [DecodeLastRune]:
    [for start--; start >= lim; start-- { if RuneStart(p[start]) break }],
    entered with [start] already decremented. *)
Fixpoint scanStart (fuel : nat) (p : bytes) (start lim : Z) : Z :=
  match fuel with
  | O => start
  | S k =>
      if (start <? lim)%Z then start
      else if RuneStart (at_ p (Z.to_nat start)) then start
      else scanStart k p (start - 1)%Z lim
  end.

(** [utf8.DecodeLastRune(p)]. *)
Definition DecodeLastRune (p : bytes) : N * nat :=
  let end_ := Z.of_nat (List.length p) in
  if (end_ =? 0)%Z then (RuneError, 0%nat)
  else
    let start := (end_ - 1)%Z in
    let r := at_ p (Z.to_nat start) in
    if r <? RuneSelf then (r, 1%nat)
    else
      let lim := (if (end_ - UTFMax <? 0)%Z then 0 else end_ - UTFMax)%Z in
      let start := scanStart 5 p (start - 1)%Z lim in
      let start := (if (start <? 0)%Z then 0 else start)%Z in
      let '(r, size) := DecodeRune (skipn (Z.to_nat start) p) in
      if negb (start + Z.of_nat size =? end_)%Z then (RuneError, 1%nat)
      else (r, size).

End utf8.

(** ** Package unicode *)
Module unicode.
Local Open Scope N_scope.

(** [unicode.IsSpace]: the Latin-1 cases, then the table [White_Space]. *)
Definition IsSpace (r : N) : bool :=
  if r <=? 0xFF then
    (r =? 0x09) || (r =? 0x0A) || (r =? 0x0B) || (r =? 0x0C) || (r =? 0x0D)
    || (r =? 0x20) || (r =? 0x85) || (r =? 0xA0)
  else
    (r =? 0x1680) || ((0x2000 <=? r) && (r <=? 0x200A))
    || (r =? 0x2028) || (r =? 0x2029) || (r =? 0x202F) || (r =? 0x205F)
    || (r =? 0x3000).

End unicode.

(** ** Package bytes *)
Module bytes_.

(** [bytes.IndexByte(b, c)]; [None] is Go's [-1]. *)
Fixpoint IndexByte (b : bytes) (c : byte) : option nat :=
  match b with
  | [] => None
  | x :: b' => if Byte.eqb x c then Some 0
               else option_map S (IndexByte b' c)
  end.

(** [bytes.Equal(a, b)]. *)
Fixpoint Equal (a b : bytes) : bool :=
  match a, b with
  | [], [] => true
  | x :: a', y :: b' => Byte.eqb x y && Equal a' b'
  | _, _ => false
  end.

(** The table [asciiSpace]. *)
Definition asciiSpace (c : byte) : bool :=
  match c with
  | x09 | x0a | x0b | x0c | x0d | x20 => true
  | _ => false
  end.

Definition isSelf (c : byte) : bool := (utf8.RuneSelf <=? Byte.to_N c)%N.

(** [indexFunc(s, f, truth)], started at index [start]. *)
Fixpoint indexFunc_from (fuel : nat) (s : bytes) (start : nat)
         (f : N -> bool) (truth : bool) : option nat :=
  match fuel with
  | O => None
  | S k =>
      match nth_error s start with
      | None => None
      | Some c =>
          let '(r, wid) := if isSelf c then utf8.DecodeRune (skipn start s)
                           else (Byte.to_N c, 1) in
          if Bool.eqb (f r) truth then Some start
          else indexFunc_from k s (start + wid) f truth
      end
  end.

Definition indexFunc (s : bytes) (f : N -> bool) (truth : bool) : option nat :=
  indexFunc_from (S (List.length s)) s 0 f truth.

(** [lastIndexFunc(s, f, truth)], with [i] the loop variable. *)
Fixpoint lastIndexFunc_from (fuel : nat) (s : bytes) (i : nat)
         (f : N -> bool) (truth : bool) : option nat :=
  match fuel with
  | O => None
  | S k =>
      if i <=? 0 then None
      else
        let c := nth (i - 1) s x00 in
        let '(r, size) := if isSelf c then utf8.DecodeLastRune (firstn i s)
                          else (Byte.to_N c, 1) in
        let i := i - size in
        if Bool.eqb (f r) truth then Some i
        else lastIndexFunc_from k s i f truth
  end.

Definition lastIndexFunc (s : bytes) (f : N -> bool) (truth : bool) : option nat :=
  lastIndexFunc_from (S (List.length s)) s (List.length s) f truth.

(** [bytes.TrimLeftFunc]; Go's [nil] is the empty list. *)
Definition TrimLeftFunc (s : bytes) (f : N -> bool) : bytes :=
  match indexFunc s f false with
  | None => []
  | Some i => skipn i s
  end.

(** [bytes.TrimRightFunc]. *)
Definition TrimRightFunc (s : bytes) (f : N -> bool) : bytes :=
  match lastIndexFunc s f false with
  | Some i =>
      if isSelf (nth i s x00)
      then firstn (i + snd (utf8.DecodeRune (skipn i s))) s
      else firstn (i + 1) s
  | None => firstn 0 s
  end.

Definition TrimFunc (s : bytes) (f : N -> bool) : bytes :=
  TrimRightFunc (TrimLeftFunc s f) f.

(** The two ASCII loops of [TrimSpace].  Each one stops at the first byte
    that is no ASCII space ([inl], with what is left of the slice) or
    gives up at a byte of [RuneSelf] or more ([inr], likewise).  The
    second loop walks the slice from its end, so it is run on the
    reversed slice. *)
Fixpoint asciiScan (s : bytes) : bytes + bytes :=
  match s with
  | [] => inl []
  | c :: s' =>
      if isSelf c then inr s
      else if asciiSpace c then asciiScan s'
      else inl s
  end.

(** [bytes.TrimSpace(s)]. *)
Definition TrimSpace (s : bytes) : bytes :=
  match asciiScan s with
  | inr from_start => TrimFunc from_start unicode.IsSpace
  | inl from_start =>
      match asciiScan (rev from_start) with
      | inr to_stop => TrimFunc (rev to_stop) unicode.IsSpace
      | inl to_stop => rev to_stop
      end
  end.

End bytes_.

(** ** Package fmt *)
Module fmt.

(** [fmt.Sprintf(format, args...)] for formats whose only verb is [%s]
    and whose operands are strings.  A [%s] without operand prints
    [%!s(MISSING)]. *)
Fixpoint Sprintf (format : bytes) (args : list bytes) : bytes :=
  match format with
  | x25 :: x73 :: rest =>
      match args with
      | a :: args' => a ++ Sprintf rest args'
      | [] => lit "%!s(MISSING)" ++ Sprintf rest []
      end
  | c :: rest => c :: Sprintf rest args
  | [] => []
  end.

End fmt.

(** ** Package bufio *)
Module bufio.
Import io.

Definition defaultBufSize : nat := 4096.
Definition maxConsecutiveEmptyReads : nat := 100.

(** A slice of the reader's buffer: [buf[off : off+len]]. *)
Record slice := mkSlice { off : nat; len : nat }.

(** Go's [nil] and [[]byte{}]: no byte to look at. *)
Definition empty : slice := mkSlice 0 0.

(** [mem[lo:hi]]. *)
Definition sub (mem : bytes) (lo hi : nat) : bytes :=
  firstn (hi - lo) (skipn lo mem).

(** The bytes a slice shows when the buffer holds [mem]. *)
Definition view (mem : bytes) (s : slice) : bytes :=
  sub mem (off s) (off s + len s).

(** [copy(mem[at:], d)] for [d] that fits. *)
Definition store (mem : bytes) (at_ : nat) (d : bytes) : bytes :=
  firstn at_ mem ++ d ++ skipn (at_ + List.length d) mem.

(** [bufio.Reader]: the buffer, the read and write positions and the
    pending error.  The underlying reader is the port of the world.
    [lastByte] and [lastRuneSize] serve [UnreadByte] and [UnreadRune]
    only and are left out. *)
Record Reader := mkReader {
  buf : bytes;
  r : nat;
  w : nat;
  err : option error
}.

(** [bufio.NewReader(port)]. *)
Definition NewReader : Reader :=
  mkReader (repeat x00 defaultBufSize) 0 0 None.

Definition Buffered (b : Reader) : nat := w b - r b.

(** The read loop of [fill]:
    [for i := maxConsecutiveEmptyReads; i > 0; i--]. *)
Fixpoint fill_reads (i : nat) (b : Reader) (wd : World) : Reader * World :=
  match i with
  | O => (mkReader (buf b) (r b) (w b) (Some ErrNoProgress), wd)
  | S i' =>
      let '((d, e), t, p') := Read (port wd) (List.length (buf b) - w b) in
      let wd' := advance (set_port wd p') t in
      let b' := mkReader (store (buf b) (w b) d) (r b)
                         (w b + List.length d) (err b) in
      match e with
      | Some e' => (mkReader (buf b') (r b') (w b') (Some e'), wd')
      | None => if 0 <? List.length d then (b', wd')
                else fill_reads i' b' wd'
      end
  end.

(** [b.fill()]: slide the unread bytes to the start of the buffer, then
    read.  It is called with room left in the buffer only. *)
Definition fill (b : Reader) (wd : World) : Reader * World :=
  let b1 := if 0 <? r b
            then mkReader (store (buf b) 0 (sub (buf b) (r b) (w b)))
                          0 (w b - r b) (err b)
            else b in
  fill_reads maxConsecutiveEmptyReads b1 wd.

(** The loop of [b.ReadSlice(delim)], [s] being the search start. *)
Fixpoint ReadSlice_loop (fuel : nat) (delim : byte) (s : nat)
         (b : Reader) (wd : World)
  : option ((slice * option error) * Reader * World) :=
  match fuel with
  | O => None
  | S k =>
      match bytes_.IndexByte (sub (buf b) (r b + s) (w b)) delim with
      | Some i =>
          let i := i + s in
          Some ((mkSlice (r b) (i + 1), None),
                mkReader (buf b) (r b + (i + 1)) (w b) (err b), wd)
      | None =>
          match err b with
          | Some e =>
              Some ((mkSlice (r b) (w b - r b), Some e),
                    mkReader (buf b) (w b) (w b) None, wd)
          | None =>
              if List.length (buf b) <=? Buffered b then
                Some ((mkSlice 0 (List.length (buf b)), Some ErrBufferFull),
                      mkReader (buf b) (w b) (w b) (err b), wd)
              else
                let s := w b - r b in
                let '(b', wd') := fill b wd in
                ReadSlice_loop k delim s b' wd'
          end
      end
  end.

(** [b.ReadSlice(delim)].  Every turn of the loop but the last two adds
    a byte to the buffer, so the fuel is never used up. *)
Definition ReadSlice (delim : byte) (b : Reader) (wd : World) :=
  ReadSlice_loop (2 + List.length (buf b)) delim 0 b wd.

Definition last_is (mem : bytes) (line : slice) (back : nat) (c : byte) : bool :=
  match nth_error mem (off line + len line - back) with
  | Some x => Byte.eqb x c
  | None => false
  end.

(** [b.ReadLine()]: the line without its end-of-line bytes, [isPrefix]
    and the error. *)
Definition ReadLine (b : Reader) (wd : World)
  : option ((slice * bool * option error) * Reader * World) :=
  match ReadSlice LF b wd with
  | None => None
  | Some ((line, e), b', wd') =>
      match e with
      | Some ErrBufferFull =>
          if (0 <? len line) && last_is (buf b') line 1 CR then
            Some ((mkSlice (off line) (len line - 1), true, None),
                  mkReader (buf b') (r b' - 1) (w b') (err b'), wd')
          else Some ((line, true, None), b', wd')
      | _ =>
          if len line =? 0 then
            match e with
            | Some _ => Some ((empty, false, e), b', wd')
            | None => Some ((line, false, None), b', wd')
            end
          else
            let drop :=
              if last_is (buf b') line 1 LF then
                if (1 <? len line) && last_is (buf b') line 2 CR then 2 else 1
              else 0 in
            Some ((mkSlice (off line) (len line - drop), false, None), b', wd')
      end
  end.

End bufio.

(** ** Package context, as far as [WithTimeout] and [Done] go *)
Module context.

Record Context := mkContext { deadline : Z }.

(** [context.WithTimeout(context.Background(), d)] called at [now]. *)
Definition WithTimeout (now d : Z) : Context := mkContext (now + d).

(** Is the channel of [ctx.Done()] closed at [now]? *)
Definition Done (ctx : Context) (now : Z) : bool := (deadline ctx <=? now)%Z.

End context.

(** [time.Second], in nanoseconds. *)
Definition Second : Z := 1000000000.

(** ** Package wavesharecomm (wavesharecomm/wavesharecomm.go) *)
Module wavesharecomm.
Import io bufio context.

Definition CmdStart : bytes := [].
Definition CmdNoEcho : bytes := lit "E0".
Definition CmdEcho : bytes := lit "E1".
Definition CmdNetworkOperator : bytes := lit "COPS".

Definition OkResponseOk : bytes := [x4f; x4b].

Definition errTimeout : error := ErrNew "operation timed out".
Definition errClosed : error := ErrNew "channel closed unexpectedly".

(** [WriteCommand(port, cmd)]. *)
Definition WriteCommand (wd : World) (cmd : bytes) : option error * World :=
  let newCmd := lit "AT" ++ (cmd ++ CRLF) in
  let wd1 := log_Printf wd (LogSending newCmd) in
  let '(e, p') := Write (port wd1) newCmd in
  (e, set_port wd1 p').

(** [readLineIgnoreEof(ctx, reader)]: each turn of the loop is one
    [select] on [ctx.Done()] with a [default] case.  The clock of the
    world moves in the reads of the port only: on a port whose reads take
    no time and report [io.EOF] the loop never comes to the deadline, and
    the result is [None] for every fuel, where the code spins until the
    deadline passes.  The statements on such ports take reads of a
    positive time. *)
Fixpoint readLineIgnoreEof (fuel : nat) (ctx : Context)
         (reader : Reader) (wd : World)
  : option ((slice * option error) * Reader * World) :=
  match fuel with
  | O => None
  | S k =>
      if Done ctx (clock wd) then
        Some ((empty, Some errTimeout), reader, wd)
      else
        match ReadLine reader wd with
        | None => None
        | Some ((b, _, e), reader', wd') =>
            match e with
            | Some EOF => readLineIgnoreEof k ctx reader' wd'
            | _ => Some ((b, e), reader', wd')
            end
        end
  end.

(** [goWaitForResponse(reader, ctx, responseCh)].  The first component
    of the result is what the worker leaves on [responseCh] when it
    exits: the line it sent, or nothing (the channel is closed empty). *)
Definition goWaitForResponse (fuel : nat) (reader : Reader) (ctx : Context)
           (wd : World) : option (option slice * Reader * World) :=
  if Done ctx (clock wd) then Some (None, reader, wd)
  else
    match readLineIgnoreEof fuel ctx reader wd with
    | None => None
    | Some ((_, Some e), reader1, wd1) =>
        Some (None, reader1, log_Printf wd1 (LogReadError e))
    | Some ((_, None), reader1, wd1) =>
        match readLineIgnoreEof fuel ctx reader1 wd1 with
        | None => None
        | Some ((line, e), reader2, wd2) =>
            let wd3 := match e with
                       | Some e' => log_Printf wd2 (LogReadError e')
                       | None => wd2
                       end in
            Some (Some line, reader2, wd3)
        end
    end.

(** The ways [waitForResponse] returns.  The caller goes on with the
    reader and the world of [Got] and [Closed]; after [TimedOut] the
    worker may still be running on them, so none is given. *)
Inductive Waited : Type :=
| Got (response : slice) (reader : Reader) (wd : World)
| Closed (reader : Reader) (wd : World)
| TimedOut.

(** The two values of the Go function. *)
Definition w_response (x : Waited) : slice :=
  match x with Got response _ _ => response | _ => empty end.

Definition w_err (x : Waited) : option error :=
  match x with
  | Got _ _ _ => None
  | Closed _ _ => Some errClosed
  | TimedOut => Some errTimeout
  end.

(** [waitForResponse(reader, timeoutDuration)].  The worker's channel
    operation happens at the clock of its exit; [ctx.Done()] is ready to
    the caller from [ready] on.  When the worker leaves at the very
    instant [ready], [sched] says which case the select takes.  That
    allows more than the code does: a worker that leaves because it has
    seen [ctx.Done()] closed finds the caller, parked on the deadline,
    woken already, so that in the code the deadline case is taken. *)
Definition waitForResponse (fuel : nat) (reader : Reader)
           (timeoutDuration : Z) (wd : World) : option Waited :=
  let ctx := WithTimeout (clock wd) timeoutDuration in
  let ready := Z.max (deadline ctx) (clock wd) in
  match goWaitForResponse fuel reader ctx wd with
  | None => None
  | Some (msg, reader', wd') =>
      let on_chan :=
        match msg with
        | Some response => Got response reader' (next_select wd')
        | None => Closed reader' (next_select wd')
        end in
      Some (if (clock wd' <? ready)%Z then on_chan
            else if (ready <? clock wd')%Z then TimedOut
            else match sched wd (nsel wd) with
                 | PickDone => TimedOut
                 | PickChan => on_chan
                 end)
  end.

(** [response[i]]; [None] is the run-time panic "index out of range",
    which Go raises when [i] is not below [len(response)]. *)
Definition index (mem : bytes) (s : slice) (i : nat) : option byte :=
  if i <? len s then Some (nth (off s + i) mem x00) else None.

(** The three results of [ExecuteCommand], and with them the buffer
    [response] points into and the world, both as they are at the return
    ([None] when a worker was left behind). *)
Record Outcome := mkOutcome {
  response : slice;
  ok : bool;
  err : option error;
  after : option (bytes * World)
}.

Inductive Exec : Type :=
| Return (o : Outcome)
| Panic.

Definition after_wait (x : Waited) : option (bytes * World) :=
  match x with
  | Got _ reader wd | Closed reader wd => Some (buf reader, wd)
  | TimedOut => None
  end.

(** [bytes.Equal(bytes.TrimSpace(line), OkResponseOk)], on the bytes the
    line shows in the buffer [mem]. *)
Definition isOk (mem : bytes) (line : slice) : bool :=
  bytes_.Equal (bytes_.TrimSpace (view mem line)) OkResponseOk.

(** [ExecuteCommand(port, cmd, timeoutDuration)], the port being the one
    of the world. *)
Definition ExecuteCommand (fuel : nat) (cmd : bytes) (timeoutDuration : Z)
           (wd : World) : option Exec :=
  let '(e, wd1) := WriteCommand wd cmd in
  match e with
  | Some e' =>
      Some (Return (mkOutcome empty false
              (Some (ErrWrap "error writing command to port" e'))
              (Some ([], wd1))))
  | None =>
      let reader := NewReader in
      match waitForResponse fuel reader timeoutDuration wd1 with
      | None => None
      | Some (Got response reader1 wd2) =>
          if 1 <=? len response then
            match index (buf reader1) response 0 with
            | None => Some Panic
            | Some c =>
                if Byte.eqb c x2b then
                  match waitForResponse fuel reader1 timeoutDuration wd2 with
                  | None => None
                  | Some (Got okResponse reader2 wd3) =>
                      Some (Return (mkOutcome response
                              (isOk (buf reader2) okResponse)
                              None (Some (buf reader2, wd3))))
                  | Some failed =>
                      Some (Return (mkOutcome response false
                              (option_map
                                 (ErrWrap "error getting ok response from port")
                                 (w_err failed))
                              (after_wait failed)))
                  end
                else
                  Some (Return (mkOutcome response
                          (isOk (buf reader1) response)
                          None (Some (buf reader1, wd2))))
            end
          else
            Some (Return (mkOutcome response
                    (isOk (buf reader1) response)
                    None (Some (buf reader1, wd2))))
      | Some failed =>
          Some (Return (mkOutcome (w_response failed) false
                  (option_map (ErrWrap "error getting response from port")
                              (w_err failed))
                  (after_wait failed)))
      end
  end.

(** [ExecuteCommandRead(port, cmd, timeoutDuration)]. *)
Definition ExecuteCommandRead (fuel : nat) (cmd : bytes) (timeoutDuration : Z)
           (wd : World) : option Exec :=
  ExecuteCommand fuel (fmt.Sprintf (lit "+%s?") [cmd]) timeoutDuration wd.

(** [ExecuteCommandExecute(port, cmd, timeoutDuration)]. *)
Definition ExecuteCommandExecute (fuel : nat) (cmd : bytes) (timeoutDuration : Z)
           (wd : World) : option Exec :=
  ExecuteCommand fuel (fmt.Sprintf (lit "+%s") [cmd]) timeoutDuration wd.

(** The bytes of the returned payload as the caller reads them at the
    return; [None] when a worker that was left behind may still be
    writing the buffer under a non-empty payload. *)
Definition payload (o : Outcome) : option bytes :=
  if len (response o) =? 0 then Some []
  else match after o with
       | Some (mem, _) => Some (view mem (response o))
       | None => None
       end.

End wavesharecomm.

(** ** The copy of [WriteCommand] in waveshare_comm/waveshare_comm.go *)
Module waveshare_comm.
Import io.

Definition WriteCommand (wd : World) (cmd : bytes) : option error * World :=
  let newCmd := lit "AT" ++ (cmd ++ CRLF) in
  let wd1 := log_Printf wd (LogSending newCmd) in
  let '(e, p') := Write (port wd1) newCmd in
  (e, set_port wd1 p').

End waveshare_comm.

(** ** Scripted ports used in the examples *)
Module Script.
Import io.

(** The line [+COPS: 0,0,"Carrier"]. *)
Definition cops : bytes :=
  lit "+COPS: 0,0," ++ [DQUOTE] ++ lit "Carrier" ++ [DQUOTE].

(** Milliseconds, in nanoseconds. *)
Definition ms (n : N) : N := n * 1000000.

(** A read that hands over [d] after [n] milliseconds. *)
Definition after_ms (n : N) (d : bytes) : ReadEvent := mkRead (ms n) d None.

(** A read that reports [io.EOF] and no byte after [n] milliseconds:
    what the serial port does when nothing arrived. *)
Definition eof_ms (n : N) : ReadEvent := mkRead (ms n) [] (Some EOF).

(** A read that fails with an error of the transport. *)
Definition fail_ms (n : N) : ReadEvent := mkRead (ms n) [] (Some (ErrPort 5)).

(** A world at clock 0 whose port plays [evs], then [idl], whose writes
    succeed and whose selects pick [pick]. *)
Definition world (evs : list ReadEvent) (idl : ReadEvent) (pick : Pick) : World :=
  mkWorld 0 (mkPort evs idl [] []) [] (fun _ => pick) 0.

(** The wire format: each of the two lines comes after a framing line
    of its own. *)
Definition framed (d1 d2 d3 d4 : N) : list ReadEvent :=
  [mkRead d1 CRLF None; mkRead d2 (cops ++ CRLF) None;
   mkRead d3 CRLF None; mkRead d4 (lit "OK" ++ CRLF) None].

(** The same without the framing line before [OK]. *)
Definition unframed (d1 d2 d3 : N) : list ReadEvent :=
  [mkRead d1 CRLF None; mkRead d2 (cops ++ CRLF) None;
   mkRead d3 (lit "OK" ++ CRLF) None].

Definition w_unframed : World :=
  world (unframed (ms 10) (ms 10) (ms 10)) (eof_ms 100) PickDone.

Definition w_framed : World :=
  world (framed (ms 10) (ms 10) (ms 10) (ms 10)) (eof_ms 100) PickDone.

(** Four reads of 300 ms each: the exchange takes longer than a second. *)
Definition w_framed_slow : World :=
  world (framed (ms 300) (ms 300) (ms 300) (ms 300)) (eof_ms 100) PickDone.

(** Nothing ever arrives; the polls fall on the deadline of a wait of
    one second. *)
Definition w_silent (pick : Pick) : World := world [] (eof_ms 100) pick.

(** The first read fails. *)
Definition w_broken : World := world [fail_ms 5] (eof_ms 100) PickDone.

(** The framing line arrives, then the read of the payload fails. *)
Definition w_broken_payload : World :=
  world [after_ms 10 CRLF; fail_ms 5] (eof_ms 100) PickDone.

(** The framing line arrives and nothing after it. *)
Definition w_late : World := world [after_ms 10 CRLF] (eof_ms 10) PickChan.

Definition w_empty_line : World :=
  world [after_ms 10 CRLF; after_ms 10 CRLF] (eof_ms 100) PickDone.

Definition w_spaced_ok : World :=
  world [after_ms 10 CRLF; after_ms 10 (lit " OK " ++ CRLF)] (eof_ms 100) PickDone.

(** What the buffer shows under the payload slice once the status line
    was read over it. *)
Definition overwritten : bytes :=
  lit "OK" ++ CRLF ++ lit "S: 0,0," ++ [DQUOTE] ++ lit "Carrier" ++ [DQUOTE].

End Script.

(** ** The words of the specification *)
Module Spec.

(** "Whitespace" of a line of ASCII text: the six ASCII white space
    characters. *)
Definition whitespace (c : byte) : bool :=
  match c with
  | x09 | x0a | x0b | x0c | x0d | x20 => true
  | _ => false
  end.

Fixpoint dropWhile (f : byte -> bool) (l : bytes) : bytes :=
  match l with
  | c :: l' => if f c then dropWhile f l' else l
  | [] => []
  end.

(** "trim removes leading and trailing whitespace". *)
Definition trim (l : bytes) : bytes :=
  rev (dropWhile whitespace (rev (dropWhile whitespace l))).

(** "the payload line starts with [+]". *)
Definition starts_with_plus (l : bytes) : bool :=
  match l with
  | x2b :: _ => true
  | _ => false
  end.

End Spec.

(** ** Predicates used in the statements *)

(** A byte below [utf8.RuneSelf]. *)
Definition is_ascii (c : byte) : Prop := bytes_.isSelf c = false.

(** The [select] of [waitForResponse] takes the channel case: the worker
    left at [wd'], the deadline case is ready from [ready] on, and the
    wait began in [wd]. *)
Definition chan_first (wd wd' : World) (ready : Z) : Prop :=
  (clock wd' < ready)%Z
  \/ (clock wd' = ready /\ sched wd (nsel wd) = PickChan).

(** A port on which nothing arrives: every [Read] reports [io.EOF] and no
    byte after [k] nanoseconds. *)
Definition silent (k : N) (p : io.Port) : Prop :=
  io.incoming p = [] /\ io.idle p = io.mkRead k [] (Some io.EOF).

(** A reader with nothing buffered, on the buffer [bf]. *)
Definition fresh (bf : bytes) : bufio.Reader := bufio.mkReader bf 0 0 None.

(** The positions of a reader lie in its buffer. *)
Definition wf (b : bufio.Reader) : Prop :=
  (bufio.r b <= bufio.w b)%nat
  /\ (bufio.w b <= List.length (bufio.buf b))%nat.

(** Turns of the loop of [readLineIgnoreEof] that are enough for a wait of
    [t] nanoseconds on a port that takes [k] nanoseconds a poll. *)
Definition polls (t : Z) (k : N) : nat := Z.to_nat (t / Z.of_N k) + 1.

(** ** White space, as Unicode has it *)
Module White.

(** The code points with the property [White_Space]. *)
Definition points : list N :=
  [0x09; 0x0A; 0x0B; 0x0C; 0x0D; 0x20; 0x85; 0xA0; 0x1680;
   0x2000; 0x2001; 0x2002; 0x2003; 0x2004; 0x2005; 0x2006; 0x2007; 0x2008;
   0x2009; 0x200A; 0x2028; 0x2029; 0x202F; 0x205F; 0x3000]%N.

Definition byte_of (n : N) : byte :=
  match Byte.of_N n with Some b => b | None => x00 end.

(** UTF-8 of a code point below [0x10000]. *)
Definition encode (c : N) : bytes :=
  if (c <? 0x80)%N then [byte_of c]
  else if (c <? 0x800)%N then
    [byte_of (0xC0 + c / 64); byte_of (0x80 + c mod 64)]%N
  else
    [byte_of (0xE0 + c / 4096); byte_of (0x80 + (c / 64) mod 64);
     byte_of (0x80 + c mod 64)]%N.

(** The white space characters, as bytes. *)
Definition chars : list bytes := Eval vm_compute in map encode points.

(** The same, each read from its end. *)
Definition rchars : list bytes := Eval vm_compute in map (@rev byte) chars.

Fixpoint bytes_eqb (a b : bytes) : bool :=
  match a, b with
  | [], [] => true
  | x :: a', y :: b' => Byte.eqb x y && bytes_eqb a' b'
  | _, _ => false
  end.

Definition is_char (ws : list bytes) (w : bytes) : bool :=
  existsb (bytes_eqb w) ws.

(** Drop the characters of [ws] that [l] begins with; none is longer
    than three bytes. *)
Fixpoint strip (ws : list bytes) (l : bytes) : bytes :=
  match l with
  | [] => []
  | a :: l1 =>
      if is_char ws [a] then strip ws l1
      else match l1 with
           | [] => l
           | b :: l2 =>
               if is_char ws [a; b] then strip ws l2
               else match l2 with
                    | [] => l
                    | c :: l3 =>
                        if is_char ws [a; b; c] then strip ws l3 else l
                    end
           end
  end.

(** "trim removes leading and trailing whitespace", the white space being
    that of Unicode. *)
Definition trim (l : bytes) : bytes :=
  rev (strip rchars (rev (strip chars l))).

End White.

(** Every byte. *)
Definition all_bytes : list byte :=
  Eval vm_compute in map (fun n => White.byte_of (N.of_nat n)) (seq 0 256).

(** The length of the encoding that the byte [a] begins. *)
Definition sz (a : byte) : N := N.land (utf8.first (Byte.to_N a)) 7.

(** [DecodeRune] finds white space only where a white space character
    stands. *)
Definition space_is_char (p : bytes) : bool :=
  let '(r, wid) := utf8.DecodeRune p in
  if unicode.IsSpace r
  then White.is_char White.chars (firstn wid p) && (wid <=? List.length p)%nat
  else true.

(** What may follow a byte for it to stand alone: nothing, or a byte that
    continues no encoding. *)
Definition ok_tail (u : bytes) : Prop :=
  match u with
  | [] => True
  | y :: _ => (Byte.to_N y <? 0x80)%N || (0xBF <? Byte.to_N y)%N = true
  end.

(** [l] begins with a character of [ws]. *)
Definition starts (ws : list bytes) (l : bytes) : Prop :=
  exists w rest, In w ws /\ l = w ++ rest.

(** ** Frames, wrapped errors and further predicates *)

(** The frame [WriteCommand] writes for [cmd]. *)
Definition frame_of (cmd : bytes) : bytes := lit "AT" ++ cmd ++ CRLF.

(** The three errors of [ExecuteCommand]: each wraps its cause. *)
Definition errWrite (e : io.error) : io.error :=
  io.ErrWrap "error writing command to port" e.

Definition errResponse (e : io.error) : io.error :=
  io.ErrWrap "error getting response from port" e.

Definition errOkResponse (e : io.error) : io.error :=
  io.ErrWrap "error getting ok response from port" e.

(** A line: no line feed in it. *)
Definition is_line (s : bytes) : Prop := ~ In LF s.

(** The same, as a test. *)
Definition is_lineb (s : bytes) : bool :=
  forallb (fun c => negb (Byte.eqb c LF)) s.

(** A reader with nothing buffered and no error pending. *)
Definition drained (b : bufio.Reader) : Prop :=
  bufio.r b = bufio.w b /\ bufio.err b = None.

(** The port is about to deliver a framing line and then the line [s]. *)
Definition brings (p : io.Port) (d1 d2 : N) (s : bytes)
           (evs : list io.ReadEvent) : Prop :=
  io.incoming p
  = io.mkRead d1 CRLF None :: io.mkRead d2 (s ++ CRLF) None :: evs.

(** The slice [line] lies in the buffer of [b]. *)
Definition within (b : bufio.Reader) (line : bufio.slice) : Prop :=
  bufio.off line + bufio.len line <= List.length (bufio.buf b).

(** Reading touches the clock and the incoming bytes of the world and
    nothing else. *)
Definition quiet (wd wd' : World) : Prop :=
  logged wd' = logged wd /\ sched wd' = sched wd /\ nsel wd' = nsel wd
  /\ io.wresults (port wd') = io.wresults (port wd)
  /\ io.idle (port wd') = io.idle (port wd).



(** ** Further scripted ports *)
Module Cases.
Import io.

(** A status line is waiting, but the write of the command fails. *)
Definition w_write_fails : World :=
  mkWorld 0
    (mkPort [Script.after_ms 10 CRLF; Script.after_ms 10 (lit "OK" ++ CRLF)]
            (Script.eof_ms 100) [Some (ErrPort 7)] [])
    [] (fun _ => PickDone) 0.

(** The device answers [ERROR]. *)
Definition w_error_status : World :=
  Script.world [Script.after_ms 10 CRLF; Script.after_ms 10 (lit "ERROR" ++ CRLF)]
               (Script.eof_ms 100) PickDone.

(** The whole answer to [+COPS?], as one run of bytes. *)
Definition one_read : bytes :=
  CRLF ++ Script.cops ++ CRLF ++ CRLF ++ lit "OK" ++ CRLF.

Definition w_one_read : World :=
  Script.world [Script.after_ms 10 one_read] (Script.eof_ms 100) PickDone.

(** The status line of one command and the whole answer to the next
    arrive in one read. *)
Definition w_read_ahead : World :=
  Script.world [Script.after_ms 10 (CRLF ++ lit "OK" ++ CRLF ++ one_read)]
               (Script.eof_ms 100) PickDone.

(** Nothing arrives, and a poll takes 300 ms. *)
Definition w_slow_polls : World := Script.world [] (Script.eof_ms 300) PickDone.


(** A no-break space and [OK]. *)
Definition nbsp_ok : bytes := [xc2; xa0] ++ lit "OK".

(** The device answers [OK] behind a no-break space. *)
Definition w_nbsp_ok : World :=
  Script.world [Script.after_ms 10 CRLF; Script.after_ms 10 (nbsp_ok ++ CRLF)]
               (Script.eof_ms 100) PickDone.

End Cases.

(** ** Tactics *)

(** Compare clocks of worlds built by the functions above. *)
Ltac clock_lia :=
  cbv [clock set_port log_Printf advance next_select]; lia.

(** Run a [ReadLine], leaving the arithmetic of the clock alone. *)
Ltac run_ReadLine :=
  cbv -[Z.add Z.of_N Z.leb Z.ltb Z.max Z.mul]; reflexivity.

(** Go through the members of a list given in full. *)
Ltac each_member H :=
  repeat (destruct H as [H|H]; [symmetry in H|]); [..|now elim H].

(** Replace the closed parts of [DecodeRune] at a known first byte by
    their values. *)
Ltac lead_byte :=
  unfold utf8.DecodeRune;
  cbn [List.length Nat.ltb Nat.leb utf8.at_ nth_error];
  repeat match goal with
  | |- context [utf8.first (Byte.to_N ?a)] =>
      let v := eval vm_compute in (utf8.first (Byte.to_N a)) in
      change (utf8.first (Byte.to_N a)) with v
  end;
  repeat match goal with
  | |- context [utf8.acceptRanges ?i] =>
      let v := eval vm_compute in (utf8.acceptRanges i) in
      change (utf8.acceptRanges i) with v
  | |- context [N.to_nat ?i] =>
      let v := eval vm_compute in (N.to_nat i) in
      change (N.to_nat i) with v
  | |- context [(utf8.as_ <=? ?i)%N] =>
      let v := eval vm_compute in (utf8.as_ <=? i)%N in
      change (utf8.as_ <=? i)%N with v
  end;
  cbn [fst snd Nat.leb Nat.ltb].

(** * Properties *)

Import io bufio context wavesharecomm.
Local Open Scope Z_scope.

(** ** Framing and the wrappers *)

Lemma WriteCommand_sent (wd : World) (cmd : bytes) :
  sent (port (snd (WriteCommand wd cmd)))
  = sent (port wd) ++ [lit "AT" ++ cmd ++ CRLF].
Proof.
  unfold WriteCommand, Write; simpl.
  destruct (wresults (port wd)); reflexivity.
Qed.

Lemma WriteCommand_ok (wd : World) (cmd : bytes) :
  hd None (wresults (port wd)) = None ->
  exists wd1,
    WriteCommand wd cmd = (None, wd1)
    /\ clock wd1 = clock wd /\ sched wd1 = sched wd /\ nsel wd1 = nsel wd
    /\ incoming (port wd1) = incoming (port wd)
    /\ idle (port wd1) = idle (port wd).
Proof.
  intros H. unfold WriteCommand, Write. simpl.
  destruct (wresults (port wd)) as [|res more]; simpl in *; subst;
    eexists; repeat split.
Qed.

(** C4.  For every command body [b], whatever its bytes, [WriteCommand]
    hands exactly one frame to the port's [Write], and that frame is the
    two bytes [AT], then [b], then carriage return and line feed.  This
    holds for the function of package [wavesharecomm] and for its copy in
    [waveshare_comm]. *)
Theorem C4_wire_frame (wd : World) (b : bytes) :
  let frame := lit "AT" ++ b ++ [x0d; x0a] in
  sent (port (snd (wavesharecomm.WriteCommand wd b))) = sent (port wd) ++ [frame]
  /\ sent (port (snd (waveshare_comm.WriteCommand wd b))) = sent (port wd) ++ [frame]
  /\ List.length frame = (List.length b + 4)%nat
  /\ firstn 2 frame = [x41; x54]
  /\ firstn (List.length b) (skipn 2 frame) = b
  /\ skipn (2 + List.length b) frame = [x0d; x0a].
Proof.
  cbv zeta. repeat split.
  - apply WriteCommand_sent.
  - unfold waveshare_comm.WriteCommand, Write; simpl.
    destruct (wresults (port wd)); reflexivity.
  - simpl. rewrite length_app. simpl. lia.
  - simpl. rewrite firstn_app, firstn_all.
    replace (_ - _)%nat with 0%nat by lia. simpl. apply app_nil_r.
  - simpl. now rewrite skipn_app, skipn_all, Nat.sub_diag.
Qed.

Lemma Sprintf_read (b : bytes) :
  fmt.Sprintf (lit "+%s?") [b] = lit "+" ++ b ++ lit "?".
Proof. reflexivity. Qed.

Lemma Sprintf_execute (b : bytes) :
  fmt.Sprintf (lit "+%s") [b] = lit "+" ++ b.
Proof. simpl. now rewrite app_nil_r. Qed.

(** C6.  For every body [b], timeout [t] and world (port included),
    [ExecuteCommandRead] is [ExecuteCommand] on the body ["+" ++ b ++ "?"]
    and [ExecuteCommandExecute] is [ExecuteCommand] on ["+" ++ b]: same
    results, same effects, nothing else. *)
Theorem C6_wrappers (fuel : nat) (b : bytes) (t : Z) (wd : World) :
  ExecuteCommandRead fuel b t wd
  = ExecuteCommand fuel (lit "+" ++ b ++ lit "?") t wd
  /\ ExecuteCommandExecute fuel b t wd
     = ExecuteCommand fuel (lit "+" ++ b) t wd.
Proof.
  unfold ExecuteCommandRead, ExecuteCommandExecute.
  now rewrite Sprintf_read, Sprintf_execute.
Qed.

(** ** The buffered reader *)

Lemma store_length (mem : bytes) (a : nat) (d : bytes) :
  (a + List.length d <= List.length mem)%nat ->
  List.length (store mem a d) = List.length mem.
Proof.
  intros H. unfold store.
  rewrite !length_app, length_firstn, length_skipn. lia.
Qed.

Lemma Read_length (p : Port) (n : nat) :
  (List.length (fst (fst (fst (Read p n)))) <= n)%nat.
Proof.
  unfold Read.
  destruct (incoming p) as [|ev evs];
    match goal with |- context [(List.length ?d <=? ?m)%nat] =>
      destruct (Nat.leb_spec (List.length d) m) end;
    cbn [fst]; try assumption; rewrite length_firstn; lia.
Qed.

(** [fill]'s reads keep the reader in its buffer and either bring a byte
    or leave an error behind. *)
Lemma fill_reads_spec i : forall b wd,
  wf b ->
  let b' := fst (fill_reads i b wd) in
  wf b' /\ List.length (buf b') = List.length (buf b) /\ r b' = r b
  /\ (bufio.err b = None -> bufio.err b' <> None \/ (w b < w b')%nat).
Proof.
  induction i as [|i IH]; intros b wd [Hr Hw]; simpl.
  - repeat split; auto. intros _. left. discriminate.
  - pose proof (Read_length (port wd) (List.length (buf b) - w b)) as Hn.
    destruct (Read (port wd) (List.length (buf b) - w b)) as [[[d e] t] p'].
    cbn [fst] in Hn.
    assert (Hl : List.length (store (buf b) (w b) d) = List.length (buf b))
      by (apply store_length; lia).
    destruct e as [e|].
    + cbn [fst buf r w bufio.err]. unfold wf. cbn [buf r w].
      rewrite Hl. repeat split; try lia. intros _. left. discriminate.
    + destruct (Nat.ltb_spec 0 (List.length d)) as [Hd|Hd].
      * cbn [fst buf r w bufio.err]. unfold wf. cbn [buf r w].
        rewrite Hl. repeat split; lia.
      * match goal with |- context [fill_reads i ?b1 ?w1] =>
          specialize (IH b1 w1) end.
        cbn [buf r w bufio.err] in IH. unfold wf in IH. cbn [buf r w] in IH.
        rewrite Hl in IH.
        destruct IH as (Hwf & Hlen & Hr' & Herr); [lia|].
        repeat split; try apply Hwf; try lia.
        intros He. destruct (Herr He) as [H|H]; [now left|right; lia].
Qed.

Lemma fill_spec b wd :
  wf b ->
  let b' := fst (fill b wd) in
  wf b' /\ List.length (buf b') = List.length (buf b)
  /\ (bufio.err b = None ->
      bufio.err b' <> None \/ (Buffered b < Buffered b')%nat).
Proof.
  intros [Hr Hw]. unfold fill.
  destruct (Nat.ltb_spec 0 (r b)) as [H0|H0].
  - assert (Hl : List.length (store (buf b) 0 (sub (buf b) (r b) (w b)))
                 = List.length (buf b)).
    { apply store_length. unfold sub. rewrite length_firstn, length_skipn. lia. }
    match goal with |- context [fill_reads _ ?b1 wd] =>
      pose proof (fill_reads_spec maxConsecutiveEmptyReads b1 wd) as H end.
    cbn [buf r w bufio.err] in H. unfold wf in H. cbn [buf r w] in H.
    rewrite Hl in H. destruct H as (Hwf & Hlen & Hr' & Herr); [lia|].
    cbv zeta. repeat split; try apply Hwf; try lia.
    intros He. destruct (Herr He) as [H|H]; [now left|right].
    unfold Buffered. lia.
  - pose proof (fill_reads_spec maxConsecutiveEmptyReads b wd (conj Hr Hw))
      as (Hwf & Hlen & Hr' & Herr).
    cbv zeta. repeat split; try apply Hwf; try lia.
    intros He. destruct (Herr He) as [H|H]; [now left|right].
    unfold Buffered. lia.
Qed.

(** The loop of [ReadSlice] ends within its fuel. *)
Lemma ReadSlice_loop_total fuel : forall delim s b wd,
  wf b ->
  (match bufio.err b with
   | Some _ => 1
   | None => List.length (buf b) - Buffered b + 2
   end <= fuel)%nat ->
  exists line e b' wd',
    ReadSlice_loop fuel delim s b wd = Some ((line, e), b', wd')
    /\ wf b' /\ List.length (buf b') = List.length (buf b).
Proof.
  induction fuel as [|k IH]; intros delim s b wd Hwf Hf.
  - destruct (bufio.err b); lia.
  - simpl. destruct (bytes_.IndexByte _ _) as [i|] eqn:Hi.
    + do 4 eexists. split; [reflexivity|]. split; [|reflexivity].
      destruct Hwf as [Hr Hw]. unfold wf. cbn [r w buf].
      (* the index found lies in the unread bytes *)
      assert (Hlt : (i < List.length (sub (buf b) (r b + s) (w b)))%nat).
      { clear - Hi. revert i Hi.
        induction (sub (buf b) (r b + s) (w b)) as [|x l IHl]; intros i Hi;
          simpl in Hi; [discriminate|].
        destruct (Byte.eqb x delim); [inversion Hi; simpl; lia|].
        destruct (bytes_.IndexByte l delim) as [j|]; [|discriminate].
        inversion Hi; subst. specialize (IHl j eq_refl). simpl. lia. }
      unfold sub in Hlt. rewrite length_firstn, length_skipn in Hlt. lia.
    + destruct (bufio.err b) as [e|] eqn:He.
      * do 4 eexists. split; [reflexivity|]. split; [|reflexivity].
        destruct Hwf. unfold wf. cbn [r w buf]. lia.
      * destruct (Nat.leb_spec (List.length (buf b)) (Buffered b)) as [Hfull|Hroom].
        -- do 4 eexists. split; [reflexivity|]. split; [|reflexivity].
           destruct Hwf. unfold wf. cbn [r w buf]. lia.
        -- pose proof (fill_spec b wd Hwf) as (Hwf' & Hlen & Herr).
           destruct (fill b wd) as [b1 wd1]. cbn [fst] in *.
           destruct (IH delim (w b - r b)%nat b1 wd1 Hwf')
             as (line & e' & b' & wd' & Hs & Hw' & Hl').
           { destruct (Herr He) as [H|H].
             - destruct (bufio.err b1); [lia|now elim H].
             - destruct (bufio.err b1); lia. }
           do 4 eexists. split; [exact Hs|]. split; [exact Hw'|]. congruence.
Qed.

(** [ReadLine] always returns, and leaves the reader in its buffer. *)
Lemma ReadLine_total b wd :
  wf b ->
  exists line p e b' wd',
    ReadLine b wd = Some ((line, p, e), b', wd')
    /\ wf b' /\ List.length (buf b') = List.length (buf b).
Proof.
  intros Hwf. unfold ReadLine, ReadSlice.
  destruct (ReadSlice_loop_total (2 + List.length (buf b)) LF 0 b wd Hwf)
    as (line & e & b1 & wd1 & Hs & Hw1 & Hl1).
  { destruct (bufio.err b); unfold Buffered; lia. }
  rewrite Hs.
  destruct e as [e|].
  - destruct e;
      try (destruct (len line =? 0)%nat; do 5 eexists;
           (split; [reflexivity|]); split; assumption).
    destruct (_ && _) eqn:Hc.
    + do 5 eexists. split; [reflexivity|]. split; [|exact Hl1].
      destruct Hw1. unfold wf. cbn [r w buf]. lia.
    + do 5 eexists. split; [reflexivity|]. split; assumption.
  - destruct (len line =? 0)%nat; do 5 eexists;
      (split; [reflexivity|]); split; assumption.
Qed.

Lemma NewReader_wf : wf NewReader.
Proof. split; simpl; lia. Qed.

(** ** The cancellable line reader *)

Lemma readLineIgnoreEof_done k ctx rd wd :
  Done ctx (clock wd) = true ->
  readLineIgnoreEof (S k) ctx rd wd = Some ((empty, Some errTimeout), rd, wd).
Proof. intros H. simpl. now rewrite H. Qed.

Lemma readLineIgnoreEof_retry k ctx rd wd b p rd' wd' :
  Done ctx (clock wd) = false ->
  ReadLine rd wd = Some ((b, p, Some EOF), rd', wd') ->
  readLineIgnoreEof (S k) ctx rd wd = readLineIgnoreEof k ctx rd' wd'.
Proof. intros H1 H2. simpl. now rewrite H1, H2. Qed.

Lemma readLineIgnoreEof_return k ctx rd wd b p e rd' wd' :
  Done ctx (clock wd) = false ->
  ReadLine rd wd = Some ((b, p, e), rd', wd') ->
  e <> Some EOF ->
  readLineIgnoreEof (S k) ctx rd wd = Some ((b, e), rd', wd').
Proof.
  intros H1 H2 H3. simpl. rewrite H1, H2.
  destruct e as [[]|]; try reflexivity. now elim H3.
Qed.

Lemma readLineIgnoreEof_never_eof fuel : forall ctx rd wd line e rd' wd',
  readLineIgnoreEof fuel ctx rd wd = Some ((line, Some e), rd', wd') -> e <> EOF.
Proof.
  induction fuel as [|k IH]; intros ctx rd wd line e rd' wd' H; simpl in H.
  - discriminate.
  - destruct (Done ctx (clock wd)).
    + inversion H; subst. discriminate.
    + destruct (ReadLine rd wd) as [[[[[b p] e0] rd1] wd1]|]; [|discriminate].
      destruct e0 as [e0|].
      * destruct e0; try (inversion H; subst; discriminate).
        eapply IH; eassumption.
      * discriminate.
Qed.

(** [ReadLine] reports an error only together with an empty line. *)
Lemma ReadLine_error_empty rd wd line p e rd' wd' :
  ReadLine rd wd = Some ((line, p, Some e), rd', wd') -> line = empty.
Proof.
  unfold ReadLine.
  destruct (ReadSlice LF rd wd) as [[[[l e0] b'] w']|]; [|discriminate].
  destruct e0 as [e0|].
  - destruct e0;
      try (destruct (len l =? 0)%nat; intros H; inversion H; reflexivity).
    destruct (_ && _); discriminate.
  - destruct (len l =? 0)%nat; discriminate.
Qed.

Lemma readLineIgnoreEof_error_empty fuel : forall ctx rd wd line e rd' wd',
  readLineIgnoreEof fuel ctx rd wd = Some ((line, Some e), rd', wd') ->
  line = empty.
Proof.
  induction fuel as [|k IH]; intros ctx rd wd line e rd' wd' H; simpl in H.
  - discriminate.
  - destruct (Done ctx (clock wd)).
    + now inversion H.
    + destruct (ReadLine rd wd) as [[[[[b p] e0] rd1] wd1]|] eqn:HR; [|discriminate].
      destruct e0 as [e0|]; [|discriminate].
      destruct e0;
        try (inversion H; subst; eapply ReadLine_error_empty; eassumption).
      eapply IH; eassumption.
Qed.

(** C7.  One turn of the loop of [readLineIgnoreEof], from any reader and
    world: (1) the deadline is looked at first, and when it has passed the
    function fails with the timeout error without reading; (2) otherwise a
    [ReadLine] that reports [io.EOF] makes the loop go round again from
    the state that read left; (3) otherwise any other result of
    [ReadLine], error or not, is returned at once as it is; (4) whatever
    the number of turns, [io.EOF] is never the error returned. *)
Theorem C7_reader_loop (k : nat) (ctx : Context) (rd : Reader) (wd : World) :
  (Done ctx (clock wd) = true ->
     readLineIgnoreEof (S k) ctx rd wd = Some ((empty, Some errTimeout), rd, wd))
  /\ (Done ctx (clock wd) = false ->
      forall b p rd' wd',
        ReadLine rd wd = Some ((b, p, Some EOF), rd', wd') ->
        readLineIgnoreEof (S k) ctx rd wd = readLineIgnoreEof k ctx rd' wd')
  /\ (Done ctx (clock wd) = false ->
      forall b p e rd' wd',
        ReadLine rd wd = Some ((b, p, e), rd', wd') ->
        e <> Some EOF ->
        readLineIgnoreEof (S k) ctx rd wd = Some ((b, e), rd', wd'))
  /\ (forall line e rd' wd',
        readLineIgnoreEof k ctx rd wd = Some ((line, Some e), rd', wd') ->
        e <> EOF).
Proof.
  split; [|split; [|split]].
  - apply readLineIgnoreEof_done.
  - intros; eapply readLineIgnoreEof_retry; eassumption.
  - intros; eapply readLineIgnoreEof_return; eassumption.
  - intros; eapply readLineIgnoreEof_never_eof; eassumption.
Qed.

(** C7 at work: a deadline that has passed; a silent port, polled again;
    a failing port, whose error comes back at once. *)
Lemma C7_witness :
  readLineIgnoreEof 1 (mkContext 0) NewReader (Script.w_silent PickDone)
  = Some ((empty, Some errTimeout), NewReader, Script.w_silent PickDone)
  /\ (exists rd' wd',
         ReadLine NewReader (Script.w_silent PickDone)
         = Some ((empty, false, Some EOF), rd', wd')
         /\ readLineIgnoreEof 3 (mkContext Second) NewReader (Script.w_silent PickDone)
            = readLineIgnoreEof 2 (mkContext Second) rd' wd')
  /\ (exists rd' wd',
         ReadLine NewReader Script.w_broken
         = Some ((empty, false, Some (ErrPort 5)), rd', wd')
         /\ readLineIgnoreEof 3 (mkContext Second) NewReader Script.w_broken
            = Some ((empty, Some (ErrPort 5)), rd', wd'))
  /\ ErrPort 5 <> EOF.
Proof.
  split; [|split; [|split]].
  - exact (proj1 (C7_reader_loop 0 (mkContext 0) NewReader (Script.w_silent PickDone))
             eq_refl).
  - eexists. eexists.
    match goal with |- ?A /\ _ => assert (H : A) by (vm_compute; reflexivity) end.
    split; [exact H|].
    exact (proj1 (proj2 (C7_reader_loop 2 (mkContext Second) NewReader
                           (Script.w_silent PickDone)))
             eq_refl empty false _ _ H).
  - eexists. eexists.
    match goal with |- ?A /\ _ => assert (H : A) by (vm_compute; reflexivity) end.
    split; [exact H|].
    refine (proj1 (proj2 (proj2 (C7_reader_loop 2 (mkContext Second) NewReader
                                   Script.w_broken)))
              eq_refl empty false (Some (ErrPort 5)) _ _ H _).
    discriminate.
  - refine (proj2 (proj2 (proj2 (C7_reader_loop 3 (mkContext Second) NewReader
                                   Script.w_broken)))
              empty (ErrPort 5) _ _ _).
    vm_compute. reflexivity.
Defined.

(** ** The stages of [ExecuteCommand] *)

Lemma nth_skipn_hd (mem : bytes) : forall o d,
  nth o mem d = nth 0 (skipn o mem) d.
Proof.
  induction mem as [|x mem IH]; intros [|o] d; simpl; try reflexivity.
  apply IH.
Qed.

(** The guard of [ExecuteCommand] is the test "the line starts with [+]". *)
Lemma plus_guard (mem : bytes) (s : slice) :
  (if (1 <=? len s)%nat
   then match index mem s 0 with Some c => Byte.eqb c x2b | None => false end
   else false)
  = Spec.starts_with_plus (view mem s).
Proof.
  unfold index, view, sub. destruct s as [o [|n]]; simpl.
  - replace (o + 0 - o)%nat with 0%nat by lia. reflexivity.
  - replace (o + S n - o)%nat with (S n) by lia.
    rewrite Nat.add_0_r, nth_skipn_hd.
    destruct (skipn o mem) as [|c rest]; simpl; [reflexivity|].
    destruct c; reflexivity.
Qed.

(** The payload line is the status line. *)
Lemma ExecuteCommand_direct fuel cmd t wd wd1 resp rd1 wd2 :
  WriteCommand wd cmd = (None, wd1) ->
  waitForResponse fuel NewReader t wd1 = Some (Got resp rd1 wd2) ->
  Spec.starts_with_plus (view (buf rd1) resp) = false ->
  ExecuteCommand fuel cmd t wd
  = Some (Return (mkOutcome resp (isOk (buf rd1) resp) None (Some (buf rd1, wd2)))).
Proof.
  intros Hw H1 Hp. unfold ExecuteCommand. rewrite Hw, H1.
  rewrite <- plus_guard in Hp. unfold index in *.
  destruct resp as [o [|n]]; simpl in *; [reflexivity|].
  now rewrite Hp.
Qed.

(** The payload line starts with [+]: a second wait is made, from the
    reader and the world the first one left, and so with a deadline that
    is [t] after the clock of that world. *)
Lemma ExecuteCommand_continue fuel cmd t wd wd1 resp rd1 wd2 :
  WriteCommand wd cmd = (None, wd1) ->
  waitForResponse fuel NewReader t wd1 = Some (Got resp rd1 wd2) ->
  Spec.starts_with_plus (view (buf rd1) resp) = true ->
  ExecuteCommand fuel cmd t wd
  = match waitForResponse fuel rd1 t wd2 with
    | None => None
    | Some (Got okResponse rd2 wd3) =>
        Some (Return (mkOutcome resp (isOk (buf rd2) okResponse) None
                                (Some (buf rd2, wd3))))
    | Some failed =>
        Some (Return (mkOutcome resp false
                (option_map (ErrWrap "error getting ok response from port")
                            (w_err failed))
                (after_wait failed)))
    end.
Proof.
  intros Hw H1 Hp. unfold ExecuteCommand. rewrite Hw, H1.
  rewrite <- plus_guard in Hp. unfold index in *.
  destruct resp as [o [|n]]; simpl in *; [discriminate|].
  now rewrite Hp.
Qed.

(** [ExecuteCommand] never indexes the payload out of its range. *)
Lemma ExecuteCommand_no_panic fuel cmd t wd :
  ExecuteCommand fuel cmd t wd <> Some Panic.
Proof.
  unfold ExecuteCommand.
  destruct (WriteCommand wd cmd) as [[e|] wd1]; [discriminate|].
  destruct (waitForResponse fuel NewReader t wd1) as [[resp rd1 wd2|rd1 wd2|]|];
    try discriminate.
  destruct (1 <=? len resp)%nat eqn:Hl; [|discriminate].
  unfold index. apply Nat.leb_le in Hl.
  destruct (0 <? len resp)%nat eqn:Hl'; [|apply Nat.ltb_ge in Hl'; lia].
  destruct (Byte.eqb _ _); [|discriminate].
  destruct (waitForResponse fuel rd1 t wd2) as [[? ? ?|? ?|]|]; discriminate.
Qed.

(** C10.  When the write succeeds and the first wait hands over a payload
    line of length zero, [response[0]] would be out of range, and
    [ExecuteCommand] does not evaluate it: it returns that line,
    [ok = false] and a nil error straight from the reader and the world
    the first wait left, without a second wait and without a panic. *)
Theorem C10_empty_payload fuel cmd t wd wd1 resp rd1 wd2 :
  WriteCommand wd cmd = (None, wd1) ->
  waitForResponse fuel NewReader t wd1 = Some (Got resp rd1 wd2) ->
  len resp = 0%nat ->
  index (buf rd1) resp 0 = None
  /\ ExecuteCommand fuel cmd t wd
     = Some (Return (mkOutcome resp false None (Some (buf rd1, wd2)))).
Proof.
  intros Hw H1 Hl. split.
  - unfold index. now rewrite Hl.
  - unfold ExecuteCommand. rewrite Hw, H1, Hl. simpl.
    unfold isOk, view, sub. rewrite Hl.
    replace (off resp + 0 - off resp)%nat with 0%nat by lia. reflexivity.
Qed.

(** C10 at work: the port sends two empty lines. *)
Lemma C10_witness :
  exists wd1 resp rd1 wd2,
    WriteCommand Script.w_empty_line CmdStart = (None, wd1)
    /\ waitForResponse 100 NewReader Second wd1 = Some (Got resp rd1 wd2)
    /\ len resp = 0%nat
    /\ index (buf rd1) resp 0 = None
    /\ ExecuteCommand 100 CmdStart Second Script.w_empty_line
       = Some (Return (mkOutcome resp false None (Some (buf rd1, wd2)))).
Proof.
  eexists. eexists. eexists. eexists.
  split; [reflexivity|].
  match goal with |- ?A /\ _ => assert (H1 : A) by (vm_compute; reflexivity) end.
  split; [exact H1|].
  split; [reflexivity|].
  exact (C10_empty_payload 100 CmdStart Second Script.w_empty_line _ _ _ _
           eq_refl H1 eq_refl).
Defined.

(** ** Classification *)

Lemma Equal_spec (a : bytes) : forall b, bytes_.Equal a b = true <-> a = b.
Proof.
  induction a as [|x a IH]; intros [|y b]; simpl; split; intros H;
    try reflexivity; try discriminate.
  - apply andb_prop in H. destruct H as [H1 H2].
    apply Byte.byte_dec_bl in H1. apply IH in H2. now subst.
  - inversion H; subst. apply andb_true_intro. split.
    + now apply Byte.byte_dec_lb.
    + now apply IH.
Qed.

Lemma asciiScan_ascii (l : bytes) :
  Forall is_ascii l -> bytes_.asciiScan l = inl (Spec.dropWhile Spec.whitespace l).
Proof.
  induction 1 as [|c l Hc Hl IH]; simpl; [reflexivity|].
  rewrite Hc. change (bytes_.asciiSpace c) with (Spec.whitespace c).
  destruct (Spec.whitespace c); [exact IH|reflexivity].
Qed.

Lemma dropWhile_Forall (P : byte -> Prop) f (l : bytes) :
  Forall P l -> Forall P (Spec.dropWhile f l).
Proof.
  induction 1 as [|c l Hc Hl IH]; simpl; [constructor|].
  destruct (f c); [exact IH|now constructor].
Qed.

(** On a line of ASCII bytes [bytes.TrimSpace] is the trim of the
    specification. *)
Lemma TrimSpace_ascii (l : bytes) :
  Forall is_ascii l -> bytes_.TrimSpace l = Spec.trim l.
Proof.
  intros H. unfold bytes_.TrimSpace, Spec.trim.
  rewrite (asciiScan_ascii l H).
  rewrite asciiScan_ascii; [reflexivity|].
  apply Forall_rev. now apply dropWhile_Forall.
Qed.

(** Beyond ASCII, [bytes.TrimSpace] also trims the white space of Unicode
    in its UTF-8 encoding: a no-break space before and an em space after. *)
Example TrimSpace_unicode :
  bytes_.TrimSpace ([xc2; xa0] ++ lit "OK" ++ [xe2; x80; x83]) = lit "OK".
Proof. reflexivity. Qed.

(** *** [bytes.TrimSpace] and the white space of Unicode *)

Module WhiteFacts.
Import utf8 unicode.
Local Open Scope nat_scope.

Lemma all_bytes_complete (b : byte) : In b all_bytes.
Proof.
  change all_bytes with (map (fun n => White.byte_of (N.of_nat n)) (seq 0 256)).
  apply in_map_iff. exists (Byte.to_nat b). split.
  - unfold White.byte_of. rewrite <- Byte.to_N_via_nat, Byte.of_to_N. reflexivity.
  - apply in_seq. pose proof (Byte.to_nat_bounded b). lia.
Qed.

Lemma bytes_eqb_eq (a : bytes) : forall b, White.bytes_eqb a b = true -> a = b.
Proof.
  induction a as [|x a IH]; intros [|y b] H; simpl in H; try discriminate;
    [reflexivity|].
  apply andb_prop in H. destruct H as [H1 H2].
  apply Byte.byte_dec_bl in H1. apply IH in H2. now subst.
Qed.

Lemma bytes_eqb_refl (a : bytes) : White.bytes_eqb a a = true.
Proof.
  induction a as [|x a IH]; simpl; [reflexivity|].
  rewrite IH. now rewrite (Byte.byte_dec_lb eq_refl).
Qed.

Lemma is_char_In ws w : White.is_char ws w = true <-> In w ws.
Proof.
  unfold White.is_char. rewrite existsb_exists. split.
  - intros (x & Hx & He). apply bytes_eqb_eq in He. now subst.
  - intros H. exists w. split; [exact H|apply bytes_eqb_refl].
Qed.

(** A byte below [RuneSelf] is its own rune. *)
Lemma DecodeRune_ascii (a : byte) (rest : bytes) :
  bytes_.isSelf a = false -> DecodeRune (a :: rest) = (Byte.to_N a, 1%nat).
Proof.
  intros H. unfold bytes_.isSelf, RuneSelf in H. apply N.leb_gt in H.
  unfold DecodeRune. cbn [List.length Nat.ltb Nat.leb at_ nth_error].
  unfold first. replace (Byte.to_N a <? 128)%N with true
    by (symmetry; apply N.ltb_lt; exact H).
  reflexivity.
Qed.

(** Bytes beyond the encoding that [a] begins do not matter. *)
Lemma DecodeRune_ext (a : byte) (q u : bytes) :
  (N.to_nat (sz a) <= S (List.length q))%nat ->
  DecodeRune ((a :: q) ++ u) = DecodeRune (a :: q).
Proof.
  intros H.
  destruct (bytes_.isSelf a) eqn:Ha.
  - destruct q as [|b [|c [|d q]]]; destruct a; try discriminate Ha;
      try (exfalso; vm_compute in H; lia); reflexivity.
  - cbn [app]. now rewrite !DecodeRune_ascii.
Qed.

Lemma DecodeRune_nil : DecodeRune [] = (RuneError, 0%nat).
Proof. reflexivity. Qed.

(** A byte of [RuneSelf] or more that nothing continues is a rune of
    width one. *)
Lemma DecodeRune_alone (a : byte) (u : bytes) :
  bytes_.isSelf a = true -> ok_tail u -> snd (DecodeRune (a :: u)) = 1%nat.
Proof.
  intros Ha Hu. destruct u as [|y u].
  - destruct a; try discriminate Ha; reflexivity.
  - cbn [ok_tail] in Hu.
    assert (Hy : forall lo hi, (0x80 <= lo)%N -> (hi <= 0xBF)%N ->
                 (Byte.to_N y <? lo)%N || (hi <? Byte.to_N y)%N = true).
    { intros lo hi Hl Hh. apply orb_true_iff in Hu. apply orb_true_iff.
      destruct Hu as [Hu|Hu]; apply N.ltb_lt in Hu; [left|right];
        apply N.ltb_lt; lia. }
    clear Hu.
    destruct a; try discriminate Ha; try reflexivity;
      lead_byte; rewrite Hy by (vm_compute; discriminate);
      repeat match goal with |- context [if ?c then _ else _] => destruct c end;
      reflexivity.
Qed.

Lemma N_le_lor (x y : N) : (x <= N.lor x y)%N.
Proof.
  assert (H0 : N.land x (N.ldiff y x) = 0%N).
  { apply N.bits_inj. intros n.
    rewrite N.land_spec, N.ldiff_spec, N.bits_0.
    destruct (N.testbit x n), (N.testbit y n); reflexivity. }
  assert (H1 : N.lor x y = N.lor x (N.ldiff y x)).
  { apply N.bits_inj. intros n.
    rewrite !N.lor_spec, N.ldiff_spec.
    destruct (N.testbit x n), (N.testbit y n); reflexivity. }
  rewrite H1, <- (N.lxor_lor _ _ H0), <- (N.add_nocarry_lxor _ _ H0). lia.
Qed.

Lemma IsSpace_bound (r : N) : IsSpace r = true -> (r <= 0x3000)%N.
Proof.
  unfold IsSpace. destruct (N.leb_spec r 0xFF) as [H|H]; [lia|].
  intros H1.
  repeat match type of H1 with
         | _ || _ = true => apply orb_true_iff in H1; destruct H1 as [H1|H1]
         end;
    try (apply N.eqb_eq in H1; lia).
  apply andb_prop in H1. destruct H1 as [_ H1]. apply N.leb_le in H1. lia.
Qed.

Lemma sz_le_4 (a : byte) : (sz a <= 4)%N.
Proof. destruct a; vm_compute; discriminate. Qed.

Lemma check1_spec (a : byte) : space_is_char [a] = true.
Proof.
  assert (H : forallb (fun a => space_is_char [a]) all_bytes = true)
    by (vm_compute; reflexivity).
  rewrite forallb_forall in H. exact (H a (all_bytes_complete a)).
Qed.

Lemma check2_spec (a b : byte) : space_is_char [a; b] = true.
Proof.
  assert (H : forallb (fun a => forallb (fun b => space_is_char [a; b]) all_bytes)
                      all_bytes = true)
    by (vm_compute; reflexivity).
  rewrite forallb_forall in H. specialize (H a (all_bytes_complete a)).
  cbv beta in H. rewrite forallb_forall in H.
  exact (H b (all_bytes_complete b)).
Qed.

Lemma check3_spec (a b c : byte) : sz a = 3%N -> space_is_char [a; b; c] = true.
Proof.
  intros Hs.
  assert (H : forallb
                (fun a =>
                   if (sz a =? 3)%N
                   then forallb (fun b => forallb (fun c => space_is_char [a; b; c])
                                                  all_bytes) all_bytes
                   else true)
                all_bytes = true)
    by (vm_compute; reflexivity).
  rewrite forallb_forall in H. specialize (H a (all_bytes_complete a)).
  cbv beta in H. rewrite Hs in H. change (3 =? 3)%N with true in H. cbv iota in H.
  rewrite forallb_forall in H. specialize (H b (all_bytes_complete b)).
  cbv beta in H. rewrite forallb_forall in H.
  exact (H c (all_bytes_complete c)).
Qed.

Lemma four_bytes (a b : byte) :
  sz a = 4%N ->
  (Byte.to_N b <? fst (acceptRanges (N.shiftr (first (Byte.to_N a)) 4)))%N
  || (snd (acceptRanges (N.shiftr (first (Byte.to_N a)) 4)) <? Byte.to_N b)%N = false ->
  (0x10000 <= N.lor (N.shiftl (N.land (Byte.to_N a) mask4) 18)
                    (N.shiftl (N.land (Byte.to_N b) maskx) 12))%N.
Proof.
  intros Hs Hb.
  assert (H : forallb
                (fun a =>
                   if (sz a =? 4)%N then forallb
                        (fun b =>
                           (Byte.to_N b
                            <? fst (acceptRanges (N.shiftr (first (Byte.to_N a)) 4)))%N
                           || (snd (acceptRanges (N.shiftr (first (Byte.to_N a)) 4))
                               <? Byte.to_N b)%N
                           || (0x10000
                               <=? N.lor (N.shiftl (N.land (Byte.to_N a) mask4) 18)
                                         (N.shiftl (N.land (Byte.to_N b) maskx) 12))%N)
                        all_bytes
                   else true)
                all_bytes = true)
    by (vm_compute; reflexivity).
  rewrite forallb_forall in H. specialize (H a (all_bytes_complete a)).
  cbv beta in H. rewrite Hs in H. change (4 =? 4)%N with true in H. cbv iota in H.
  rewrite forallb_forall in H. specialize (H b (all_bytes_complete b)).
  cbv beta in H. rewrite Hb in H. now apply N.leb_le.
Qed.

(** An encoding of four bytes holds no white space. *)
Lemma DecodeRune_four (a : byte) (rest : bytes) :
  sz a = 4%N -> IsSpace (fst (DecodeRune (a :: rest))) = false.
Proof.
  intros Hs.
  destruct rest as [|b rest].
  { destruct a; try (exfalso; vm_compute in Hs; congruence); reflexivity. }
  pose proof (four_bytes a b Hs) as Hb.
  destruct a; try (exfalso; vm_compute in Hs; congruence); clear Hs;
    lead_byte;
    repeat match goal with
           | |- context [if ?c then _ else _] => destruct c eqn:?; try reflexivity
           end;
    (destruct (IsSpace _) eqn:E; [|reflexivity]);
    apply IsSpace_bound in E; cbn [fst] in E;
    match type of E with
    | (N.lor (N.lor (N.lor ?A ?B) ?C) ?D <= _)%N =>
        pose proof (N_le_lor (N.lor (N.lor A B) C) D);
        pose proof (N_le_lor (N.lor A B) C);
        assert (0x10000 <= N.lor A B)%N by (apply Hb; assumption)
    end; lia.
Qed.

Lemma space_is_char_spec (p : bytes) :
  space_is_char p = true ->
  IsSpace (fst (DecodeRune p)) = true ->
  White.is_char White.chars (firstn (snd (DecodeRune p)) p) = true
  /\ (snd (DecodeRune p) <= List.length p)%nat.
Proof.
  unfold space_is_char. destruct (DecodeRune p) as [r wid]. cbn [fst snd].
  intros H Hs. rewrite Hs in H. apply andb_prop in H. destruct H as [H1 H2].
  split; [exact H1|now apply Nat.leb_le].
Qed.

(** Where [DecodeRune] finds white space, a white space character
    stands, of the width of the rune. *)
Lemma space_char (p : bytes) :
  IsSpace (fst (DecodeRune p)) = true ->
  White.is_char White.chars (firstn (snd (DecodeRune p)) p) = true
  /\ (snd (DecodeRune p) <= List.length p)%nat.
Proof.
  destruct p as [|a [|b [|c rest]]].
  - discriminate.
  - apply space_is_char_spec, check1_spec.
  - apply space_is_char_spec, check2_spec.
  - intros Hs.
    destruct (N.eq_dec (sz a) 4) as [H4|H4].
    { now rewrite DecodeRune_four in Hs. }
    destruct (N.eq_dec (sz a) 3) as [H3|H3].
    + assert (He : DecodeRune (a :: b :: c :: rest) = DecodeRune [a; b; c]).
      { apply (DecodeRune_ext a [b; c] rest). rewrite H3. cbn. lia. }
      rewrite He in *.
      pose proof (check3_spec a b c H3) as Hk.
      destruct (space_is_char_spec _ Hk Hs) as [H1 H2]. cbn [List.length] in *.
      split; [|lia].
      change (a :: b :: c :: rest) with ([a; b; c] ++ rest).
      rewrite firstn_app.
      replace (snd (DecodeRune [a; b; c]) - List.length [a; b; c])%nat with 0%nat
        by (cbn [List.length]; lia).
      cbn [firstn]. now rewrite app_nil_r.
    + assert (He : DecodeRune (a :: b :: c :: rest) = DecodeRune [a; b]).
      { apply (DecodeRune_ext a [b] (c :: rest)).
        pose proof (sz_le_4 a). cbn [List.length]. lia. }
      rewrite He in *.
      pose proof (check2_spec a b) as Hk.
      destruct (space_is_char_spec _ Hk Hs) as [H1 H2]. cbn [List.length] in *.
      split; [|lia].
      change (a :: b :: c :: rest) with ([a; b] ++ c :: rest).
      rewrite firstn_app.
      replace (snd (DecodeRune [a; b]) - List.length [a; b])%nat with 0%nat
        by (cbn [List.length]; lia).
      cbn [firstn]. now rewrite app_nil_r.
Qed.

(** Where a white space character stands, [DecodeRune] finds white
    space, of the width of the character. *)
Lemma char_space (w rest : bytes) :
  In w White.chars ->
  IsSpace (fst (DecodeRune (w ++ rest))) = true
  /\ snd (DecodeRune (w ++ rest)) = List.length w.
Proof.
  intros H. unfold White.chars in H.
  each_member H; subst w; split; vm_compute; reflexivity.
Qed.

(** What the white space characters look like. *)
Lemma chars_shape (w : bytes) :
  In w White.chars ->
  (exists a, w = [a] /\ bytes_.asciiSpace a = true /\ bytes_.isSelf a = false)
  \/ (exists a b, w = [a; b] /\ bytes_.isSelf a = true /\ bytes_.isSelf b = true
                  /\ RuneStart (Byte.to_N a) = true
                  /\ RuneStart (Byte.to_N b) = false
                  /\ ok_tail w)
  \/ (exists a b c, w = [a; b; c] /\ bytes_.isSelf a = true
                    /\ bytes_.isSelf b = true /\ bytes_.isSelf c = true
                    /\ RuneStart (Byte.to_N a) = true
                    /\ RuneStart (Byte.to_N b) = false
                    /\ RuneStart (Byte.to_N c) = false
                    /\ ok_tail w
                    /\ White.is_char White.chars [a; b] = false
                    /\ White.is_char White.chars [b; c] = false).
Proof.
  intros H. unfold White.chars in H.
  each_member H; subst w;
    first [ left; eexists; repeat split; reflexivity
          | right; left; eexists; eexists; repeat split; reflexivity
          | right; right; eexists; eexists; eexists; repeat split; reflexivity ].
Qed.

Lemma at_app_r (pre l : bytes) (i : nat) :
  at_ (pre ++ l) (List.length pre + i) = at_ l i.
Proof.
  unfold at_. rewrite nth_error_app2 by lia.
  replace (List.length pre + i - List.length pre)%nat with i by lia. reflexivity.
Qed.

Lemma scanStart_range (fuel : nat) (p : bytes) (lim : Z) : forall s : Z,
  (lim - 1 <= s)%Z ->
  (lim - 1 <= scanStart fuel p s lim <= s)%Z.
Proof.
  induction fuel as [|fuel IH]; intros s Hs; cbn [scanStart]; [lia|].
  destruct (Z.ltb_spec s lim); [lia|].
  destruct (RuneStart _); [lia|].
  specialize (IH (s - 1)%Z). lia.
Qed.

Lemma scanStart_hit (fuel : nat) (p : bytes) (s lim : Z) :
  (lim <= s)%Z -> RuneStart (at_ p (Z.to_nat s)) = true ->
  scanStart (S fuel) p s lim = s.
Proof.
  intros Hs Hr. cbn [scanStart].
  replace (s <? lim)%Z with false by (symmetry; apply Z.ltb_ge; lia).
  now rewrite Hr.
Qed.

Lemma scanStart_miss (fuel : nat) (p : bytes) (s lim : Z) :
  (lim <= s)%Z -> RuneStart (at_ p (Z.to_nat s)) = false ->
  scanStart (S fuel) p s lim = scanStart fuel p (s - 1)%Z lim.
Proof.
  intros Hs Hr. cbn [scanStart].
  replace (s <? lim)%Z with false by (symmetry; apply Z.ltb_ge; lia).
  now rewrite Hr.
Qed.

(** [DecodeLastRune] at a last byte below [RuneSelf]. *)
Lemma DecodeLastRune_ascii (pre : bytes) (c : byte) :
  bytes_.isSelf c = false -> DecodeLastRune (pre ++ [c]) = (Byte.to_N c, 1%nat).
Proof.
  intros Hc. unfold DecodeLastRune.
  rewrite length_app. cbn [List.length].
  replace (Z.of_nat (List.length pre + 1) =? 0)%Z with false
    by (symmetry; apply Z.eqb_neq; lia).
  replace (Z.to_nat (Z.of_nat (List.length pre + 1) - 1))
    with (List.length pre + 0)%nat by lia.
  rewrite at_app_r. cbn [at_ nth_error].
  unfold bytes_.isSelf in Hc. apply N.leb_gt in Hc.
  replace (Byte.to_N c <? RuneSelf)%N with true
    by (symmetry; apply N.ltb_lt; exact Hc).
  reflexivity.
Qed.

(** [DecodeLastRune] at a last byte of [RuneSelf] or more: a forward
    decoding from some index, kept when it ends at the end. *)
Lemma DecodeLastRune_self (pre : bytes) (c : byte) :
  bytes_.isSelf c = true ->
  exists n : nat,
    (n <= List.length pre)%nat
    /\ DecodeLastRune (pre ++ [c])
       = (let '(r, size) := DecodeRune (skipn n (pre ++ [c])) in
          if (n + size =? List.length pre + 1)%nat then (r, size)
          else (RuneError, 1%nat)).
Proof.
  intros Hc. unfold DecodeLastRune.
  rewrite length_app. cbn [List.length].
  set (e := Z.of_nat (List.length pre + 1)).
  replace (e =? 0)%Z with false by (symmetry; apply Z.eqb_neq; lia).
  replace (Z.to_nat (e - 1)) with (List.length pre + 0)%nat by lia.
  rewrite at_app_r. cbn [at_ nth_error].
  unfold bytes_.isSelf in Hc. apply N.leb_le in Hc.
  replace (Byte.to_N c <? RuneSelf)%N with false
    by (symmetry; apply N.ltb_ge; exact Hc).
  set (lim := (if (e - UTFMax <? 0)%Z then 0 else e - UTFMax)%Z).
  assert (Hlim : (0 <= lim /\ lim - 1 <= e - 1 - 1)%Z).
  { subst lim. unfold UTFMax. destruct (Z.ltb_spec (e - 4) 0); lia. }
  pose proof (scanStart_range 5 (pre ++ [c]) lim (e - 1 - 1)%Z (proj2 Hlim)) as Hr.
  set (s := scanStart 5 (pre ++ [c]) (e - 1 - 1)%Z lim) in *.
  set (s' := (if (s <? 0)%Z then 0 else s)%Z).
  assert (Hs' : (0 <= s' /\ s' <= Z.of_nat (List.length pre))%Z).
  { subst s'. destruct (Z.ltb_spec s 0); lia. }
  exists (Z.to_nat s'). split; [lia|].
  destruct (DecodeRune (skipn (Z.to_nat s') (pre ++ [c]))) as [r size].
  replace (s' + Z.of_nat size =? e)%Z
    with (Z.to_nat s' + size =? List.length pre + 1)%nat; [|].
  - destruct (_ =? _)%nat; reflexivity.
  - destruct (Nat.eqb_spec (Z.to_nat s' + size) (List.length pre + 1));
      symmetry; [apply Z.eqb_eq|apply Z.eqb_neq]; lia.
Qed.

Lemma skipn_app_length (pre l : bytes) : skipn (List.length pre) (pre ++ l) = l.
Proof.
  rewrite skipn_app, skipn_all, Nat.sub_diag. reflexivity.
Qed.

(** [DecodeLastRune] behind an encoding of two bytes. *)
Lemma DecodeLastRune_two (pre : bytes) (a b : byte) :
  bytes_.isSelf b = true -> RuneStart (Byte.to_N a) = true ->
  DecodeLastRune (pre ++ [a; b])
  = (let '(r, size) := DecodeRune [a; b] in
     if (size =? 2)%nat then (r, size) else (RuneError, 1%nat)).
Proof.
  intros Hb Ha. unfold DecodeLastRune.
  rewrite length_app. cbn [List.length].
  set (e := Z.of_nat (List.length pre + 2)).
  replace (e =? 0)%Z with false by (symmetry; apply Z.eqb_neq; lia).
  replace (Z.to_nat (e - 1)) with (List.length pre + 1)%nat by lia.
  rewrite at_app_r. cbn [at_ nth_error].
  unfold bytes_.isSelf in Hb. apply N.leb_le in Hb.
  replace (Byte.to_N b <? RuneSelf)%N with false
    by (symmetry; apply N.ltb_ge; exact Hb).
  set (lim := (if (e - UTFMax <? 0)%Z then 0 else e - UTFMax)%Z).
  assert (Hlim : (0 <= lim /\ lim <= e - 1 - 1)%Z).
  { subst lim. unfold UTFMax. destruct (Z.ltb_spec (e - 4) 0); lia. }
  rewrite scanStart_hit; [|lia|].
  2:{ replace (Z.to_nat (e - 1 - 1)) with (List.length pre + 0)%nat by lia.
      rewrite at_app_r. exact Ha. }
  replace (e - 1 - 1 <? 0)%Z with false by (symmetry; apply Z.ltb_ge; lia).
  replace (Z.to_nat (e - 1 - 1)) with (List.length pre) by lia.
  rewrite skipn_app_length.
  destruct (DecodeRune [a; b]) as [r size].
  replace (e - 1 - 1 + Z.of_nat size =? e)%Z with (size =? 2)%nat.
  - destruct (size =? 2)%nat; reflexivity.
  - destruct (Nat.eqb_spec size 2); symmetry;
      [apply Z.eqb_eq|apply Z.eqb_neq]; lia.
Qed.

(** [DecodeLastRune] behind an encoding of three bytes. *)
Lemma DecodeLastRune_three (pre : bytes) (a b c : byte) :
  bytes_.isSelf c = true -> RuneStart (Byte.to_N b) = false ->
  RuneStart (Byte.to_N a) = true ->
  DecodeLastRune (pre ++ [a; b; c])
  = (let '(r, size) := DecodeRune [a; b; c] in
     if (size =? 3)%nat then (r, size) else (RuneError, 1%nat)).
Proof.
  intros Hc Hb Ha. unfold DecodeLastRune.
  rewrite length_app. cbn [List.length].
  set (e := Z.of_nat (List.length pre + 3)).
  replace (e =? 0)%Z with false by (symmetry; apply Z.eqb_neq; lia).
  replace (Z.to_nat (e - 1)) with (List.length pre + 2)%nat by lia.
  rewrite at_app_r. cbn [at_ nth_error].
  unfold bytes_.isSelf in Hc. apply N.leb_le in Hc.
  replace (Byte.to_N c <? RuneSelf)%N with false
    by (symmetry; apply N.ltb_ge; exact Hc).
  set (lim := (if (e - UTFMax <? 0)%Z then 0 else e - UTFMax)%Z).
  assert (Hlim : (0 <= lim /\ lim <= e - 1 - 1 - 1)%Z).
  { subst lim. unfold UTFMax. destruct (Z.ltb_spec (e - 4) 0); lia. }
  rewrite scanStart_miss; [|lia|].
  2:{ replace (Z.to_nat (e - 1 - 1)) with (List.length pre + 1)%nat by lia.
      rewrite at_app_r. exact Hb. }
  rewrite scanStart_hit; [|lia|].
  2:{ replace (Z.to_nat (e - 1 - 1 - 1)) with (List.length pre + 0)%nat by lia.
      rewrite at_app_r. exact Ha. }
  replace (e - 1 - 1 - 1 <? 0)%Z with false by (symmetry; apply Z.ltb_ge; lia).
  replace (Z.to_nat (e - 1 - 1 - 1)) with (List.length pre) by lia.
  rewrite skipn_app_length.
  destruct (DecodeRune [a; b; c]) as [r size].
  replace (e - 1 - 1 - 1 + Z.of_nat size =? e)%Z with (size =? 3)%nat.
  - destruct (size =? 3)%nat; reflexivity.
  - destruct (Nat.eqb_spec size 3); symmetry;
      [apply Z.eqb_eq|apply Z.eqb_neq]; lia.
Qed.

Lemma chars_nonempty (w : bytes) : In w White.chars -> (1 <= List.length w)%nat.
Proof.
  intros H. destruct (chars_shape w H) as [(a & -> & _)|[(a & b & -> & _)|(a & b & c & -> & _)]];
    cbn; lia.
Qed.

(** Where [DecodeLastRune] finds white space, a white space character
    ends the bytes, of the width of the rune. *)
Lemma last_space_char (pre : bytes) (c : byte) :
  IsSpace (fst (DecodeLastRune (pre ++ [c]))) = true ->
  exists pre' w,
    pre ++ [c] = pre' ++ w /\ In w White.chars
    /\ snd (DecodeLastRune (pre ++ [c])) = List.length w.
Proof.
  destruct (bytes_.isSelf c) eqn:Hc.
  - destruct (DecodeLastRune_self pre c Hc) as (n & Hn & ->).
    destruct (DecodeRune (skipn n (pre ++ [c]))) as [r size] eqn:D.
    destruct (Nat.eqb_spec (n + size) (List.length pre + 1)) as [He|He];
      [|discriminate].
    cbn [fst snd]. intros Hs.
    pose proof (space_char (skipn n (pre ++ [c]))) as Hk.
    rewrite D in Hk. cbn [fst snd] in Hk. destruct (Hk Hs) as [H1 H2].
    assert (Hl : List.length (skipn n (pre ++ [c])) = size).
    { rewrite length_skipn, length_app. cbn [List.length]. lia. }
    rewrite firstn_all2 in H1 by lia.
    exists (firstn n (pre ++ [c])), (skipn n (pre ++ [c])).
    split; [now rewrite firstn_skipn|]. split; [now apply is_char_In|].
    now rewrite Hl.
  - rewrite (DecodeLastRune_ascii pre c Hc). cbn [fst snd]. intros Hs.
    pose proof (space_char [c]) as Hk. rewrite (DecodeRune_ascii c [] Hc) in Hk.
    cbn [fst snd firstn] in Hk. destruct (Hk Hs) as [H1 _].
    exists pre, [c]. split; [reflexivity|]. split; [now apply is_char_In|reflexivity].
Qed.

(** Where a white space character ends the bytes, [DecodeLastRune] finds
    white space, of the width of the character. *)
Lemma last_char_space (pre w : bytes) :
  In w White.chars ->
  IsSpace (fst (DecodeLastRune (pre ++ w))) = true
  /\ snd (DecodeLastRune (pre ++ w)) = List.length w.
Proof.
  intros H. pose proof (char_space w [] H) as Hd. rewrite app_nil_r in Hd.
  destruct (chars_shape w H)
    as [(a & -> & _ & Ha)
       |[(a & b & -> & _ & Hb & Ra & _)
        |(a & b & c & -> & _ & _ & Hc & Ra & Rb & _)]].
  - rewrite (DecodeLastRune_ascii pre a Ha).
    rewrite (DecodeRune_ascii a [] Ha) in Hd. exact Hd.
  - rewrite (DecodeLastRune_two pre a b Hb Ra).
    destruct (DecodeRune [a; b]) as [r size]. cbn [fst snd List.length] in *.
    destruct Hd as [H1 H2]. subst size. cbn. auto.
  - rewrite (DecodeLastRune_three pre a b c Hc Rb Ra).
    destruct (DecodeRune [a; b; c]) as [r size]. cbn [fst snd List.length] in *.
    destruct Hd as [H1 H2]. subst size. cbn. auto.
Qed.

(** The width of a rune that a byte of [RuneSelf] or more begins. *)
Lemma DecodeRune_width (a : byte) (q : bytes) :
  bytes_.isSelf a = true ->
  snd (DecodeRune (a :: q)) = 1%nat
  \/ snd (DecodeRune (a :: q)) = N.to_nat (sz a).
Proof.
  intros Ha.
  destruct a; try discriminate Ha; lead_byte;
    repeat match goal with
           | |- context [if ?c then _ else _] => destruct c
           end; cbn [snd]; auto.
Qed.

Lemma nth_app_length (pre : bytes) (c : byte) (l : bytes) :
  nth (List.length pre) (pre ++ c :: l) x00 = c.
Proof. rewrite app_nth2 by lia. now rewrite Nat.sub_diag. Qed.

(** Where [DecodeLastRune] finds no white space, the forward decoding
    that [TrimRightFunc] makes at the start of that rune ends where the
    rune ended, whatever follows, as long as it continues no encoding. *)
Lemma last_rune_again (pre : bytes) (c : byte) (u : bytes) :
  IsSpace (fst (DecodeLastRune (pre ++ [c]))) = false ->
  ok_tail u ->
  let p := pre ++ [c] in
  let size := snd (DecodeLastRune p) in
  let j := (List.length p - size)%nat in
  (1 <= size <= List.length p)%nat
  /\ (if bytes_.isSelf (nth j p x00)
      then (j + snd (DecodeRune (skipn j p ++ u)))%nat
      else (j + 1)%nat) = List.length p.
Proof.
  intros Hs Hu p size j. subst p size j.
  rewrite length_app. cbn [List.length].
  destruct (bytes_.isSelf c) eqn:Hc.
  2:{ rewrite (DecodeLastRune_ascii pre c Hc). cbn [snd].
      replace (List.length pre + 1 - 1)%nat with (List.length pre) by lia.
      rewrite nth_app_length, Hc. lia. }
  assert (Halone : (if bytes_.isSelf (nth (List.length pre) (pre ++ [c]) x00)
                    then (List.length pre
                          + snd (DecodeRune (skipn (List.length pre) (pre ++ [c]) ++ u)))%nat
                    else (List.length pre + 1)%nat) = (List.length pre + 1)%nat).
  { rewrite nth_app_length, Hc, skipn_app_length. cbn [app].
    now rewrite (DecodeRune_alone c u Hc Hu). }
  destruct (DecodeLastRune_self pre c Hc) as (n & Hn & Heq).
  rewrite Heq in *. clear Heq.
  destruct (DecodeRune (skipn n (pre ++ [c]))) as [r size] eqn:D.
  destruct (Nat.eqb_spec (n + size) (List.length pre + 1)) as [He|He]; cbn [fst snd] in *.
  2:{ replace (List.length pre + 1 - 1)%nat with (List.length pre) by lia.
      split; [lia|exact Halone]. }
  assert (Hl : List.length (skipn n (pre ++ [c])) = size).
  { rewrite length_skipn, length_app. cbn [List.length]. lia. }
  destruct (skipn n (pre ++ [c])) as [|a q] eqn:Hq.
  { cbn [List.length] in Hl. subst size. lia. }
  cbn [List.length] in Hl.
  replace (List.length pre + 1 - size)%nat with n by lia.
  split; [lia|].
  assert (Ha : nth n (pre ++ [c]) x00 = a).
  { rewrite nth_skipn_hd, Hq. reflexivity. }
  rewrite Ha, Hq.
  destruct (bytes_.isSelf a) eqn:Hsa.
  - destruct (DecodeRune_width a q Hsa) as [Hw|Hw]; rewrite D in Hw; cbn [snd] in Hw.
    + (* the rune is the last byte alone *)
      assert (n = List.length pre) by lia. subst n.
      rewrite Ha, Hsa, Hq in Halone. exact Halone.
    + rewrite (DecodeRune_ext a q u) by lia. rewrite D. cbn [snd]. lia.
  - rewrite (DecodeRune_ascii a q Hsa) in D. inversion D; subst size.
    assert (n = List.length pre) by lia. subst n.
    rewrite skipn_app_length in Hq. inversion Hq; subst. congruence.
Qed.

Lemma strip_stop (ws : list bytes) (l : bytes) :
  ~ starts ws l -> White.strip ws l = l.
Proof.
  intros H. destruct l as [|a l]; [reflexivity|]. cbn [White.strip].
  destruct (White.is_char ws [a]) eqn:E1.
  { elim H. exists [a], l. split; [now apply is_char_In|reflexivity]. }
  destruct l as [|b l]; [reflexivity|].
  destruct (White.is_char ws [a; b]) eqn:E2.
  { elim H. exists [a; b], l. split; [now apply is_char_In|reflexivity]. }
  destruct l as [|c l]; [reflexivity|].
  destruct (White.is_char ws [a; b; c]) eqn:E3; [|reflexivity].
  elim H. exists [a; b; c], l. split; [now apply is_char_In|reflexivity].
Qed.

Lemma rchars_In (w : bytes) : In w White.rchars <-> In (rev w) White.chars.
Proof.
  change White.rchars with (map (@rev byte) White.chars).
  rewrite in_map_iff. split.
  - intros (x & <- & Hx). now rewrite rev_involutive.
  - intros H. exists (rev w). split; [apply rev_involutive|exact H].
Qed.

Lemma not_char_one (a : byte) :
  bytes_.isSelf a = true
  -> White.is_char White.chars [a] = false /\ White.is_char White.rchars [a] = false.
Proof.
  intros Ha.
  assert (H : ~ In [a] White.chars).
  { intros H. destruct (chars_shape _ H)
      as [(x & Hx & _ & Hs)|[(x & y & Hx & _)|(x & y & z & Hx & _)]];
      inversion Hx; subst; congruence. }
  split.
  - destruct (White.is_char White.chars [a]) eqn:E; [|reflexivity].
    now apply is_char_In in E.
  - destruct (White.is_char White.rchars [a]) eqn:E; [|reflexivity].
    apply is_char_In, rchars_In in E. cbn [rev app] in E. contradiction.
Qed.

(** A white space character at the start is dropped whole. *)
Lemma strip_char (w l : bytes) :
  In w White.chars -> White.strip White.chars (w ++ l) = White.strip White.chars l.
Proof.
  intros H. pose proof (proj2 (is_char_In _ _) H) as Hw.
  destruct (chars_shape w H)
    as [(a & -> & _)
       |[(a & b & -> & Ha & _)
        |(a & b & c & -> & Ha & _ & _ & _ & _ & _ & _ & Hab & _)]];
    cbn [app White.strip].
  - now rewrite Hw.
  - rewrite (proj1 (not_char_one a Ha)). now rewrite Hw.
  - rewrite (proj1 (not_char_one a Ha)), Hab. now rewrite Hw.
Qed.

(** A white space character at the end, read from the end, likewise. *)
Lemma strip_rchar (w l : bytes) :
  In w White.chars
  -> White.strip White.rchars (rev w ++ l) = White.strip White.rchars l.
Proof.
  intros H.
  assert (Hw : White.is_char White.rchars (rev w) = true).
  { apply is_char_In, rchars_In. now rewrite rev_involutive. }
  destruct (chars_shape w H)
    as [(a & -> & _)
       |[(a & b & -> & _ & Hb & _)
        |(a & b & c & -> & _ & _ & Hc & _ & _ & _ & _ & _ & Hbc)]];
    cbn [rev app White.strip] in *.
  - now rewrite Hw.
  - rewrite (proj2 (not_char_one b Hb)). now rewrite Hw.
  - rewrite (proj2 (not_char_one c Hc)).
    assert (Hcb : White.is_char White.rchars [c; b] = false).
    { destruct (White.is_char White.rchars [c; b]) eqn:E; [|reflexivity].
      apply is_char_In, rchars_In in E. cbn [rev app] in E.
      apply is_char_In in E. congruence. }
    rewrite Hcb. now rewrite Hw.
Qed.

(** A byte below [RuneSelf] that is no white space begins no white space
    character, from either end. *)
Lemma strip_ascii_other (a : byte) (l : bytes) :
  bytes_.isSelf a = false -> bytes_.asciiSpace a = false ->
  White.strip White.chars (a :: l) = a :: l
  /\ White.strip White.rchars (a :: l) = a :: l.
Proof.
  intros Ha Hs.
  assert (H : forall w rest, In w White.chars ->
              (a :: l = w ++ rest \/ a :: l = rev w ++ rest) -> False).
  { intros w rest Hw He.
    destruct (chars_shape w Hw)
      as [(x & -> & Hx & _)
         |[(x & y & -> & Hx & Hy & _)
          |(x & y & z & -> & Hx & _ & Hz & _)]];
      cbn [rev app] in He; destruct He as [He|He]; inversion He; subst;
        congruence. }
  split; apply strip_stop; intros (w & rest & Hw & He).
  - eapply H; eauto.
  - apply rchars_In in Hw. eapply (H (rev w)); [exact Hw|].
    right. rewrite rev_involutive. exact He.
Qed.

Lemma strip_ascii_space (a : byte) (l : bytes) :
  bytes_.asciiSpace a = true ->
  White.strip White.chars (a :: l) = White.strip White.chars l
  /\ White.strip White.rchars (a :: l) = White.strip White.rchars l.
Proof.
  intros Hs. destruct a; try discriminate Hs; split; reflexivity.
Qed.

Lemma nth_error_skipn_cons (s : bytes) : forall i c,
  nth_error s i = Some c -> skipn i s = c :: skipn (S i) s.
Proof.
  induction s as [|x s IH]; intros [|i] c H; cbn in H; try discriminate.
  - now inversion H.
  - cbn [skipn]. rewrite (IH i c H). reflexivity.
Qed.

(** The loop of [indexFunc] with [unicode.IsSpace] and [truth = false]
    stops where the white space characters at the start end. *)
Lemma indexFunc_space (fuel : nat) : forall (s : bytes) (start : nat),
  (List.length s - start < fuel)%nat ->
  match bytes_.indexFunc_from fuel s start IsSpace false with
  | None => White.strip White.chars (skipn start s) = []
  | Some i => skipn i s = White.strip White.chars (skipn start s)
  end.
Proof.
  induction fuel as [|fuel IH]; intros s start Hf; [lia|].
  cbn [bytes_.indexFunc_from].
  destruct (nth_error s start) as [c|] eqn:E.
  2:{ apply nth_error_None in E. now rewrite skipn_all2 by lia. }
  pose proof (nth_error_skipn_cons s start c E) as Hp.
  assert (Hlt : (start < List.length s)%nat) by (apply nth_error_Some; congruence).
  assert (Hd : (if bytes_.isSelf c then DecodeRune (skipn start s)
                else (Byte.to_N c, 1%nat)) = DecodeRune (skipn start s)).
  { destruct (bytes_.isSelf c) eqn:Hc; [reflexivity|].
    rewrite Hp. now rewrite DecodeRune_ascii. }
  rewrite Hd. clear Hd.
  destruct (DecodeRune (skipn start s)) as [r wid] eqn:D.
  destruct (IsSpace r) eqn:Hs; cbn [Bool.eqb].
  - pose proof (space_char (skipn start s)) as Hk. rewrite D in Hk.
    cbn [fst snd] in Hk. destruct (Hk Hs) as [H1 H2].
    apply is_char_In in H1.
    pose proof (chars_nonempty _ H1) as Hn. rewrite length_firstn in Hn.
    specialize (IH s (start + wid)%nat). 
    assert (Hsk : skipn (start + wid) s = skipn wid (skipn start s)).
    { rewrite skipn_skipn. f_equal. lia. }
    rewrite Hsk in IH.
    assert (Hst : White.strip White.chars (skipn start s)
                  = White.strip White.chars (skipn wid (skipn start s))).
    { rewrite <- (firstn_skipn wid (skipn start s)) at 1.
      now apply strip_char. }
    rewrite Hst. apply IH. lia.
  - symmetry. apply strip_stop. intros (w & rest & Hw & He).
    pose proof (char_space w rest Hw) as [Hc _].
    rewrite <- He, D in Hc. cbn [fst] in Hc. congruence.
Qed.

(** [bytes.TrimLeftFunc(s, unicode.IsSpace)] drops the white space
    characters that [s] begins with. *)
Lemma TrimLeftFunc_space (s : bytes) :
  bytes_.TrimLeftFunc s IsSpace = White.strip White.chars s.
Proof.
  unfold bytes_.TrimLeftFunc, bytes_.indexFunc.
  pose proof (indexFunc_space (S (List.length s)) s 0) as H.
  cbn [skipn] in H.
  destruct (bytes_.indexFunc_from _ s 0 IsSpace false) as [i|].
  - apply H. lia.
  - symmetry. apply H. lia.
Qed.

Lemma firstn_snoc (s : bytes) : forall i,
  (i < List.length s)%nat -> firstn (S i) s = firstn i s ++ [nth i s x00].
Proof.
  induction s as [|x s IH]; intros [|i] H; cbn [List.length] in H; try lia.
  - reflexivity.
  - cbn [firstn nth app]. f_equal. apply IH. lia.
Qed.

Lemma skipn_through (s : bytes) (j i : nat) :
  (j <= i <= List.length s)%nat ->
  skipn j s = skipn j (firstn i s) ++ skipn i s.
Proof.
  intros H. rewrite <- (firstn_skipn i s) at 1.
  rewrite skipn_app, length_firstn.
  replace (j - Nat.min i (List.length s))%nat with 0%nat by lia. reflexivity.
Qed.

Lemma nth_firstn_lt (s : bytes) (j i : nat) :
  (j < i)%nat -> nth j (firstn i s) x00 = nth j s x00.
Proof.
  intros H. rewrite <- (firstn_skipn i s) at 2.
  destruct (Nat.lt_ge_cases j (List.length (firstn i s))) as [Hl|Hl].
  - now rewrite app_nth1.
  - rewrite length_firstn in Hl.
    rewrite (nth_overflow (firstn i s)) by (rewrite length_firstn; lia).
    rewrite nth_overflow; [reflexivity|]. rewrite length_app, length_firstn, length_skipn. lia.
Qed.

Lemma ok_tail_char (w u : bytes) : In w White.chars -> ok_tail (w ++ u).
Proof.
  intros H.
  destruct (chars_shape w H)
    as [(a & -> & _ & Ha)
       |[(a & b & -> & _ & _ & _ & _ & Hk)
        |(a & b & c & -> & _ & _ & _ & _ & _ & _ & Hk & _)]];
    cbn [app ok_tail] in *; try exact Hk.
  unfold bytes_.isSelf, RuneSelf in Ha. apply N.leb_gt in Ha.
  apply orb_true_iff. left. now apply N.ltb_lt.
Qed.

(** The bytes read from the end begin with no white space character
    when [DecodeLastRune] finds none. *)
Lemma no_space_no_rchar (pre : bytes) (c : byte) :
  IsSpace (fst (DecodeLastRune (pre ++ [c]))) = false ->
  White.strip White.rchars (rev (pre ++ [c])) = rev (pre ++ [c]).
Proof.
  intros Hs. apply strip_stop. intros (w & rest & Hw & He).
  apply rchars_In in Hw.
  assert (Hp : pre ++ [c] = rev rest ++ rev w).
  { rewrite <- (rev_involutive (pre ++ [c])), He, rev_app_distr. reflexivity. }
  rewrite Hp in Hs.
  destruct (last_char_space (rev rest) (rev w) Hw) as [H1 _]. congruence.
Qed.

(** The loop of [lastIndexFunc] with [unicode.IsSpace] and
    [truth = false], and with it the end that [TrimRightFunc] computes. *)
Lemma lastIndexFunc_space (fuel : nat) : forall (s : bytes) (i : nat),
  (i <= List.length s)%nat -> (i < fuel)%nat -> ok_tail (skipn i s) ->
  match bytes_.lastIndexFunc_from fuel s i IsSpace false with
  | None => White.strip White.rchars (rev (firstn i s)) = []
  | Some j =>
      (if bytes_.isSelf (nth j s x00)
       then firstn (j + snd (DecodeRune (skipn j s))) s
       else firstn (j + 1) s)
      = rev (White.strip White.rchars (rev (firstn i s)))
  end.
Proof.
  induction fuel as [|fuel IH]; intros s i Hi Hf Hu; [lia|].
  cbn [bytes_.lastIndexFunc_from].
  destruct i as [|i]; [reflexivity|].
  cbn [Nat.leb]. replace (S i - 1)%nat with i by lia.
  set (c := nth i s x00).
  assert (Hp : firstn (S i) s = firstn i s ++ [c]) by (apply firstn_snoc; lia).
  assert (Hlen : List.length (firstn i s) = i) by (rewrite length_firstn; lia).
  assert (Hd : (if bytes_.isSelf c then DecodeLastRune (firstn (S i) s)
                else (Byte.to_N c, 1%nat)) = DecodeLastRune (firstn (S i) s)).
  { destruct (bytes_.isSelf c) eqn:Hc; [reflexivity|].
    rewrite Hp. now rewrite DecodeLastRune_ascii. }
  rewrite Hd. clear Hd.
  destruct (DecodeLastRune (firstn (S i) s)) as [r size] eqn:D.
  destruct (IsSpace r) eqn:Hs; cbn [Bool.eqb].
  - pose proof (last_space_char (firstn i s) c) as Hk.
    rewrite <- Hp, D in Hk. cbn [fst snd] in Hk.
    destruct (Hk Hs) as (pre' & w & He & Hw & Hsz).
    pose proof (chars_nonempty w Hw) as Hn.
    assert (Hl : (List.length pre' + List.length w = S i)%nat).
    { rewrite <- length_app, <- He, length_firstn. lia. }
    assert (Hpre : firstn (S i - size) s = pre').
    { replace (S i - size)%nat with (Nat.min (List.length pre') (S i)) by lia.
      rewrite <- firstn_firstn, He, firstn_app, Nat.sub_diag, firstn_all.
      cbn [firstn]. apply app_nil_r. }
    assert (Hsk : skipn (S i - size) s = w ++ skipn (S i) s).
    { rewrite (skipn_through s (S i - size) (S i)) by lia.
      rewrite He. replace (S i - size)%nat with (List.length pre') by lia.
      now rewrite skipn_app_length. }
    specialize (IH s (S i - size)%nat).
    rewrite Hpre, Hsk in IH.
    rewrite He, rev_app_distr, (strip_rchar _ _ Hw).
    apply IH; [lia|lia|now apply ok_tail_char].
  - assert (Hs' : IsSpace (fst (DecodeLastRune (firstn i s ++ [c]))) = false)
      by (rewrite <- Hp, D; exact Hs).
    rewrite Hp, (no_space_no_rchar _ _ Hs'), rev_involutive, <- Hp.
    pose proof (last_rune_again (firstn i s) c (skipn (S i) s) Hs' Hu) as Hr.
    cbv zeta in Hr. rewrite <- Hp, D in Hr. cbn [snd] in Hr.
    rewrite length_firstn in Hr.
    replace (Nat.min (S i) (List.length s)) with (S i) in Hr by lia.
    destruct Hr as [Hsz Hr].
    rewrite (nth_firstn_lt s (S i - size) (S i)) in Hr by lia.
    rewrite <- (skipn_through s (S i - size) (S i)) in Hr by lia.
    destruct (bytes_.isSelf (nth (S i - size) s x00)); now rewrite Hr.
Qed.

(** [bytes.TrimRightFunc(s, unicode.IsSpace)] drops the white space
    characters that [s] ends with. *)
Lemma TrimRightFunc_space (s : bytes) :
  bytes_.TrimRightFunc s IsSpace = rev (White.strip White.rchars (rev s)).
Proof.
  unfold bytes_.TrimRightFunc, bytes_.lastIndexFunc.
  pose proof (lastIndexFunc_space (S (List.length s)) s (List.length s)) as H.
  rewrite firstn_all, skipn_all in H.
  destruct (bytes_.lastIndexFunc_from _ s _ IsSpace false) as [j|].
  - apply H; [lia|lia|exact I].
  - cbn [firstn]. rewrite H; [reflexivity|lia|lia|exact I].
Qed.

(** The ASCII loop of [TrimSpace] that stops at a byte that is no white
    space. *)
Lemma asciiScan_inl (s : bytes) : forall r,
  bytes_.asciiScan s = inl r ->
  White.strip White.chars s = r
  /\ White.strip White.rchars s = r
  /\ (r = [] \/ exists a r', r = a :: r' /\ bytes_.isSelf a = false
                             /\ bytes_.asciiSpace a = false).
Proof.
  induction s as [|c s IH]; intros r H; cbn [bytes_.asciiScan] in H.
  - inversion H. auto.
  - destruct (bytes_.isSelf c) eqn:Hc; [discriminate|].
    destruct (bytes_.asciiSpace c) eqn:Hs.
    + destruct (IH r H) as (H1 & H2 & H3).
      destruct (strip_ascii_space c s Hs) as [-> ->]. auto.
    + inversion H; subst r.
      destruct (strip_ascii_other c s Hc Hs) as [-> ->].
      split; [reflexivity|]. split; [reflexivity|]. right. eauto.
Qed.

(** The same loop giving up at a byte of [RuneSelf] or more. *)
Lemma asciiScan_inr (s : bytes) : forall r,
  bytes_.asciiScan s = inr r ->
  White.strip White.chars s = White.strip White.chars r
  /\ White.strip White.rchars s = White.strip White.rchars r
  /\ exists sp, s = sp ++ r /\ r <> [].
Proof.
  induction s as [|c s IH]; intros r H; cbn [bytes_.asciiScan] in H.
  - discriminate.
  - destruct (bytes_.isSelf c) eqn:Hc.
    + inversion H; subst r. split; [reflexivity|]. split; [reflexivity|].
      exists []. split; [reflexivity|discriminate].
    + destruct (bytes_.asciiSpace c) eqn:Hs; [|discriminate].
      destruct (IH r H) as (H1 & H2 & sp & H3 & H4).
      destruct (strip_ascii_space c s Hs) as [-> ->].
      split; [exact H1|]. split; [exact H2|].
      exists (c :: sp). split; [now rewrite H3|exact H4].
Qed.

(** [bytes.TrimSpace] removes the white space of Unicode, read from the
    UTF-8 of the bytes, at both ends, whatever the bytes. *)
Lemma TrimSpace_trim (s : bytes) : bytes_.TrimSpace s = White.trim s.
Proof.
  unfold bytes_.TrimSpace, White.trim, bytes_.TrimFunc.
  destruct (bytes_.asciiScan s) as [fs|fs] eqn:E1.
  - destruct (asciiScan_inl s fs E1) as (H1 & _ & H3). rewrite H1.
    destruct (bytes_.asciiScan (rev fs)) as [ts|ts] eqn:E2.
    + destruct (asciiScan_inl _ ts E2) as (_ & H2 & _). now rewrite H2.
    + destruct (asciiScan_inr _ ts E2) as (_ & H2 & sp & H4 & H5).
      rewrite H2, TrimLeftFunc_space, TrimRightFunc_space.
      assert (Hfs : fs = rev ts ++ rev sp).
      { rewrite <- (rev_involutive fs), H4, rev_app_distr. reflexivity. }
      assert (Hst : White.strip White.chars (rev ts) = rev ts).
      { destruct H3 as [->|(a & r' & -> & Ha & Hs)].
        - destruct (rev ts); [reflexivity|discriminate Hfs].
        - destruct (rev ts) as [|x l] eqn:Er.
          + apply (f_equal (@rev byte)) in Er. rewrite rev_involutive in Er.
            now elim H5.
          + cbn [app] in Hfs. inversion Hfs; subst x.
            apply (strip_ascii_other a l Ha Hs). }
      now rewrite Hst, rev_involutive.
  - destruct (asciiScan_inr s fs E1) as (H1 & _).
    now rewrite H1, TrimLeftFunc_space, TrimRightFunc_space.
Qed.

End WhiteFacts.

Lemma Equal_bytes_eqb (a : bytes) : forall b, bytes_.Equal a b = White.bytes_eqb a b.
Proof.
  induction a as [|x a IH]; intros [|y b]; reflexivity.
Qed.

(** On a line of ASCII bytes the white space of Unicode is the six ASCII
    characters. *)
Lemma trim_ascii (l : bytes) : Forall is_ascii l -> White.trim l = Spec.trim l.
Proof.
  intros H. rewrite <- WhiteFacts.TrimSpace_trim. now apply TrimSpace_ascii.
Qed.

(** C3, as it is written, fails, white space being the six ASCII
    characters: the status line is [OK] behind a no-break space (the
    bytes [C2 A0]).  [ExecuteCommand] returns it as payload with
    [ok = true], and its trim is not [OK]. *)
Lemma C3_counterexample :
  exists o,
    ExecuteCommand 100 CmdStart Second Cases.w_nbsp_ok = Some (Return o)
    /\ payload o = Some Cases.nbsp_ok
    /\ wavesharecomm.err o = None
    /\ ok o = true
    /\ bytes_.Equal (Spec.trim Cases.nbsp_ok) (lit "OK") = false.
Proof.
  eexists. split; [vm_compute; reflexivity|].
  split; [reflexivity|]. split; [reflexivity|]. split; reflexivity.
Qed.

(** C3, amended.  For every classifying line [l], whatever its bytes, the
    success flag of [ExecuteCommand] is [trim l == "OK"], where [trim]
    removes the white space of Unicode at both ends, read from the UTF-8
    of the line: the payload line when it does not start with [+], and
    otherwise the line the second wait hands over.  On a line of ASCII
    bytes that trim is the trim by the six ASCII white space characters.
    The line [" OK "] gives true, ["ERROR"] and the empty line give false,
    and [OK] behind a no-break space gives true. *)
Theorem C3_success_flag :
  (forall fuel cmd t wd wd1 resp rd1 wd2,
      WriteCommand wd cmd = (None, wd1) ->
      waitForResponse fuel NewReader t wd1 = Some (Got resp rd1 wd2) ->
      Spec.starts_with_plus (view (buf rd1) resp) = false ->
      exists o,
        ExecuteCommand fuel cmd t wd = Some (Return o)
        /\ wavesharecomm.err o = None
        /\ ok o = White.bytes_eqb (White.trim (view (buf rd1) resp)) (lit "OK"))
  /\ (forall fuel cmd t wd wd1 resp rd1 wd2 okResponse rd2 wd3,
         WriteCommand wd cmd = (None, wd1) ->
         waitForResponse fuel NewReader t wd1 = Some (Got resp rd1 wd2) ->
         Spec.starts_with_plus (view (buf rd1) resp) = true ->
         waitForResponse fuel rd1 t wd2 = Some (Got okResponse rd2 wd3) ->
         exists o,
           ExecuteCommand fuel cmd t wd = Some (Return o)
           /\ wavesharecomm.err o = None
           /\ ok o = White.bytes_eqb (White.trim (view (buf rd2) okResponse))
                                     (lit "OK"))
  /\ (forall l, Forall is_ascii l -> White.trim l = Spec.trim l)
  /\ (forall mem line,
         isOk mem line = White.bytes_eqb (White.trim (view mem line)) (lit "OK"))
  /\ isOk (lit " OK ") (mkSlice 0 4) = true
  /\ isOk (lit "ERROR") (mkSlice 0 5) = false
  /\ isOk [] empty = false
  /\ isOk Cases.nbsp_ok (mkSlice 0 4) = true.
Proof.
  assert (Hok : forall mem line,
             isOk mem line
             = White.bytes_eqb (White.trim (view mem line)) (lit "OK")).
  { intros mem line. unfold isOk.
    now rewrite WhiteFacts.TrimSpace_trim, Equal_bytes_eqb. }
  split; [|split; [|split; [|split; [|repeat split]]]].
  - intros fuel cmd t wd wd1 resp rd1 wd2 Hw H1 Hp.
    eexists. split; [eapply ExecuteCommand_direct; eassumption|].
    split; [reflexivity|]. cbn [ok]. apply Hok.
  - intros fuel cmd t wd wd1 resp rd1 wd2 okResponse rd2 wd3 Hw H1 Hp H2.
    eexists. split.
    + erewrite ExecuteCommand_continue by eassumption. rewrite H2. reflexivity.
    + split; [reflexivity|]. cbn [ok]. apply Hok.
  - exact trim_ascii.
  - exact Hok.
Qed.

(** C3, amended, at work: the status line [" OK "] read as the payload
    line, and the status line [OK] read after the line [+COPS: ...]. *)
Lemma C3_witness :
  (exists o, ExecuteCommand 100 CmdStart Second Script.w_spaced_ok = Some (Return o)
             /\ wavesharecomm.err o = None /\ ok o = true)
  /\ (exists o, ExecuteCommand 100 (lit "+COPS?") Second Script.w_framed
                = Some (Return o)
                /\ wavesharecomm.err o = None /\ ok o = true)
  /\ White.trim (lit " OK ") = Spec.trim (lit " OK ").
Proof.
  destruct C3_success_flag as (Hdirect & Hcont & Hascii & _).
  split; [|split].
  - edestruct (Hdirect 100%nat CmdStart Second Script.w_spaced_ok)
      as (o & He & Herr & Hok).
    + reflexivity.
    + vm_compute. reflexivity.
    + vm_compute. reflexivity.
    + exists o. split; [exact He|]. split; [exact Herr|].
      rewrite Hok. vm_compute. reflexivity.
  - edestruct (Hcont 100%nat (lit "+COPS?") Second Script.w_framed)
      as (o & He & Herr & Hok).
    + reflexivity.
    + vm_compute. reflexivity.
    + vm_compute. reflexivity.
    + vm_compute. reflexivity.
    + exists o. split; [exact He|]. split; [exact Herr|].
      rewrite Hok. vm_compute. reflexivity.
  - apply Hascii. repeat constructor.
Defined.

(** ** The worker and the wait *)

(** The [select] of [waitForResponse] when the channel case is taken. *)
Lemma waitForResponse_chan fuel rd t wd msg rd' wd' :
  goWaitForResponse fuel rd (WithTimeout (clock wd) t) wd = Some (msg, rd', wd') ->
  chan_first wd wd' (Z.max (clock wd + t) (clock wd)) ->
  waitForResponse fuel rd t wd
  = Some (match msg with
          | Some line => Got line rd' (next_select wd')
          | None => Closed rd' (next_select wd')
          end).
Proof.
  intros Hg Hc. unfold waitForResponse. rewrite Hg. simpl deadline.
  destruct Hc as [Hc|[Hc Hp]].
  - apply Z.ltb_lt in Hc. now rewrite Hc.
  - rewrite Hc, Z.ltb_irrefl, Hp. reflexivity.
Qed.

(** Every return of [waitForResponse] is the timeout or the channel case. *)
Lemma waitForResponse_inv fuel rd t wd x :
  waitForResponse fuel rd t wd = Some x ->
  exists msg rd' wd',
    goWaitForResponse fuel rd (WithTimeout (clock wd) t) wd = Some (msg, rd', wd')
    /\ (x = TimedOut
        \/ (chan_first wd wd' (Z.max (clock wd + t) (clock wd))
            /\ x = match msg with
                   | Some line => Got line rd' (next_select wd')
                   | None => Closed rd' (next_select wd')
                   end)).
Proof.
  unfold waitForResponse, chan_first. simpl deadline.
  destruct (goWaitForResponse _ _ _ _) as [[[msg rd'] wd']|]; [|discriminate].
  intros H. exists msg, rd', wd'. split; [reflexivity|].
  destruct (clock wd' <? _) eqn:H1.
  - apply Z.ltb_lt in H1. right. split; [now left|]. now inversion H.
  - destruct (_ <? clock wd') eqn:H2.
    + left. now inversion H.
    + apply Z.ltb_ge in H1, H2.
      destruct (sched wd (nsel wd)) eqn:Hp.
      * left. now inversion H.
      * right. split; [right; split; [lia|reflexivity]|]. now inversion H.
Qed.

(** The worker leaves without sending in two cases only. *)
Lemma goWaitForResponse_silent fuel rd ctx wd rd' wd' :
  goWaitForResponse fuel rd ctx wd = Some (None, rd', wd') ->
  (Done ctx (clock wd) = true /\ rd' = rd /\ wd' = wd)
  \/ (Done ctx (clock wd) = false
      /\ exists e wd1,
          readLineIgnoreEof fuel ctx rd wd = Some ((empty, Some e), rd', wd1)
          /\ wd' = log_Printf wd1 (LogReadError e)).
Proof.
  unfold goWaitForResponse. destruct (Done ctx (clock wd)).
  - intros H. left. now inversion H.
  - intros H. right. split; [reflexivity|].
    destruct (readLineIgnoreEof fuel ctx rd wd) as [[[[junk e] rd1] wd1]|] eqn:H1;
      [|discriminate].
    destruct e as [e|].
    + inversion H; subst. exists e, wd1. split; [|reflexivity].
      pose proof (readLineIgnoreEof_error_empty _ _ _ _ _ _ _ _ H1) as ->.
      reflexivity.
    + destruct (readLineIgnoreEof fuel ctx rd1 wd1) as [[[[l e] rd2] wd2]|];
        discriminate.
Qed.

(** C9.  When the worker's first read succeeds and its second read fails
    with an error [e], the deadline's expiry included, the line of that
    read is empty, the worker only logs [e] and still leaves the line on
    the channel; and a caller whose select takes the channel, because the
    worker left before the deadline or because the select picks the
    channel at the very instant of the deadline, gets that line with a nil
    error. *)
Theorem C9_second_read_error fuel reader t wd junk rd1 wd1 line e rd2 wd2 :
  let ctx := WithTimeout (clock wd) t in
  Done ctx (clock wd) = false ->
  readLineIgnoreEof fuel ctx reader wd = Some ((junk, None), rd1, wd1) ->
  readLineIgnoreEof fuel ctx rd1 wd1 = Some ((line, Some e), rd2, wd2) ->
  let wd3 := log_Printf wd2 (LogReadError e) in
  line = empty
  /\ goWaitForResponse fuel reader ctx wd = Some (Some line, rd2, wd3)
  /\ (clock wd2 < deadline ctx
      \/ (clock wd2 = deadline ctx /\ sched wd (nsel wd) = PickChan) ->
      waitForResponse fuel reader t wd = Some (Got line rd2 (next_select wd3))
      /\ w_err (Got line rd2 (next_select wd3)) = None).
Proof.
  intros ctx Hd H1 H2 wd3.
  assert (Hg : goWaitForResponse fuel reader ctx wd = Some (Some line, rd2, wd3)).
  { unfold goWaitForResponse. fold ctx. now rewrite Hd, H1, H2. }
  split; [eapply readLineIgnoreEof_error_empty; eassumption|].
  split; [exact Hg|].
  intros Hc. split; [|reflexivity].
  rewrite (waitForResponse_chan _ _ _ _ _ _ _ Hg); [reflexivity|].
  unfold Done, ctx in Hd. simpl in *. apply Z.leb_gt in Hd.
  unfold chan_first. rewrite Z.max_l by lia. exact Hc.
Qed.

(** C9 at work, on the deadline's expiry: the framing line arrives, then
    nothing; the second read gives up at the deadline, and the select
    picks the channel. *)
Lemma C9_witness :
  exists rd1 wd1 rd2 wd2,
    Done (WithTimeout (clock Script.w_late) Second) (clock Script.w_late) = false
    /\ readLineIgnoreEof 200 (WithTimeout (clock Script.w_late) Second)
         NewReader Script.w_late
       = Some ((empty, None), rd1, wd1)
    /\ readLineIgnoreEof 200 (WithTimeout (clock Script.w_late) Second) rd1 wd1
       = Some ((empty, Some errTimeout), rd2, wd2)
    /\ clock wd2 = deadline (WithTimeout (clock Script.w_late) Second)
    /\ sched Script.w_late (nsel Script.w_late) = PickChan
    /\ waitForResponse 200 NewReader Second Script.w_late
       = Some (Got empty rd2
                 (next_select (log_Printf wd2 (LogReadError errTimeout)))).
Proof.
  eexists. eexists. eexists. eexists.
  split; [reflexivity|].
  match goal with |- ?A /\ _ => assert (H1 : A) by (vm_compute; reflexivity) end.
  split; [exact H1|].
  match goal with |- ?A /\ _ => assert (H2 : A) by (vm_compute; reflexivity) end.
  split; [exact H2|].
  match goal with |- ?A /\ _ => assert (H3 : A) by (vm_compute; reflexivity) end.
  split; [exact H3|].
  split; [reflexivity|].
  exact (proj1 (proj2 (proj2 (C9_second_read_error 200 NewReader Second
           Script.w_late _ _ _ _ _ _ _ eq_refl H1 H2))
           (or_intror (conj H3 eq_refl)))).
Defined.

(** The same with an error of the transport in the second read, well
    before the deadline. *)
Example second_read_transport_error :
  exists rd wd',
    waitForResponse 100 NewReader Second Script.w_broken_payload
    = Some (Got empty rd wd')
    /\ logged wd' = [LogReadError (ErrPort 5)]
    /\ clock wd' = 15000000.
Proof. eexists. eexists. split; [vm_compute; reflexivity|]. split; reflexivity. Qed.

(** C8, as it is written, fails: the first read of the worker fails with
    an error of the transport 5 ms into a wait of one second; the worker
    logs it and leaves, and the caller gets "channel closed
    unexpectedly". *)
Lemma C8_counterexample :
  exists rd1 wd1 wd',
    readLineIgnoreEof 100 (WithTimeout (clock Script.w_broken) Second)
      NewReader Script.w_broken
    = Some ((empty, Some (ErrPort 5)), rd1, wd1)
    /\ clock wd1 < clock Script.w_broken + Second
    /\ waitForResponse 100 NewReader Second Script.w_broken = Some (Closed rd1 wd')
    /\ w_err (Closed rd1 wd') = Some errClosed
    /\ logged wd' = [LogReadError (ErrPort 5)].
Proof.
  eexists. eexists. eexists.
  split; [vm_compute; reflexivity|].
  split; [vm_compute; reflexivity|].
  split; [vm_compute; reflexivity|].
  split; reflexivity.
Qed.

(** C8, amended.  [waitForResponse] returns "channel closed unexpectedly"
    only when its select takes the channel the worker closed without
    sending, and the worker does that in two cases: it found the deadline
    passed as it started, or its first read failed with an error, which it
    logged.  A first read that fails before the deadline, with an error of
    the transport for one, does come back as "channel closed
    unexpectedly".  Once the first read has succeeded, no return of
    [waitForResponse] carries that error. *)
Theorem C8_closed_channel fuel rd t wd :
  let ctx := WithTimeout (clock wd) t in
  (forall rd' wd',
      waitForResponse fuel rd t wd = Some (Closed rd' wd') ->
      (Done ctx (clock wd) = true /\ rd' = rd /\ wd' = next_select wd)
      \/ (exists e wd1,
             readLineIgnoreEof fuel ctx rd wd = Some ((empty, Some e), rd', wd1)
             /\ wd' = next_select (log_Printf wd1 (LogReadError e))))
  /\ (forall e rd1 wd1,
         Done ctx (clock wd) = false ->
         readLineIgnoreEof fuel ctx rd wd = Some ((empty, Some e), rd1, wd1) ->
         clock wd1 < deadline ctx ->
         waitForResponse fuel rd t wd
         = Some (Closed rd1 (next_select (log_Printf wd1 (LogReadError e)))))
  /\ (forall junk rd1 wd1 x,
         Done ctx (clock wd) = false ->
         readLineIgnoreEof fuel ctx rd wd = Some ((junk, None), rd1, wd1) ->
         waitForResponse fuel rd t wd = Some x ->
         w_err x <> Some errClosed).
Proof.
  intros ctx. split; [|split].
  - intros rd' wd' H.
    destruct (waitForResponse_inv _ _ _ _ _ H)
      as (msg & rd1 & wd1 & Hg & [Hx|[Hc Hx]]); [discriminate|].
    destruct msg as [line|]; [discriminate|]. inversion Hx; subst.
    destruct (goWaitForResponse_silent _ _ _ _ _ _ Hg)
      as [(Hd & -> & ->)|(Hd & e & w1 & Hr & ->)].
    + left. auto.
    + right. eauto.
  - intros e rd1 wd1 Hd Hr Hc.
    assert (Hg : goWaitForResponse fuel rd ctx wd
                 = Some (None, rd1, log_Printf wd1 (LogReadError e))).
    { unfold goWaitForResponse. now rewrite Hd, Hr. }
    rewrite (waitForResponse_chan _ _ _ _ _ _ _ Hg); [reflexivity|].
    unfold Done, ctx in Hd. simpl in *. apply Z.leb_gt in Hd.
    left. simpl. rewrite Z.max_l by lia. exact Hc.
  - intros junk rd1 wd1 x Hd Hr H.
    destruct (waitForResponse_inv _ _ _ _ _ H)
      as (msg & rd2 & wd2 & Hg & [->|[Hc ->]]); [discriminate|].
    unfold goWaitForResponse in Hg. fold ctx in Hg. rewrite Hd, Hr in Hg.
    destruct (readLineIgnoreEof fuel ctx rd1 wd1) as [[[[l e] r2] w2]|];
      [|discriminate].
    inversion Hg; subst. discriminate.
Qed.

(** C8, amended, at work: a first read that fails, and a second read that
    fails. *)
Lemma C8_witness :
  (exists rd1 wd1,
      readLineIgnoreEof 100 (WithTimeout (clock Script.w_broken) Second)
        NewReader Script.w_broken
      = Some ((empty, Some (ErrPort 5)), rd1, wd1)
      /\ clock wd1 < deadline (WithTimeout (clock Script.w_broken) Second)
      /\ waitForResponse 100 NewReader Second Script.w_broken
         = Some (Closed rd1 (next_select (log_Printf wd1 (LogReadError (ErrPort 5)))))
      /\ (exists e wd0,
             readLineIgnoreEof 100 (WithTimeout (clock Script.w_broken) Second)
               NewReader Script.w_broken
             = Some ((empty, Some e), rd1, wd0)))
  /\ (exists x,
         waitForResponse 100 NewReader Second Script.w_broken_payload = Some x
         /\ w_err x <> Some errClosed).
Proof.
  split.
  - eexists. eexists.
    match goal with |- ?A /\ _ => assert (H1 : A) by (vm_compute; reflexivity) end.
    split; [exact H1|].
    match goal with |- ?A /\ _ => assert (H2 : A) by (vm_compute; reflexivity) end.
    split; [exact H2|].
    pose proof (proj1 (proj2 (C8_closed_channel 100 NewReader Second Script.w_broken))
                  (ErrPort 5) _ _ eq_refl H1 H2) as H3.
    split; [exact H3|].
    destruct (proj1 (C8_closed_channel 100 NewReader Second Script.w_broken) _ _ H3)
      as [(Hd & _)|(e & wd0 & Hr & _)].
    + discriminate Hd.
    + exists e, wd0. exact Hr.
  - eexists.
    match goal with |- ?A /\ _ => assert (H1 : A) by (vm_compute; reflexivity) end.
    split; [exact H1|].
    refine (proj2 (proj2 (C8_closed_channel 100 NewReader Second
                            Script.w_broken_payload))
              empty _ _ _ eq_refl _ H1).
    vm_compute. reflexivity.
Defined.

(** ** Reading never writes *)

(** Reading never writes: the frames handed to [Write] stay as they are. *)
Lemma fill_reads_sent i : forall b wd,
  sent (port (snd (fill_reads i b wd))) = sent (port wd).
Proof.
  induction i as [|i IH]; intros b wd; simpl; [reflexivity|].
  unfold Read.
  destruct (incoming (port wd)) as [|ev evs];
    match goal with |- context [(List.length ?d <=? ?n)%nat] =>
      destruct (List.length d <=? n)%nat end;
    cbn [fst snd];
    repeat match goal with
           | |- context [match ?e with Some _ => _ | None => _ end] => destruct e
           | |- context [if ?c then _ else _] => destruct c
           end;
    try reflexivity; rewrite IH; reflexivity.
Qed.

Lemma fill_sent b wd : sent (port (snd (fill b wd))) = sent (port wd).
Proof. unfold fill. apply fill_reads_sent. Qed.

Lemma ReadSlice_loop_sent fuel : forall delim s b wd res b' wd',
  ReadSlice_loop fuel delim s b wd = Some (res, b', wd') ->
  sent (port wd') = sent (port wd).
Proof.
  induction fuel as [|k IH]; intros delim s b wd res b' wd' H; simpl in H.
  - discriminate.
  - destruct (bytes_.IndexByte _ _).
    + now inversion H.
    + destruct (bufio.err b).
      * now inversion H.
      * destruct (_ <=? _)%nat.
        -- now inversion H.
        -- destruct (fill b wd) as [b1 wd1] eqn:Hf.
           apply IH in H. rewrite H.
           change wd1 with (snd (b1, wd1)). rewrite <- Hf. apply fill_sent.
Qed.

Lemma ReadLine_sent b wd res b' wd' :
  ReadLine b wd = Some (res, b', wd') -> sent (port wd') = sent (port wd).
Proof.
  unfold ReadLine, ReadSlice.
  destruct (ReadSlice_loop _ _ _ _ _) as [[[[line e] b1] wd1]|] eqn:Hs;
    [|discriminate].
  apply ReadSlice_loop_sent in Hs. intros H. rewrite <- Hs.
  destruct e as [[]|];
    repeat match type of H with
           | context [if ?c then _ else _] => destruct c
           end; now inversion H.
Qed.

Lemma readLineIgnoreEof_sent fuel : forall ctx b wd res b' wd',
  readLineIgnoreEof fuel ctx b wd = Some (res, b', wd') ->
  sent (port wd') = sent (port wd).
Proof.
  induction fuel as [|k IH]; intros ctx b wd res b' wd' H; simpl in H.
  - discriminate.
  - destruct (Done ctx (clock wd)); [now inversion H|].
    destruct (ReadLine b wd) as [[[[[l p] e] b1] wd1]|] eqn:Hr; [|discriminate].
    apply ReadLine_sent in Hr. rewrite <- Hr.
    destruct e as [[]|]; try (now inversion H).
    eapply IH; eassumption.
Qed.

Lemma goWaitForResponse_sent fuel b ctx wd msg b' wd' :
  goWaitForResponse fuel b ctx wd = Some (msg, b', wd') ->
  sent (port wd') = sent (port wd).
Proof.
  unfold goWaitForResponse. destruct (Done ctx (clock wd)); [now inversion 1|].
  destruct (readLineIgnoreEof fuel ctx b wd) as [[[[l e] b1] wd1]|] eqn:H1;
    [|discriminate].
  apply readLineIgnoreEof_sent in H1.
  destruct e as [e|].
  - intros H. inversion H; subst. exact H1.
  - destruct (readLineIgnoreEof fuel ctx b1 wd1) as [[[[l2 e2] b2] wd2]|] eqn:H2;
      [|discriminate].
    apply readLineIgnoreEof_sent in H2.
    intros H. inversion H; subst. destruct e2; simpl; congruence.
Qed.

Lemma waitForResponse_sent fuel b t wd x mem wd' :
  waitForResponse fuel b t wd = Some x ->
  after_wait x = Some (mem, wd') ->
  sent (port wd') = sent (port wd).
Proof.
  intros H Ha.
  destruct (waitForResponse_inv _ _ _ _ _ H) as (msg & b1 & wd1 & Hg & [->|[_ ->]]);
    [discriminate|].
  apply goWaitForResponse_sent in Hg.
  destruct msg; simpl in Ha; inversion Ha; subst; exact Hg.
Qed.

(** Whenever [ExecuteCommand] returns with no worker left behind, the port
    has been handed one frame more, [AT], the body and [CR LF], and
    nothing else. *)
Lemma ExecuteCommand_sent fuel cmd t wd o mem wd' :
  ExecuteCommand fuel cmd t wd = Some (Return o) ->
  after o = Some (mem, wd') ->
  sent (port wd') = sent (port wd) ++ [lit "AT" ++ cmd ++ CRLF].
Proof.
  unfold ExecuteCommand.
  pose proof (WriteCommand_sent wd cmd) as Hw.
  destruct (WriteCommand wd cmd) as [[e|] wd1]; cbn [snd] in Hw.
  - intros H Ha. inversion H; subst. simpl in Ha. inversion Ha; subst. exact Hw.
  - destruct (waitForResponse fuel NewReader t wd1) as [x|] eqn:H1; [|discriminate].
    assert (Hx : forall m w, after_wait x = Some (m, w) ->
                             sent (port w) = sent (port wd) ++ [lit "AT" ++ cmd ++ CRLF]).
    { intros m w Hm. rewrite <- Hw. eapply waitForResponse_sent; eassumption. }
    destruct x as [resp rd1 wd2|rd1 wd2|].
    + assert (Hd : forall okf,
                 Some (Return (mkOutcome resp okf None (Some (buf rd1, wd2))))
                 = Some (Return o) ->
                 after o = Some (mem, wd') ->
                 sent (port wd') = sent (port wd) ++ [lit "AT" ++ cmd ++ CRLF]).
      { intros okf Ho Ha. inversion Ho; subst. simpl in Ha. inversion Ha; subst.
        eapply Hx. reflexivity. }
      destruct (1 <=? len resp)%nat; [|apply Hd].
      destruct (index (buf rd1) resp 0) as [c|]; [|discriminate].
      destruct (Byte.eqb c x2b); [|apply Hd].
      destruct (waitForResponse fuel rd1 t wd2) as [y|] eqn:H2; [|discriminate].
      intros H Ha.
      assert (Hy : after_wait y = Some (mem, wd')).
      { destruct y; inversion H; subst; exact Ha. }
      rewrite (waitForResponse_sent _ _ _ _ _ _ _ H2 Hy).
      eapply Hx. reflexivity.
    + intros H Ha. inversion H; subst. simpl in Ha. eapply Hx. exact Ha.
    + intros H Ha. inversion H; subst. discriminate.
Qed.

(** ** A port on which nothing arrives *)

Lemma ReadLine_silent (bf : bytes) (wd : World) (k : N) :
  bf <> [] -> silent k (port wd) ->
  ReadLine (fresh bf) wd = Some ((empty, false, Some EOF), fresh bf, advance wd k).
Proof.
  intros Hbf [Hin Hid].
  destruct wd as [c [inc idl wr st] lg sc ns]. simpl in Hin, Hid. subst inc idl.
  destruct bf as [|x bf]; [now elim Hbf|].
  reflexivity.
Qed.

Lemma advance_silent k j wd : silent k (port wd) -> silent k (port (advance wd j)).
Proof. now destruct wd. Qed.

Lemma advance_0 wd : advance wd 0 = wd.
Proof. destruct wd. unfold advance. simpl. now rewrite Z.add_0_r. Qed.

Lemma advance_advance wd a b : advance (advance wd a) b = advance wd (a + b).
Proof. destruct wd. unfold advance. simpl. f_equal. lia. Qed.

(** On a silent port the reader polls until the deadline and then gives
    up: when the time left is at most [m] polls long, [m] turns of the
    loop are enough. *)
Lemma readLineIgnoreEof_silent (bf : bytes) (k : N) (ctx : Context) :
  bf <> [] ->
  forall (m fuel : nat) (wd : World),
    silent k (port wd) ->
    deadline ctx - clock wd <= Z.of_nat m * Z.of_N k ->
    (m < fuel)%nat ->
    exists n : N,
      readLineIgnoreEof fuel ctx (fresh bf) wd
      = Some ((empty, Some errTimeout), fresh bf, advance wd (n * k))
      /\ deadline ctx <= clock wd + Z.of_N (n * k).
Proof.
  intros Hbf. induction m as [|m IH]; intros fuel wd Hs Hm Hf.
  - destruct fuel as [|fuel]; [lia|]. exists 0%N.
    rewrite readLineIgnoreEof_done by (apply Z.leb_le; lia).
    rewrite advance_0. split; [reflexivity|lia].
  - destruct fuel as [|fuel]; [lia|].
    destruct (Z.leb_spec (deadline ctx) (clock wd)) as [Hd|Hd].
    + exists 0%N.
      rewrite readLineIgnoreEof_done by (apply Z.leb_le; lia).
      rewrite advance_0. split; [reflexivity|lia].
    + destruct (IH fuel (advance wd k)) as (n & Hr & H1).
      * now apply advance_silent.
      * unfold advance. cbn [clock]. lia.
      * lia.
      * exists (1 + n)%N. split.
        -- rewrite (readLineIgnoreEof_retry fuel ctx (fresh bf) wd empty false
                      (fresh bf) (advance wd k)).
           ++ rewrite Hr, advance_advance.
              replace (k + n * k)%N with ((1 + n) * k)%N by lia. reflexivity.
           ++ now apply Z.leb_gt.
           ++ now apply ReadLine_silent.
        -- unfold advance in H1. cbn [clock] in H1. lia.
Qed.

Lemma polls_enough (t : Z) (k : N) :
  (0 < k)%N -> t <= Z.of_nat (polls t k) * Z.of_N k.
Proof.
  intros Hk. unfold polls.
  assert (Hk' : 0 < Z.of_N k) by lia.
  destruct (Z.le_gt_cases t 0) as [Ht|Ht].
  - assert (0 <= Z.of_nat (Z.to_nat (t / Z.of_N k) + 1) * Z.of_N k) by lia. lia.
  - assert (H0 : 0 <= t / Z.of_N k) by (apply Z.div_pos; lia).
    rewrite Nat2Z.inj_add, Z2Nat.id by exact H0.
    pose proof (Z.mul_succ_div_gt t (Z.of_N k) Hk'). lia.
Qed.

Lemma NewReader_fresh : NewReader = fresh (repeat x00 defaultBufSize).
Proof. reflexivity. Qed.

Lemma defaultBuf_not_nil : repeat x00 defaultBufSize <> [].
Proof. discriminate. Qed.

(** The wait on a silent port. *)
Lemma waitForResponse_silent (bf : bytes) (k : N) (t : Z) (wd : World) :
  bf <> [] -> (0 < k)%N -> silent k (port wd) ->
  forall fuel, (polls t k < fuel)%nat ->
  exists x,
    waitForResponse fuel (fresh bf) t wd = Some x
    /\ w_response x = empty
    /\ (w_err x = Some errTimeout \/ w_err x = Some errClosed)
    /\ (sched wd (nsel wd) = PickDone -> x = TimedOut)
    /\ (0 < t -> t mod Z.of_N k <> 0 -> x = TimedOut).
Proof.
  intros Hbf Hk Hs fuel Hf. unfold waitForResponse, goWaitForResponse.
  unfold Done, WithTimeout. simpl deadline.
  destruct (Z.leb_spec (clock wd + t) (clock wd)) as [Hd|Hd].
  - (* the deadline has passed as the wait begins *)
    rewrite Z.max_r by lia. rewrite !Z.ltb_irrefl.
    destruct (sched wd (nsel wd)); eexists; (split; [reflexivity|]);
      simpl; repeat split; auto; try discriminate; lia.
  - destruct (readLineIgnoreEof_silent bf k (mkContext (clock wd + t)) Hbf
                (polls t k) fuel wd Hs) as (n & Hr & Hn).
    + cbn [deadline]. pose proof (polls_enough t k Hk). lia.
    + exact Hf.
    + rewrite Hr. rewrite Z.max_l by lia. simpl in Hn.
      assert (Hc : clock (log_Printf (advance wd (n * k)) (LogReadError errTimeout))
                   = clock wd + Z.of_N (n * k)) by reflexivity.
      rewrite Hc.
      replace (clock wd + Z.of_N (n * k) <? clock wd + t) with false
        by (symmetry; apply Z.ltb_ge; lia).
      destruct (Z.ltb_spec (clock wd + t) (clock wd + Z.of_N (n * k))) as [Hlt|Hge].
      * eexists; split; [reflexivity|]. simpl; repeat split; auto.
      * assert (Ht : t = Z.of_N n * Z.of_N k) by lia.
        destruct (sched wd (nsel wd)); eexists; (split; [reflexivity|]);
          simpl; repeat split; auto; try discriminate;
          intros _ Hm; elim Hm; rewrite Ht; apply Z_mod_mult.
Qed.

(** ** The scripted exchange of [+COPS?] *)

(** Both lines arrive before the deadline: the wait hands over the second
    one. *)
Lemma waitForResponse_two_lines k rd t wd l1 p1 rd1 wd1 l2 p2 rd2 wd2 :
  ReadLine rd wd = Some ((l1, p1, None), rd1, wd1) ->
  ReadLine rd1 wd1 = Some ((l2, p2, None), rd2, wd2) ->
  clock wd < clock wd + t ->
  clock wd1 < clock wd + t ->
  clock wd2 < clock wd + t ->
  waitForResponse (S k) rd t wd = Some (Got l2 rd2 (next_select wd2)).
Proof.
  intros H1 H2 H0 Hc1 Hc2.
  set (ctx := WithTimeout (clock wd) t).
  assert (Hg : goWaitForResponse (S k) rd ctx wd = Some (Some l2, rd2, wd2)).
  { unfold goWaitForResponse.
    assert (Hd : Done ctx (clock wd) = false) by (apply Z.leb_gt; simpl; lia).
    rewrite Hd.
    rewrite (readLineIgnoreEof_return k ctx rd wd l1 p1 None rd1 wd1 Hd H1)
      by discriminate.
    rewrite (readLineIgnoreEof_return k ctx rd1 wd1 l2 p2 None rd2 wd2)
      by (try discriminate; try assumption; apply Z.leb_gt; simpl; lia).
    reflexivity. }
  rewrite (waitForResponse_chan _ _ _ _ _ _ _ Hg); [reflexivity|].
  left. rewrite Z.max_l by lia. exact Hc2.
Qed.

(** C1, as it is written, fails: with [OK] sent right after the line
    [+COPS: ...], the second wait takes [OK] for its framing line, waits
    for a line that never comes and times out; the call returns
    [ok = false] and an error. *)
Lemma C1_counterexample :
  ExecuteCommandRead 100 (lit "COPS") Second Script.w_unframed
  = Some (Return (mkOutcome (mkSlice 0 20) false
            (Some (ErrWrap "error getting ok response from port" errTimeout))
            None)).
Proof. vm_compute. reflexivity. Qed.

(** C1, amended.  The port's writes succeed and its reads yield the
    framing line, the line [+COPS: 0,0,"Carrier"], a second framing line
    and the line [OK], the first two within the timeout [t] of the start
    and the last two within [t] of the first response, whatever the start
    of the clock, the rest of the port and the picks of the selects.  Then
    [ExecuteCommandRead] on [COPS] returns [ok = true], a nil error, and
    as payload the slice the first wait handed over, which read
    [+COPS: 0,0,"Carrier"] at that hand-over. *)
Theorem C1_framed_status (k : nat) (t c0 : Z) (d1 d2 d3 d4 : N)
        (idl : ReadEvent) (st : list bytes) (lg : list LogEntry)
        (sc : nat -> Pick) (ns : nat) :
  Z.of_N d1 + Z.of_N d2 < t ->
  Z.of_N d3 + Z.of_N d4 < t ->
  let wd := mkWorld c0 (mkPort (Script.framed d1 d2 d3 d4) idl [] st) lg sc ns in
  exists wd1 resp rd1 wd2 o,
    WriteCommand wd (lit "+COPS?") = (None, wd1)
    /\ waitForResponse (S k) NewReader t wd1 = Some (Got resp rd1 wd2)
    /\ view (buf rd1) resp = Script.cops
    /\ ExecuteCommandRead (S k) (lit "COPS") t wd = Some (Return o)
    /\ response o = resp
    /\ ok o = true
    /\ wavesharecomm.err o = None.
Proof.
  intros H12 H34 wd. subst wd.
  assert (Hd1 := N2Z.is_nonneg d1). assert (Hd2 := N2Z.is_nonneg d2).
  assert (Hd3 := N2Z.is_nonneg d3). assert (Hd4 := N2Z.is_nonneg d4).
  eexists. eexists. eexists. eexists. eexists.
  split; [reflexivity|].
  match goal with |- ?A /\ _ => assert (Hw1 : A) end.
  { eapply waitForResponse_two_lines.
    - run_ReadLine.
    - run_ReadLine.
    - clock_lia.
    - clock_lia.
    - clock_lia. }
  split; [exact Hw1|].
  split; [vm_compute; reflexivity|].
  match goal with |- ?A /\ _ => assert (He : A) end.
  { unfold ExecuteCommandRead.
    rewrite Sprintf_read.
    erewrite ExecuteCommand_continue;
      [| reflexivity | exact Hw1 | vm_compute; reflexivity].
    erewrite waitForResponse_two_lines.
    - reflexivity.
    - run_ReadLine.
    - run_ReadLine.
    - clock_lia.
    - clock_lia.
    - clock_lia. }
  split; [exact He|].
  cbn [response ok wavesharecomm.err]. split; [reflexivity|].
  split; [vm_compute; reflexivity|reflexivity].
Qed.

(** C1, amended, at work with a timeout of one second: each read takes
    300 ms, so the exchange lasts 1.2 s, more than the timeout, which
    starts afresh with the second wait. *)
Lemma C1_witness :
  Z.of_N (Script.ms 300) + Z.of_N (Script.ms 300) < Second
  /\ exists wd1 resp rd1 wd2 o,
      WriteCommand Script.w_framed_slow (lit "+COPS?") = (None, wd1)
      /\ waitForResponse 100 NewReader Second wd1 = Some (Got resp rd1 wd2)
      /\ view (buf rd1) resp = Script.cops
      /\ ExecuteCommandRead 100 (lit "COPS") Second Script.w_framed_slow
         = Some (Return o)
      /\ response o = resp
      /\ ok o = true
      /\ wavesharecomm.err o = None.
Proof.
  split; [reflexivity|].
  exact (C1_framed_status 99 Second 0
           (Script.ms 300) (Script.ms 300) (Script.ms 300) (Script.ms 300)
           (Script.eof_ms 100) [] [] (fun _ => PickDone) 0 eq_refl eq_refl).
Defined.

(** The exchange of [w_framed_slow] ends 1.2 s after it began. *)
Example fresh_timeout :
  exists o mem wd',
    ExecuteCommandRead 100 (lit "COPS") Second Script.w_framed_slow = Some (Return o)
    /\ after o = Some (mem, wd')
    /\ clock wd' = 1200000000
    /\ ok o = true.
Proof.
  eexists. eexists. eexists.
  split; [vm_compute; reflexivity|]. repeat split.
Qed.

(** C2: the payload does not survive the second wait.  The four lines
    arrive in four reads.  The first wait hands over a slice of the
    reader's buffer that reads [+COPS: 0,0,"Carrier"]; the reads of the
    second wait fill the same buffer from its start; and the slice
    [ExecuteCommand] returns, the same slice, reads [OK], carriage return,
    line feed and the tail [S: 0,0,"Carrier"] of the old line. *)
Theorem C2_payload_overwritten :
  exists wd1 resp rd1 wd2 o,
    WriteCommand Script.w_framed (lit "+COPS?") = (None, wd1)
    /\ waitForResponse 100 NewReader Second wd1 = Some (Got resp rd1 wd2)
    /\ view (buf rd1) resp = Script.cops
    /\ ExecuteCommand 100 (lit "+COPS?") Second Script.w_framed = Some (Return o)
    /\ response o = resp
    /\ ok o = true
    /\ wavesharecomm.err o = None
    /\ payload o = Some Script.overwritten
    /\ Script.overwritten <> Script.cops.
Proof.
  eexists. eexists. eexists. eexists. eexists.
  split; [reflexivity|].
  split; [vm_compute; reflexivity|].
  split; [vm_compute; reflexivity|].
  split; [vm_compute; reflexivity|].
  repeat split. discriminate.
Qed.

(** When the four lines arrive in one read nothing is read after the
    first wait, and the payload is intact. *)
Example payload_intact_in_one_read :
  exists o,
    ExecuteCommand 100 (lit "+COPS?") Second
      (Script.world
         [Script.after_ms 10 (CRLF ++ Script.cops ++ CRLF ++ CRLF ++ lit "OK" ++ CRLF)]
         (Script.eof_ms 100) PickDone)
    = Some (Return o)
    /\ payload o = Some Script.cops
    /\ ok o = true
    /\ wavesharecomm.err o = None.
Proof. eexists. split; [vm_compute; reflexivity|]. repeat split. Qed.

(** ** The results of [ExecuteCommand] *)

(** X1.  When the write of the command fails, [ExecuteCommand] returns at
    once: no payload, [ok] false, and the error of the write wrapped as
    "error writing command to port".  The frame was handed to the port and
    logged, and nothing was read: the bytes waiting in the port and the
    clock are as before. *)
Theorem X1_write_error fuel cmd t wd e :
  hd None (wresults (port wd)) = Some e ->
  exists wd1,
    ExecuteCommand fuel cmd t wd
    = Some (Return (mkOutcome empty false (Some (errWrite e)) (Some ([], wd1))))
    /\ incoming (port wd1) = incoming (port wd)
    /\ clock wd1 = clock wd
    /\ sent (port wd1) = sent (port wd) ++ [frame_of cmd]
    /\ logged wd1 = logged wd ++ [LogSending (frame_of cmd)].
Proof.
  intros H. unfold ExecuteCommand, WriteCommand, Write. simpl.
  destruct (wresults (port wd)) as [|res more]; simpl in H; [discriminate|].
  subst res. eexists. split; [reflexivity|]. repeat split.
Qed.

Lemma X1_witness :
  hd None (wresults (port Cases.w_write_fails)) = Some (ErrPort 7)
  /\ exists wd1,
      ExecuteCommand 0 CmdEcho Second Cases.w_write_fails
      = Some (Return (mkOutcome empty false (Some (errWrite (ErrPort 7)))
                        (Some ([], wd1))))
      /\ incoming (port wd1) = incoming (port Cases.w_write_fails)
      /\ sent (port wd1) = [lit "ATE1" ++ CRLF].
Proof.
  split; [reflexivity|].
  destruct (X1_write_error 0 CmdEcho Second Cases.w_write_fails (ErrPort 7) eq_refl)
    as (wd1 & He & Hi & _ & Hs & _).
  exists wd1. split; [exact He|]. split; [exact Hi|]. rewrite Hs. reflexivity.
Defined.

(** X2.  The three results of [ExecuteCommand] agree with each other.
    [ok] is true only with a nil error.  A non-nil error is one of three
    wraps: of the error of the write, or, for the first wait, of the
    timeout or closed-channel error, both with no payload; or, for the
    second wait, of the timeout or closed-channel error, together with the
    non-empty payload of the first wait. *)
Theorem X2_results_consistent fuel cmd t wd o :
  ExecuteCommand fuel cmd t wd = Some (Return o) ->
  (ok o = true -> wavesharecomm.err o = None)
  /\ (wavesharecomm.err o = None
      \/ (exists e, wavesharecomm.err o = Some (errWrite e) /\ response o = empty)
      \/ (exists e, wavesharecomm.err o = Some (errResponse e) /\ response o = empty
                    /\ (e = errTimeout \/ e = errClosed))
      \/ (exists e, wavesharecomm.err o = Some (errOkResponse e)
                    /\ (e = errTimeout \/ e = errClosed)
                    /\ (1 <= len (response o))%nat)).
Proof.
  unfold ExecuteCommand.
  destruct (WriteCommand wd cmd) as [[e|] wd1].
  - intros H. inversion H; subst. simpl. split; [discriminate|].
    right. left. eauto.
  - destruct (waitForResponse fuel NewReader t wd1) as [[resp rd1 wd2|rd1 wd2|]|];
      try discriminate.
    + destruct (1 <=? len resp)%nat eqn:Hl.
      * destruct (index (buf rd1) resp 0) as [c|]; [|discriminate].
        destruct (Byte.eqb c x2b).
        -- apply Nat.leb_le in Hl.
           destruct (waitForResponse fuel rd1 t wd2) as [[r2 rd2 wd3|rd2 wd3|]|];
             try discriminate; intros H; inversion H; subst; simpl.
           ++ auto.
           ++ split; [discriminate|]. right. right. right. eauto.
           ++ split; [discriminate|]. right. right. right. eauto.
        -- intros H; inversion H; subst; simpl. auto.
      * intros H; inversion H; subst; simpl. auto.
    + intros H; inversion H; subst; simpl. split; [discriminate|].
      right. right. left. eauto.
    + intros H; inversion H; subst; simpl. split; [discriminate|].
      right. right. left. eauto.
Qed.

Lemma X2_witness :
  exists o,
    ExecuteCommand 100 CmdStart Second Script.w_spaced_ok = Some (Return o)
    /\ ok o = true
    /\ wavesharecomm.err o = None.
Proof.
  eexists.
  match goal with |- ?A /\ _ => assert (H : A) by (vm_compute; reflexivity) end.
  split; [exact H|].
  match goal with |- ?A /\ _ => assert (Hok : A) by reflexivity end.
  split; [exact Hok|].
  exact (proj1 (X2_results_consistent _ _ _ _ _ H) Hok).
Defined.

(** ** Time *)

(** Reading never turns the clock back. *)
Lemma fill_reads_clock i : forall b wd,
  clock wd <= clock (snd (fill_reads i b wd)).
Proof.
  induction i as [|i IH]; intros b wd; simpl; [lia|].
  destruct (Read (port wd) (List.length (buf b) - w b)) as [[[d e] t] p'].
  assert (H0 : clock wd <= clock (advance (set_port wd p') t))
    by (unfold advance; cbn [clock set_port]; lia).
  destruct e as [e|]; cbn [snd]; [exact H0|].
  destruct (0 <? List.length d)%nat; cbn [snd]; [exact H0|].
  etransitivity; [exact H0|apply IH].
Qed.

Lemma ReadSlice_loop_clock fuel : forall delim s b wd res b' wd',
  ReadSlice_loop fuel delim s b wd = Some (res, b', wd') ->
  clock wd <= clock wd'.
Proof.
  induction fuel as [|k IH]; intros delim s b wd res b' wd' H; simpl in H.
  - discriminate.
  - destruct (bytes_.IndexByte _ _).
    + inversion H; subst. lia.
    + destruct (bufio.err b).
      * inversion H; subst. lia.
      * destruct (_ <=? _)%nat.
        -- inversion H; subst. lia.
        -- destruct (fill b wd) as [b1 wd1] eqn:Hf.
           apply IH in H.
           assert (clock wd <= clock wd1).
           { change wd1 with (snd (b1, wd1)). rewrite <- Hf. apply fill_reads_clock. }
           lia.
Qed.

Lemma ReadLine_clock b wd res b' wd' :
  ReadLine b wd = Some (res, b', wd') -> clock wd <= clock wd'.
Proof.
  unfold ReadLine, ReadSlice.
  destruct (ReadSlice_loop _ _ _ _ _) as [[[[line e] b1] wd1]|] eqn:Hs;
    [|discriminate].
  apply ReadSlice_loop_clock in Hs. intros H.
  assert (wd' = wd1); [|subst; exact Hs].
  destruct e as [[]|];
    repeat match type of H with
           | context [if ?c then _ else _] => destruct c
           end; now inversion H.
Qed.

Lemma readLineIgnoreEof_clock fuel : forall ctx b wd res b' wd',
  readLineIgnoreEof fuel ctx b wd = Some (res, b', wd') ->
  clock wd <= clock wd'.
Proof.
  induction fuel as [|k IH]; intros ctx b wd res b' wd' H; simpl in H.
  - discriminate.
  - destruct (Done ctx (clock wd)); [inversion H; subst; lia|].
    destruct (ReadLine b wd) as [[[[[l p] e] b1] wd1]|] eqn:Hr; [|discriminate].
    apply ReadLine_clock in Hr.
    destruct e as [[]|]; try (inversion H; subst; exact Hr).
    apply IH in H. lia.
Qed.

Lemma goWaitForResponse_clock fuel b ctx wd msg b' wd' :
  goWaitForResponse fuel b ctx wd = Some (msg, b', wd') ->
  clock wd <= clock wd'.
Proof.
  unfold goWaitForResponse.
  destruct (Done ctx (clock wd)); [intros H; inversion H; subst; lia|].
  destruct (readLineIgnoreEof fuel ctx b wd) as [[[[l e] b1] wd1]|] eqn:H1;
    [|discriminate].
  apply readLineIgnoreEof_clock in H1.
  destruct e as [e|].
  - intros H. inversion H; subst. exact H1.
  - destruct (readLineIgnoreEof fuel ctx b1 wd1) as [[[[l2 e2] b2] wd2]|] eqn:H2;
      [|discriminate].
    apply readLineIgnoreEof_clock in H2.
    intros H. inversion H; subst. destruct e2; cbn [clock log_Printf]; lia.
Qed.

(** What a wait hands over, it hands over between its start and its
    deadline. *)
Lemma waitForResponse_window fuel b t wd x mem wd' :
  waitForResponse fuel b t wd = Some x ->
  after_wait x = Some (mem, wd') ->
  clock wd <= clock wd' <= Z.max (clock wd + t) (clock wd).
Proof.
  intros H Ha.
  destruct (waitForResponse_inv _ _ _ _ _ H) as (msg & b1 & wd1 & Hg & [->|[Hc ->]]);
    [discriminate|].
  apply goWaitForResponse_clock in Hg.
  assert (wd' = next_select wd1) by (destruct msg; simpl in Ha; congruence).
  subst wd'. cbn [clock next_select].
  destruct Hc as [Hc|[Hc _]]; lia.
Qed.

(** X6.  A call that returns with its workers finished (any return but a
    timeout taken at the deadline) has taken no longer than two timeouts:
    each of the two waits hands over at its deadline at the latest, and
    the clock never runs backwards. *)
Theorem X6_returns_in_time fuel cmd t wd o mem wd' :
  ExecuteCommand fuel cmd t wd = Some (Return o) ->
  after o = Some (mem, wd') ->
  clock wd <= clock wd' <= clock wd + 2 * Z.max t 0.
Proof.
  unfold ExecuteCommand, WriteCommand.
  destruct (Write (port (log_Printf wd (LogSending (lit "AT" ++ cmd ++ CRLF)))) _)
    as [e p'].
  set (wd1 := set_port _ p').
  assert (Hc1 : clock wd1 = clock wd) by reflexivity.
  destruct e as [e|].
  - intros H Ha. inversion H; subst. simpl in Ha. inversion Ha; subst. lia.
  - destruct (waitForResponse fuel NewReader t wd1) as [x|] eqn:H1; [|discriminate].
    assert (Hx : forall m w, after_wait x = Some (m, w) ->
                             clock wd <= clock w <= Z.max (clock wd + t) (clock wd)).
    { intros m w Hm. rewrite <- Hc1. eapply waitForResponse_window; eassumption. }
    destruct x as [resp rd1 wd2|rd1 wd2|].
    + assert (Hd : forall okf,
                 Some (Return (mkOutcome resp okf None (Some (buf rd1, wd2))))
                 = Some (Return o) ->
                 after o = Some (mem, wd') ->
                 clock wd <= clock wd' <= clock wd + 2 * Z.max t 0).
      { intros okf Ho Ha. inversion Ho; subst. simpl in Ha. inversion Ha; subst.
        specialize (Hx _ _ eq_refl). lia. }
      destruct (1 <=? len resp)%nat; [|apply Hd].
      destruct (index (buf rd1) resp 0) as [c|]; [|discriminate].
      destruct (Byte.eqb c x2b); [|apply Hd].
      destruct (waitForResponse fuel rd1 t wd2) as [y|] eqn:H2; [|discriminate].
      intros H Ha.
      assert (Hy : after_wait y = Some (mem, wd')).
      { destruct y; inversion H; subst; exact Ha. }
      pose proof (waitForResponse_window _ _ _ _ _ _ _ H2 Hy).
      specialize (Hx _ _ eq_refl). lia.
    + intros H Ha. inversion H; subst. simpl in Ha. specialize (Hx _ _ Ha). lia.
    + intros H Ha. inversion H; subst. discriminate.
Qed.

Lemma X6_witness :
  exists o mem wd',
    ExecuteCommand 100 (lit "+COPS?") Second Script.w_framed_slow = Some (Return o)
    /\ after o = Some (mem, wd')
    /\ clock wd' = 1200000000
    /\ clock Script.w_framed_slow <= clock wd'
       <= clock Script.w_framed_slow + 2 * Z.max Second 0.
Proof.
  eexists. eexists. eexists.
  match goal with |- ?A /\ _ => assert (H : A) by (vm_compute; reflexivity) end.
  split; [exact H|].
  match goal with |- ?A /\ _ => assert (Ha : A) by reflexivity end.
  split; [exact Ha|].
  split; [reflexivity|].
  exact (X6_returns_in_time _ _ _ _ _ _ _ H Ha).
Defined.





(** ** Lines in the buffer *)

Local Open Scope nat_scope.

Lemma is_lineb_spec (s : bytes) : is_lineb s = true -> is_line s.
Proof.
  unfold is_lineb, is_line. intros H Hin.
  rewrite forallb_forall in H. specialize (H _ Hin).
  vm_compute in H. discriminate.
Qed.

Lemma IndexByte_app (c : byte) (s rest : bytes) :
  ~ In c s -> bytes_.IndexByte (s ++ c :: rest) c = Some (List.length s).
Proof.
  induction s as [|x s IH]; intros Hn; simpl.
  - assert (H : Byte.eqb c c = true) by now apply Byte.byte_dec_lb.
    now rewrite H.
  - destruct (Byte.eqb x c) eqn:Hx.
    + apply Byte.byte_dec_bl in Hx. subst. elim Hn. now left.
    + rewrite IH; [reflexivity|]. intros Hi. apply Hn. now right.
Qed.

Lemma firstn_prefix (n : nat) (l a b : bytes) :
  firstn n l = a ++ b -> firstn (List.length a) l = a.
Proof.
  intros H.
  assert (Hl : List.length a <= n).
  { pose proof (firstn_le_length n l) as Hle. rewrite H, length_app in Hle. lia. }
  rewrite <- (Nat.min_l _ _ Hl), <- firstn_firstn, H.
  rewrite firstn_app, Nat.sub_diag, firstn_all. simpl. apply app_nil_r.
Qed.

Lemma nth_error_sub (mem : bytes) (lo hi j : nat) :
  j < List.length (sub mem lo hi) ->
  nth_error mem (lo + j) = nth_error (sub mem lo hi) j.
Proof.
  unfold sub. intros H. rewrite length_firstn in H.
  rewrite nth_error_firstn.
  destruct (Nat.ltb_spec j (hi - lo)); [|lia].
  now rewrite nth_error_skipn.
Qed.

(** A line that lies in the buffer is found without a read. *)
Lemma ReadSlice_loop_buffered k b wd s rest :
  sub (buf b) (r b) (w b) = s ++ LF :: rest -> ~ In LF s ->
  ReadSlice_loop (S k) LF 0 b wd
  = Some ((mkSlice (r b) (List.length s + 1), None),
          mkReader (buf b) (r b + (List.length s + 1)) (w b) (bufio.err b), wd).
Proof.
  intros H Hn. simpl. rewrite Nat.add_0_r, H, IndexByte_app by exact Hn.
  now rewrite Nat.add_0_r.
Qed.

(** [ReadLine] takes the carriage return and the line feed off the line
    that [ReadSlice] found. *)
Lemma ReadLine_finish b wd r0 s b' wd' :
  ReadSlice LF b wd = Some ((mkSlice r0 (List.length s + 2), None), b', wd') ->
  sub (buf b') r0 (r0 + (List.length s + 2)) = s ++ CRLF ->
  ReadLine b wd = Some ((mkSlice r0 (List.length s), false, None), b', wd')
  /\ view (buf b') (mkSlice r0 (List.length s)) = s.
Proof.
  intros Hs Hm. unfold ReadLine. rewrite Hs. cbn [len off].
  assert (Hlen : List.length (sub (buf b') r0 (r0 + (List.length s + 2)))
                 = List.length s + 2)
    by (rewrite Hm, length_app; reflexivity).
  assert (H1 : last_is (buf b') (mkSlice r0 (List.length s + 2)) 1 LF = true).
  { unfold last_is. cbn [len off].
    replace (r0 + (List.length s + 2) - 1) with (r0 + (List.length s + 1)) by lia.
    rewrite (nth_error_sub _ r0 (r0 + (List.length s + 2))) by lia.
    rewrite Hm, nth_error_app2 by lia.
    replace (List.length s + 1 - List.length s) with 1 by lia. reflexivity. }
  assert (H2 : last_is (buf b') (mkSlice r0 (List.length s + 2)) 2 CR = true).
  { unfold last_is. cbn [len off].
    replace (r0 + (List.length s + 2) - 2) with (r0 + List.length s) by lia.
    rewrite (nth_error_sub _ r0 (r0 + (List.length s + 2))) by lia.
    rewrite Hm, nth_error_app2 by lia.
    rewrite Nat.sub_diag. reflexivity. }
  rewrite H1, H2.
  replace (List.length s + 2 =? 0) with false by (symmetry; apply Nat.eqb_neq; lia).
  replace (1 <? List.length s + 2) with true by (symmetry; apply Nat.ltb_lt; lia).
  cbn [andb]. replace (List.length s + 2 - 2) with (List.length s) by lia.
  split; [reflexivity|].
  unfold view. cbn [off len]. unfold sub in *.
  replace (r0 + List.length s - r0) with (List.length s) by lia.
  eapply firstn_prefix. exact Hm.
Qed.

Lemma In_LF_CR s : ~ In LF s -> ~ In LF (s ++ [CR]).
Proof.
  intros H Hi. apply in_app_or in Hi. destruct Hi as [Hi|[Hi|[]]]; [auto|discriminate].
Qed.

Lemma sub_sub_prefix (mem : bytes) (lo hi n : nat) (a b : bytes) :
  sub mem lo hi = a ++ b -> n = List.length a -> sub mem lo (lo + n) = a.
Proof.
  intros H ->. unfold sub in *.
  replace (lo + List.length a - lo) with (List.length a) by lia.
  eapply firstn_prefix. exact H.
Qed.

(** The line is in the buffer already. *)
Lemma ReadLine_buffered b wd s rest :
  sub (buf b) (r b) (w b) = s ++ CRLF ++ rest -> is_line s ->
  ReadLine b wd
  = Some ((mkSlice (r b) (List.length s), false, None),
          mkReader (buf b) (r b + (List.length s + 2)) (w b) (bufio.err b), wd)
  /\ view (buf b) (mkSlice (r b) (List.length s)) = s.
Proof.
  intros H Hn.
  assert (H' : sub (buf b) (r b) (w b) = (s ++ [CR]) ++ LF :: rest)
    by (rewrite H, <- app_assoc; reflexivity).
  apply (ReadLine_finish b wd (r b) s
           (mkReader (buf b) (r b + (List.length s + 2)) (w b) (bufio.err b)) wd).
  - unfold ReadSlice. cbn [Nat.add].
    rewrite (ReadSlice_loop_buffered _ b wd (s ++ [CR]) rest H' (In_LF_CR s Hn)).
    rewrite length_app. cbn [List.length].
    replace (r b + (List.length s + 1 + 1)) with (r b + (List.length s + 2)) by lia.
    replace (List.length s + 1 + 1) with (List.length s + 2) by lia. reflexivity.
  - cbn [buf]. eapply sub_sub_prefix with (b := rest).
    + rewrite H. rewrite app_assoc. reflexivity.
    + rewrite length_app. reflexivity.
Qed.

Lemma sub_store_0 (mem d : bytes) (j : nat) :
  sub (store mem 0 d) j (List.length d) = skipn j d.
Proof.
  unfold sub, store. cbn [firstn app Nat.add].
  rewrite skipn_app, firstn_app, length_skipn.
  replace (List.length d - j - (List.length d - j)) with 0 by lia.
  rewrite firstn_O, app_nil_r. apply firstn_all2. rewrite length_skipn. lia.
Qed.

Lemma fill_reads_S i b wd :
  fill_reads (S i) b wd
  = let '((d, e), t, p') := Read (port wd) (List.length (buf b) - w b) in
    let wd' := advance (set_port wd p') t in
    let b' := mkReader (store (buf b) (w b) d) (r b)
                       (w b + List.length d) (bufio.err b) in
    match e with
    | Some e' => (mkReader (buf b') (r b') (w b') (Some e'), wd')
    | None => if (0 <? List.length d)%nat then (b', wd')
              else fill_reads i b' wd'
    end.
Proof. reflexivity. Qed.

Lemma ReadSlice_loop_fill k b wd :
  r b = w b -> bufio.err b = None -> (0 < List.length (buf b))%nat ->
  ReadSlice_loop (S k) LF 0 b wd
  = let '(b', wd') := fill b wd in ReadSlice_loop k LF 0 b' wd'.
Proof.
  intros Hrw He Hl. cbn [ReadSlice_loop].
  rewrite Nat.add_0_r, <- Hrw. unfold sub. rewrite Nat.sub_diag.
  cbn [firstn bytes_.IndexByte]. rewrite He. unfold Buffered.
  rewrite <- Hrw, Nat.sub_diag.
  replace (List.length (buf b) <=? 0) with false
    by (symmetry; apply Nat.leb_gt; lia).
  reflexivity.
Qed.

(** Nothing is buffered and the next read brings the line. *)
Lemma ReadLine_from_port b wd ev evs s rest :
  r b = w b -> bufio.err b = None ->
  incoming (port wd) = ev :: evs ->
  data ev = s ++ CRLF ++ rest -> is_line s ->
  List.length (data ev) <= List.length (buf b) ->
  let b' := mkReader (store (buf b) 0 (data ev)) (List.length s + 2)
                     (List.length (data ev)) (rerr ev) in
  let wd' := advance (set_port wd (mkPort evs (idle (port wd))
                                          (wresults (port wd)) (sent (port wd))))
                     (wait ev) in
  ReadLine b wd = Some ((mkSlice 0 (List.length s), false, None), b', wd')
  /\ view (buf b') (mkSlice 0 (List.length s)) = s.
Proof.
  intros Hrw He Hin Hd Hn Hfit b' wd'.
  assert (Hpos : 0 < List.length (data ev))
    by (rewrite Hd, !length_app; simpl; lia).
  (* the reader after [fill] *)
  assert (Hfill : fill b wd
                  = (mkReader (store (buf b) 0 (data ev)) 0
                              (List.length (data ev)) (rerr ev), wd')).
  { unfold fill.
    assert (Hb1 : (if 0 <? r b
                   then mkReader (store (buf b) 0 (sub (buf b) (r b) (w b)))
                                 0 (w b - r b) (bufio.err b)
                   else b) = mkReader (buf b) 0 0 None).
    { destruct (Nat.ltb_spec 0 (r b)).
      - rewrite <- Hrw, Nat.sub_diag, He. unfold sub. rewrite Nat.sub_diag.
        reflexivity.
      - destruct b as [bf rr ww ee]. cbn in *. subst. f_equal; lia. }
    rewrite Hb1. unfold maxConsecutiveEmptyReads. rewrite fill_reads_S.
    cbn [buf w r bufio.err].
    unfold Read. rewrite Hin, Nat.sub_0_r.
    replace (List.length (data ev) <=? List.length (buf b)) with true
      by (symmetry; apply Nat.leb_le; exact Hfit).
    cbn [Nat.add]. destruct (rerr ev); [reflexivity|].
    replace (0 <? List.length (data ev)) with true
      by (symmetry; apply Nat.ltb_lt; exact Hpos).
    reflexivity. }
  assert (Hd' : data ev = (s ++ [CR]) ++ LF :: rest)
    by (rewrite Hd, <- app_assoc; reflexivity).
  apply (ReadLine_finish b wd 0 s b' wd').
  - unfold ReadSlice. cbn [Nat.add].
    rewrite ReadSlice_loop_fill by (try assumption; lia).
    rewrite Hfill.
    match goal with |- context [ReadSlice_loop (S ?k) LF 0 ?b1 ?w1] =>
      rewrite (ReadSlice_loop_buffered k b1 w1 (s ++ [CR]) rest) end.
    + cbn [r w buf bufio.err Nat.add]. rewrite length_app. cbn [List.length].
      replace (List.length s + 1 + 1) with (List.length s + 2) by lia.
      reflexivity.
    + cbn [r w buf]. rewrite sub_store_0. exact Hd'.
    + now apply In_LF_CR.
  - subst b'. cbn [buf].
    eapply sub_sub_prefix with (lo := 0) (hi := List.length (data ev)) (b := rest).
    + rewrite sub_store_0. cbn [skipn]. rewrite Hd, app_assoc. reflexivity.
    + rewrite length_app. reflexivity.
Qed.

Local Open Scope Z_scope.

(** ** Exchanges that succeed *)

(** A framing line and a line arrive in two reads before the deadline:
    the wait hands over the line. *)
Lemma waitForResponse_framed k b t wd d1 d2 s evs :
  drained b -> brings (port wd) d1 d2 s evs -> is_line s ->
  (List.length s + 2 <= List.length (buf b))%nat ->
  Z.of_N d1 + Z.of_N d2 < t ->
  exists b2 wd2,
    waitForResponse (S k) b t wd = Some (Got (mkSlice 0 (List.length s)) b2 wd2)
    /\ view (buf b2) (mkSlice 0 (List.length s)) = s
    /\ drained b2
    /\ List.length (buf b2) = List.length (buf b)
    /\ incoming (port wd2) = evs
    /\ idle (port wd2) = idle (port wd)
    /\ clock wd2 = clock wd + Z.of_N d1 + Z.of_N d2.
Proof.
  intros [Hrw He] Hin Hn Hfit Ht. unfold brings in Hin.
  assert (Hd1 := N2Z.is_nonneg d1). assert (Hd2 := N2Z.is_nonneg d2).
  destruct (ReadLine_from_port b wd (mkRead d1 CRLF None)
              (mkRead d2 (s ++ CRLF) None :: evs) [] [] Hrw He Hin eq_refl)
    as [H1 _].
  { intros []. }
  { cbn [data app]. unfold CRLF. cbn [List.length]. lia. }
  cbn [data rerr wait List.length Nat.add CRLF] in H1.
  match type of H1 with ReadLine _ _ = Some (_, ?x, ?y) =>
    set (b1 := x) in *; set (wd1 := y) in * end.
  assert (Hl1 : List.length (buf b1) = List.length (buf b)).
  { subst b1. cbn [buf]. apply store_length.
    change (List.length CRLF) with 2%nat. lia. }
  destruct (ReadLine_from_port b1 wd1 (mkRead d2 (s ++ CRLF) None) evs s []
              eq_refl eq_refl eq_refl) as [H2 Hv].
  { cbn [data]. now rewrite app_nil_r. }
  { exact Hn. }
  { cbn [data]. rewrite Hl1, length_app.
    change (List.length CRLF) with 2%nat. lia. }
  cbn [data rerr wait] in H2, Hv.
  match type of H2 with ReadLine _ _ = Some (_, ?x, ?y) =>
    exists x, (next_select y) end.
  split.
  - eapply waitForResponse_two_lines; [exact H1|exact H2| | | ];
      subst wd1; cbv [clock set_port advance]; lia.
  - split; [exact Hv|].
    split; [split; cbn [r w bufio.err]; [rewrite length_app; reflexivity|reflexivity]|].
    split.
    { cbn [buf]. rewrite store_length; [exact Hl1|].
      rewrite Hl1, length_app. change (List.length CRLF) with 2%nat. lia. }
    subst wd1. cbv [clock port incoming idle set_port advance next_select].
    repeat split; lia.
Qed.

Lemma NewReader_length : List.length (buf NewReader) = defaultBufSize.
Proof. apply repeat_length. Qed.

Lemma NewReader_drained : drained NewReader.
Proof. split; reflexivity. Qed.

Lemma view_payload mem wd resp okf s :
  view mem resp = s -> len resp = List.length s ->
  payload (mkOutcome resp okf None (Some (mem, wd))) = Some s.
Proof.
  intros Hv Hl. unfold payload. cbn [response after].
  destruct (Nat.eqb_spec (len resp) 0) as [H0|H0].
  - rewrite Hl in H0. destruct s; [reflexivity|discriminate].
  - now rewrite Hv.
Qed.

(** X8.  Any line that does not begin with [+] comes back as it was sent.
    When the port delivers a framing line and then the line [s] with its
    terminator, both within the timeout, [ExecuteCommand] returns [s] as
    payload, without the terminator, a nil error, and [ok] says whether
    [s], trimmed, is [OK]. *)
Theorem X8_status_line_round_trip k cmd t wd d1 d2 s evs :
  hd None (wresults (port wd)) = None ->
  brings (port wd) d1 d2 s evs ->
  is_line s ->
  (List.length s + 2 <= defaultBufSize)%nat ->
  Spec.starts_with_plus s = false ->
  Z.of_N d1 + Z.of_N d2 < t ->
  exists o,
    ExecuteCommand (S k) cmd t wd = Some (Return o)
    /\ payload o = Some s
    /\ ok o = bytes_.Equal (bytes_.TrimSpace s) OkResponseOk
    /\ wavesharecomm.err o = None.
Proof.
  intros Hw Hin Hn Hfit Hp Ht.
  destruct (WriteCommand_ok wd cmd Hw) as (wd1 & Hw1 & Hc & Hsc & Hns & Hi1 & Hi2).
  destruct (waitForResponse_framed k NewReader t wd1 d1 d2 s evs NewReader_drained)
    as (b2 & wd2 & H1 & Hv & _); try assumption.
  { unfold brings in *. congruence. }
  eexists. split.
  - eapply ExecuteCommand_direct; [exact Hw1|exact H1|]. now rewrite Hv.
  - split; [apply view_payload; [exact Hv|reflexivity]|].
    unfold isOk. rewrite Hv. split; reflexivity.
Qed.

Lemma X8_witness :
  brings (port Cases.w_error_status) (Script.ms 10) (Script.ms 10) (lit "ERROR") []
  /\ is_line (lit "ERROR")
  /\ exists o,
      ExecuteCommand 1 CmdStart Second Cases.w_error_status = Some (Return o)
      /\ payload o = Some (lit "ERROR")
      /\ ok o = false
      /\ wavesharecomm.err o = None.
Proof.
  assert (Hb : brings (port Cases.w_error_status) (Script.ms 10) (Script.ms 10)
                      (lit "ERROR") []) by reflexivity.
  assert (Hl : is_line (lit "ERROR")) by (apply is_lineb_spec; reflexivity).
  split; [exact Hb|]. split; [exact Hl|].
  destruct (X8_status_line_round_trip 0 CmdStart Second Cases.w_error_status
              (Script.ms 10) (Script.ms 10) (lit "ERROR") [] eq_refl Hb Hl)
    as (o & H & Hp & Hok & He).
  - apply Nat.leb_le. vm_compute. reflexivity.
  - reflexivity.
  - reflexivity.
  - exists o. split; [exact H|]. split; [exact Hp|].
    split; [rewrite Hok; reflexivity|exact He].
Defined.

(** X10.  The exchange of the wire format, for any payload and status
    line.  When the port delivers, in four reads, a framing line, a line
    [p] beginning with [+], a framing line and a line [s], the first two
    within the timeout of the start and the last two within the timeout of
    the first hand-over, [ExecuteCommand] returns the slice of the first
    [length p] bytes of the buffer, a nil error and [ok] read off [s]; it
    has consumed those four reads and no more, and took the sum of their
    delays. *)
Theorem X10_framed_exchange k cmd t wd d1 d2 d3 d4 p s evs :
  hd None (wresults (port wd)) = None ->
  incoming (port wd)
  = mkRead d1 CRLF None :: mkRead d2 (p ++ CRLF) None
    :: mkRead d3 CRLF None :: mkRead d4 (s ++ CRLF) None :: evs ->
  is_line p -> is_line s ->
  (List.length p + 2 <= defaultBufSize)%nat ->
  (List.length s + 2 <= defaultBufSize)%nat ->
  Spec.starts_with_plus p = true ->
  Z.of_N d1 + Z.of_N d2 < t ->
  Z.of_N d3 + Z.of_N d4 < t ->
  exists o mem wd',
    ExecuteCommand (S k) cmd t wd = Some (Return o)
    /\ response o = mkSlice 0 (List.length p)
    /\ ok o = bytes_.Equal (bytes_.TrimSpace s) OkResponseOk
    /\ wavesharecomm.err o = None
    /\ after o = Some (mem, wd')
    /\ incoming (port wd') = evs
    /\ clock wd' = clock wd + Z.of_N d1 + Z.of_N d2 + Z.of_N d3 + Z.of_N d4.
Proof.
  intros Hw Hin Hnp Hns Hfp Hfs Hp H12 H34.
  destruct (WriteCommand_ok wd cmd Hw) as (wd1 & Hw1 & Hc & Hsc & Hnsel & Hi1 & Hi2).
  destruct (waitForResponse_framed k NewReader t wd1 d1 d2 p
              (mkRead d3 CRLF None :: mkRead d4 (s ++ CRLF) None :: evs)
              NewReader_drained)
    as (b2 & wd2 & H1 & Hv & Hdr & Hl & Hin2 & _ & Hc2); try assumption.
  { unfold brings. congruence. }
  destruct (waitForResponse_framed k b2 t wd2 d3 d4 s evs Hdr)
    as (b3 & wd3 & H2 & Hv3 & _ & _ & Hin3 & _ & Hc3); try assumption.
  { rewrite Hl, NewReader_length. exact Hfs. }
  exists (mkOutcome (mkSlice 0 (List.length p)) (isOk (buf b3) (mkSlice 0 (List.length s)))
                    None (Some (buf b3, wd3))), (buf b3), wd3.
  split.
  - rewrite (ExecuteCommand_continue _ _ _ _ _ _ _ _ Hw1 H1) by now rewrite Hv.
    now rewrite H2.
  - cbn [response ok wavesharecomm.err after]. unfold isOk. rewrite Hv3.
    repeat split; try assumption. lia.
Qed.

Lemma X10_witness :
  exists o mem wd',
    ExecuteCommand 1 (lit "+COPS?") Second Script.w_framed = Some (Return o)
    /\ response o = mkSlice 0 (List.length Script.cops)
    /\ ok o = true
    /\ wavesharecomm.err o = None
    /\ after o = Some (mem, wd')
    /\ incoming (port wd') = []
    /\ clock wd' = 40000000.
Proof.
  destruct (X10_framed_exchange 0 (lit "+COPS?") Second Script.w_framed
              (Script.ms 10) (Script.ms 10) (Script.ms 10) (Script.ms 10)
              Script.cops (lit "OK") [] eq_refl eq_refl)
    as (o & mem & wd' & H & Hr & Hok & He & Ha & Hi & Hc).
  - apply is_lineb_spec. reflexivity.
  - apply is_lineb_spec. reflexivity.
  - apply Nat.leb_le. vm_compute. reflexivity.
  - apply Nat.leb_le. vm_compute. reflexivity.
  - reflexivity.
  - reflexivity.
  - reflexivity.
  - exists o, mem, wd'. split; [exact H|]. split; [exact Hr|].
    split; [rewrite Hok; reflexivity|]. split; [exact He|].
    split; [exact Ha|]. split; [exact Hi|]. rewrite Hc. reflexivity.
Defined.

Lemma is_line_nil : is_line [].
Proof. intros []. Qed.

(** A framing line and a line lie in the buffer: the wait hands over the
    line at once, without a read. *)
Lemma waitForResponse_buffered k b t wd s more :
  sub (buf b) (r b) (w b) = CRLF ++ s ++ CRLF ++ more -> is_line s ->
  0 < t ->
  waitForResponse (S k) b t wd
  = Some (Got (mkSlice (r b + 2) (List.length s))
              (mkReader (buf b) (r b + 2 + (List.length s + 2)) (w b) (bufio.err b))
              (next_select wd))
  /\ view (buf b) (mkSlice (r b + 2) (List.length s)) = s.
Proof.
  intros H Hn Ht.
  destruct (ReadLine_buffered b wd [] (s ++ CRLF ++ more) H is_line_nil) as [H1 _].
  cbn [List.length Nat.add] in H1.
  match type of H1 with ReadLine _ _ = Some (_, ?x, _) => set (b1 := x) in * end.
  assert (Hs1 : sub (buf b1) (r b1) (w b1) = s ++ CRLF ++ more).
  { subst b1. cbn [buf r w]. unfold sub in *.
    assert (Hlen : List.length (firstn (w b - r b) (skipn (r b) (buf b)))
                   = (2 + List.length (s ++ CRLF ++ more))%nat)
      by (rewrite H; reflexivity).
    rewrite length_firstn, length_skipn in Hlen.
    replace (w b - (r b + 2))%nat with (w b - r b - 2)%nat by lia.
    replace (r b + 2)%nat with (2 + r b)%nat by lia.
    rewrite <- (skipn_skipn 2 (r b)), firstn_skipn_comm.
    replace (2 + (w b - r b - 2))%nat with (w b - r b)%nat by lia.
    rewrite H. reflexivity. }
  destruct (ReadLine_buffered b1 wd s more Hs1 Hn) as [H2 Hv].
  split.
  - rewrite (waitForResponse_two_lines k b t wd _ _ _ _ _ _ _ _ H1 H2); try lia.
    reflexivity.
  - exact Hv.
Qed.

(** A framing line and a line arrive in one read before the deadline. *)
Lemma waitForResponse_one_read k b t wd ev evs s more :
  drained b -> incoming (port wd) = ev :: evs ->
  data ev = CRLF ++ s ++ CRLF ++ more -> is_line s ->
  (List.length (data ev) <= List.length (buf b))%nat ->
  Z.of_N (wait ev) < t ->
  exists b2 wd2,
    waitForResponse (S k) b t wd = Some (Got (mkSlice 2 (List.length s)) b2 wd2)
    /\ view (buf b2) (mkSlice 2 (List.length s)) = s
    /\ sub (buf b2) (r b2) (w b2) = more
    /\ incoming (port wd2) = evs
    /\ idle (port wd2) = idle (port wd)
    /\ wresults (port wd2) = wresults (port wd)
    /\ sched wd2 = sched wd
    /\ clock wd2 = clock wd + Z.of_N (wait ev).
Proof.
  intros [Hrw He] Hin Hd Hn Hfit Ht.
  assert (Hd0 := N2Z.is_nonneg (wait ev)).
  destruct (ReadLine_from_port b wd ev evs [] (s ++ CRLF ++ more) Hrw He Hin Hd
              is_line_nil Hfit) as [H1 _].
  cbn [List.length Nat.add] in H1.
  match type of H1 with ReadLine _ _ = Some (_, ?x, ?y) =>
    set (b1 := x) in *; set (wd1 := y) in * end.
  assert (Hs1 : sub (buf b1) (r b1) (w b1) = s ++ CRLF ++ more).
  { subst b1. cbn [buf r w]. rewrite sub_store_0, Hd. reflexivity. }
  destruct (ReadLine_buffered b1 wd1 s more Hs1 Hn) as [H2 Hv].
  do 2 eexists. split.
  - eapply waitForResponse_two_lines; [exact H1|exact H2| | | ];
      subst wd1; cbv [clock set_port advance]; lia.
  - split; [exact Hv|].
    split.
    { cbn [buf r w]. subst b1. cbn [buf r w]. rewrite sub_store_0, Hd.
      replace (2 + (List.length s + 2))%nat with (2 + List.length s + 2)%nat by lia.
      change (CRLF ++ s ++ CRLF ++ more) with (CR :: LF :: s ++ CRLF ++ more).
      cbn [Nat.add skipn]. rewrite skipn_app, skipn_all2 by lia.
      replace (List.length s + 2 - List.length s)%nat with 2%nat by lia.
      reflexivity. }
    subst wd1. cbv [clock port incoming idle wresults sched set_port advance next_select].
    repeat split; lia.
Qed.

(** X9.  When the whole answer arrives in one read (framing line, a
    payload beginning with [+], framing line, status line, and whatever
    follows), the second wait is served from the buffer, without a read:
    the call has consumed that one read of the port and no more, it took
    the delay of that read and no longer, the payload comes back intact,
    the error is nil and [ok] is read off the status line. *)
Theorem X9_exchange_in_one_read k cmd t wd ev evs p s more :
  hd None (wresults (port wd)) = None ->
  incoming (port wd) = ev :: evs ->
  data ev = CRLF ++ p ++ CRLF ++ CRLF ++ s ++ CRLF ++ more ->
  is_line p -> is_line s ->
  (List.length (data ev) <= defaultBufSize)%nat ->
  Spec.starts_with_plus p = true ->
  Z.of_N (wait ev) < t ->
  exists o mem wd',
    ExecuteCommand (S k) cmd t wd = Some (Return o)
    /\ payload o = Some p
    /\ ok o = bytes_.Equal (bytes_.TrimSpace s) OkResponseOk
    /\ wavesharecomm.err o = None
    /\ after o = Some (mem, wd')
    /\ incoming (port wd') = evs
    /\ clock wd' = clock wd + Z.of_N (wait ev).
Proof.
  intros Hw Hin Hd Hnp Hns Hfit Hp Ht.
  assert (Hd0 := N2Z.is_nonneg (wait ev)).
  destruct (WriteCommand_ok wd cmd Hw) as (wd1 & Hw1 & Hc & Hsc & Hnsel & Hi1 & Hi2).
  destruct (waitForResponse_one_read k NewReader t wd1 ev evs p
              (CRLF ++ s ++ CRLF ++ more) NewReader_drained)
    as (b2 & wd2 & H1 & Hv & Hrest & Hin2 & _ & _ & _ & Hc2); try assumption.
  { congruence. }
  destruct (waitForResponse_buffered k b2 t wd2 s more Hrest Hns) as [H2 Hv2]; [lia|].
  eexists. eexists. eexists. split.
  - rewrite (ExecuteCommand_continue _ _ _ _ _ _ _ _ Hw1 H1) by now rewrite Hv.
    rewrite H2. reflexivity.
  - split; [apply view_payload; [exact Hv|reflexivity]|].
    unfold isOk. cbn [buf]. rewrite Hv2.
    split; [reflexivity|]. split; [reflexivity|]. split; [reflexivity|].
    cbn [port clock next_select]. split; [exact Hin2|]. rewrite Hc2, Hc. reflexivity.
Qed.

Lemma X9_witness :
  exists o mem wd',
    ExecuteCommand 1 (lit "+COPS?") Second Cases.w_one_read = Some (Return o)
    /\ payload o = Some Script.cops
    /\ ok o = true
    /\ wavesharecomm.err o = None
    /\ after o = Some (mem, wd')
    /\ incoming (port wd') = []
    /\ clock wd' = 10000000.
Proof.
  destruct (X9_exchange_in_one_read 0 (lit "+COPS?") Second Cases.w_one_read
              (Script.after_ms 10 Cases.one_read) [] Script.cops (lit "OK") []
              eq_refl eq_refl eq_refl)
    as (o & mem & wd' & H & Hp & Hok & He & Ha & Hi & Hc).
  - apply is_lineb_spec. reflexivity.
  - apply is_lineb_spec. reflexivity.
  - apply Nat.leb_le. vm_compute. reflexivity.
  - reflexivity.
  - reflexivity.
  - exists o, mem, wd'. split; [exact H|]. split; [exact Hp|].
    split; [rewrite Hok; reflexivity|]. split; [exact He|].
    split; [exact Ha|]. split; [exact Hi|]. rewrite Hc. reflexivity.
Defined.

(** ** Slices lie in the buffer *)

Local Open Scope nat_scope.

(** The slice [ReadSlice] returns lies in the buffer. *)
Lemma IndexByte_lt (l : bytes) (c : byte) (i : nat) :
  bytes_.IndexByte l c = Some i -> i < List.length l.
Proof.
  revert i. induction l as [|x l IH]; intros i H; simpl in H; [discriminate|].
  destruct (Byte.eqb x c); [inversion H; simpl; lia|].
  destruct (bytes_.IndexByte l c) as [j|]; [|discriminate].
  inversion H; subst. specialize (IH j eq_refl). simpl. lia.
Qed.


Lemma ReadSlice_loop_bounds fuel : forall delim s b wd line e b' wd',
  wf b ->
  ReadSlice_loop fuel delim s b wd = Some ((line, e), b', wd') ->
  wf b' /\ List.length (buf b') = List.length (buf b) /\ within b' line
  /\ (len line <= r b')%nat.
Proof.
  induction fuel as [|k IH]; intros delim s b wd line e b' wd' Hwf H; simpl in H.
  - discriminate.
  - destruct (bytes_.IndexByte _ _) as [i|] eqn:Hi.
    + apply IndexByte_lt in Hi. unfold sub in Hi.
      rewrite length_firstn, length_skipn in Hi.
      inversion H; subst. destruct Hwf as [Hr Hw].
      unfold wf, within. cbn [r w buf off len]. repeat split; lia.
    + destruct (bufio.err b) as [e0|] eqn:He.
      * inversion H; subst. destruct Hwf as [Hr Hw].
        unfold wf, within. cbn [r w buf off len]. repeat split; lia.
      * destruct (Nat.leb_spec (List.length (buf b)) (Buffered b)) as [Hfull|Hroom].
        -- inversion H; subst. destruct Hwf as [Hr Hw]. unfold Buffered in Hfull.
           unfold wf, within. cbn [r w buf off len]. repeat split; lia.
        -- pose proof (fill_spec b wd Hwf) as (Hwf' & Hlen & _).
           destruct (fill b wd) as [b1 wd1]. cbn [fst] in *.
           destruct (IH _ _ _ _ _ _ _ _ Hwf' H) as (H1 & H2 & H3 & H4).
           repeat split; try apply H1; try assumption. congruence.
Qed.

Lemma ReadLine_bounds b wd line p e b' wd' :
  wf b ->
  ReadLine b wd = Some ((line, p, e), b', wd') ->
  wf b' /\ List.length (buf b') = List.length (buf b) /\ within b' line.
Proof.
  intros Hwf. unfold ReadLine, ReadSlice.
  destruct (ReadSlice_loop _ _ _ _ _) as [[[[l e0] b1] wd1]|] eqn:Hs; [|discriminate].
  destruct (ReadSlice_loop_bounds _ _ _ _ _ _ _ _ _ Hwf Hs) as (Hw1 & Hl1 & Hin & Hr1).
  assert (Hempty : within b1 empty) by (unfold within, empty; cbn; lia).
  assert (Hdrop : forall d, within b1 (mkSlice (off l) (len l - d)))
    by (intros d; unfold within in *; cbn [off len]; lia).
  intros H.
  destruct e0 as [[]|];
    repeat match type of H with
           | context [if ?c then _ else _] => destruct c eqn:?
           end;
    inversion H; subst; repeat split;
      try apply Hw1; try assumption; try apply Hdrop;
      cbn [r w buf]; destruct Hw1; lia.
Qed.

Lemma readLineIgnoreEof_bounds fuel : forall ctx b wd line e b' wd',
  wf b ->
  readLineIgnoreEof fuel ctx b wd = Some ((line, e), b', wd') ->
  wf b' /\ List.length (buf b') = List.length (buf b) /\ within b' line.
Proof.
  induction fuel as [|k IH]; intros ctx b wd line e b' wd' Hwf H; simpl in H.
  - discriminate.
  - destruct (Done ctx (clock wd)).
    + inversion H; subst. repeat split; try apply Hwf.
      unfold within, empty; cbn; lia.
    + destruct (ReadLine b wd) as [[[[[l p] e0] b1] wd1]|] eqn:Hr; [|discriminate].
      destruct (ReadLine_bounds _ _ _ _ _ _ _ Hwf Hr) as (Hw1 & Hl1 & Hin).
      destruct e0 as [[]|]; try (inversion H; subst; repeat split;
                                 try apply Hw1; assumption).
      destruct (IH _ _ _ _ _ _ _ Hw1 H) as (H1 & H2 & H3).
      repeat split; try apply H1; try assumption. congruence.
Qed.

Lemma goWaitForResponse_bounds fuel b ctx wd msg b' wd' :
  wf b ->
  goWaitForResponse fuel b ctx wd = Some (msg, b', wd') ->
  wf b' /\ List.length (buf b') = List.length (buf b)
  /\ (forall line, msg = Some line -> within b' line).
Proof.
  intros Hwf. unfold goWaitForResponse.
  destruct (Done _ _).
  { intros H. inversion H; subst. repeat split; try apply Hwf. discriminate. }
  destruct (readLineIgnoreEof fuel _ b wd) as [[[[l1 e1] r1] w1]|] eqn:H1;
    [|discriminate].
  destruct (readLineIgnoreEof_bounds _ _ _ _ _ _ _ _ Hwf H1) as (Hw1 & Hl1 & _).
  destruct e1.
  { intros H. inversion H; subst. repeat split; try apply Hw1; try assumption.
    discriminate. }
  destruct (readLineIgnoreEof fuel _ r1 w1) as [[[[l2 e2] r2] w2]|] eqn:H2;
    [|discriminate].
  destruct (readLineIgnoreEof_bounds _ _ _ _ _ _ _ _ Hw1 H2) as (Hw2 & Hl2 & Hin).
  intros H. inversion H; subst. repeat split; try apply Hw2; try congruence;
    try (intros line Hl; inversion Hl; subst; exact Hin).
Qed.

Lemma waitForResponse_bounds fuel b t wd x :
  wf b ->
  waitForResponse fuel b t wd = Some x ->
  match x with
  | Got resp b' _ =>
      wf b' /\ List.length (buf b') = List.length (buf b) /\ within b' resp
  | Closed b' _ => wf b' /\ List.length (buf b') = List.length (buf b)
  | TimedOut => True
  end.
Proof.
  intros Hwf H.
  destruct (waitForResponse_inv _ _ _ _ _ H) as (msg & b1 & wd1 & Hg & [->|[_ ->]]);
    [exact I|].
  destruct (goWaitForResponse_bounds _ _ _ _ _ _ _ Hwf Hg) as (H1 & H2 & H3).
  destruct msg as [line|]; repeat split; try apply H1; try assumption.
  now apply H3.
Qed.

(** X12.  The payload is a slice of the reader's buffer: it is never
    longer than the 4096 bytes of the buffer, and a non-empty payload lies
    inside the buffer that comes back with it. *)
Theorem X12_payload_fits_buffer fuel cmd t wd o :
  ExecuteCommand fuel cmd t wd = Some (Return o) ->
  (len (response o) <= defaultBufSize)%nat
  /\ (forall mem wd', after o = Some (mem, wd') ->
      (1 <= len (response o))%nat ->
      List.length mem = defaultBufSize
      /\ (off (response o) + len (response o) <= defaultBufSize)%nat).
Proof.
  unfold ExecuteCommand.
  destruct (WriteCommand wd cmd) as [[e|] wd1].
  - intros H. inversion H; subst. cbn. split; [lia|]. intros; lia.
  - destruct (waitForResponse fuel NewReader t wd1) as [x|] eqn:H1; [|discriminate].
    pose proof (waitForResponse_bounds _ _ _ _ _ NewReader_wf H1) as Hb.
    rewrite NewReader_length in Hb.
    destruct x as [resp rd1 wd2|rd1 wd2|].
    + destruct Hb as (Hw1 & Hl1 & Hin). unfold within in Hin.
      assert (Hd : forall okf,
                 Some (Return (mkOutcome resp okf None (Some (buf rd1, wd2))))
                 = Some (Return o) ->
                 (len (response o) <= defaultBufSize)%nat
                 /\ (forall mem wd', after o = Some (mem, wd') ->
                     (1 <= len (response o))%nat ->
                     List.length mem = defaultBufSize
                     /\ (off (response o) + len (response o) <= defaultBufSize)%nat)).
      { intros okf Ho. inversion Ho; subst. cbn [response after]. split; [lia|].
        intros mem wd' Ha _. inversion Ha; subst. split; [exact Hl1|lia]. }
      destruct (1 <=? len resp)%nat; [|apply Hd].
      destruct (index (buf rd1) resp 0) as [c|]; [|discriminate].
      destruct (Byte.eqb c x2b); [|apply Hd].
      destruct (waitForResponse fuel rd1 t wd2) as [y|] eqn:H2; [|discriminate].
      pose proof (waitForResponse_bounds _ _ _ _ _ Hw1 H2) as Hb2.
      destruct y as [r2 rd2 wd3|rd2 wd3|]; intros H; inversion H; subst;
        cbn [response after after_wait]; (split; [lia|]);
        intros mem wd' Ha _; inversion Ha; subst.
      * destruct Hb2 as (_ & Hl2 & _). split; [congruence|lia].
      * destruct Hb2 as (_ & Hl2). split; [congruence|lia].
    + intros H. inversion H; subst. cbn. split; [lia|]. intros; lia.
    + intros H. inversion H; subst. cbn. split; [lia|]. intros; lia.
Qed.

Lemma X12_witness :
  exists o,
    ExecuteCommand 100 (lit "+COPS?") Second Script.w_framed = Some (Return o)
    /\ (len (response o) <= defaultBufSize)%nat.
Proof.
  eexists.
  match goal with |- ?A /\ _ => assert (H : A) by (vm_compute; reflexivity) end.
  split; [exact H|].
  exact (proj1 (X12_payload_fits_buffer _ _ _ _ _ H)).
Defined.

Local Open Scope Z_scope.

(** ** What a call leaves of the world *)

Lemma quiet_refl wd : quiet wd wd.
Proof. repeat split. Qed.

Lemma quiet_trans a b c : quiet a b -> quiet b c -> quiet a c.
Proof. unfold quiet. intuition congruence. Qed.

Lemma fill_reads_quiet i : forall b wd, quiet wd (snd (fill_reads i b wd)).
Proof.
  induction i as [|i IH]; intros b wd; [apply quiet_refl|].
  rewrite fill_reads_S. unfold Read.
  assert (Hq : forall p' t,
             wresults p' = wresults (port wd) -> idle p' = idle (port wd) ->
             quiet wd (advance (set_port wd p') t))
    by (intros p' t H1 H2; repeat split; assumption).
  destruct (incoming (port wd)) as [|ev evs];
    match goal with |- context [(List.length ?d <=? ?n)%nat] =>
      destruct (List.length d <=? n)%nat end;
    cbv zeta;
    repeat match goal with
           | |- context [match ?e with Some _ => _ | None => _ end] => destruct e
           | |- context [if ?c then _ else _] => destruct c
           end;
    cbn [snd]; try (apply Hq; reflexivity);
    (eapply quiet_trans; [|apply IH]); apply Hq; reflexivity.
Qed.

Lemma ReadSlice_loop_quiet fuel : forall delim s b wd res b' wd',
  ReadSlice_loop fuel delim s b wd = Some (res, b', wd') -> quiet wd wd'.
Proof.
  induction fuel as [|k IH]; intros delim s b wd res b' wd' H; simpl in H.
  - discriminate.
  - destruct (bytes_.IndexByte _ _).
    + inversion H; subst. apply quiet_refl.
    + destruct (bufio.err b).
      * inversion H; subst. apply quiet_refl.
      * destruct (_ <=? _)%nat.
        -- inversion H; subst. apply quiet_refl.
        -- destruct (fill b wd) as [b1 wd1] eqn:Hf.
           apply IH in H. eapply quiet_trans; [|exact H].
           change wd1 with (snd (b1, wd1)). rewrite <- Hf. apply fill_reads_quiet.
Qed.

Lemma ReadLine_quiet b wd res b' wd' :
  ReadLine b wd = Some (res, b', wd') -> quiet wd wd'.
Proof.
  unfold ReadLine, ReadSlice.
  destruct (ReadSlice_loop _ _ _ _ _) as [[[[line e] b1] wd1]|] eqn:Hs;
    [|discriminate].
  apply ReadSlice_loop_quiet in Hs. intros H.
  assert (wd' = wd1); [|subst; exact Hs].
  destruct e as [[]|];
    repeat match type of H with
           | context [if ?c then _ else _] => destruct c
           end; now inversion H.
Qed.

Lemma readLineIgnoreEof_quiet fuel : forall ctx b wd res b' wd',
  readLineIgnoreEof fuel ctx b wd = Some (res, b', wd') -> quiet wd wd'.
Proof.
  induction fuel as [|k IH]; intros ctx b wd res b' wd' H; simpl in H.
  - discriminate.
  - destruct (Done ctx (clock wd)); [inversion H; subst; apply quiet_refl|].
    destruct (ReadLine b wd) as [[[[[l p] e] b1] wd1]|] eqn:Hr; [|discriminate].
    apply ReadLine_quiet in Hr.
    destruct e as [[]|]; try (inversion H; subst; exact Hr).
    apply IH in H. eapply quiet_trans; eassumption.
Qed.

(** What a wait adds to the log: nothing, or the one read error of its
    worker. *)
Lemma waitForResponse_logged fuel b t wd x mem wd' :
  waitForResponse fuel b t wd = Some x ->
  after_wait x = Some (mem, wd') ->
  (exists errs, logged wd' = logged wd ++ map LogReadError errs
                /\ (List.length errs <= 1)%nat)
  /\ wresults (port wd') = wresults (port wd)
  /\ idle (port wd') = idle (port wd).
Proof.
  intros H Ha.
  destruct (waitForResponse_inv _ _ _ _ _ H) as (msg & b1 & wd1 & Hg & [->|[_ ->]]);
    [discriminate|].
  assert (wd' = next_select wd1) by (destruct msg; simpl in Ha; congruence).
  subst wd'. cbn [logged port next_select]. clear Ha H.
  unfold goWaitForResponse in Hg.
  destruct (Done _ _).
  { inversion Hg; subst. split; [exists []; rewrite app_nil_r; auto|]. auto. }
  destruct (readLineIgnoreEof fuel _ b wd) as [[[[l1 e1] r1] w1]|] eqn:H1;
    [|discriminate].
  apply readLineIgnoreEof_quiet in H1. destruct H1 as (Q1 & _ & _ & Q4 & Q5).
  destruct e1 as [e1|].
  { inversion Hg; subst. cbn [logged port log_Printf].
    split; [exists [e1]; rewrite Q1; auto|]. auto. }
  destruct (readLineIgnoreEof fuel _ r1 w1) as [[[[l2 e2] r2] w2]|] eqn:H2;
    [|discriminate].
  apply readLineIgnoreEof_quiet in H2. destruct H2 as (R1 & _ & _ & R4 & R5).
  inversion Hg; subst. destruct e2 as [e2|]; cbn [logged port log_Printf].
  - split; [exists [e2]; rewrite R1, Q1; auto|]. split; congruence.
  - split; [exists []; rewrite R1, Q1, app_nil_r; auto|]. split; congruence.
Qed.

(** X13.  What a call that returns with its workers finished leaves behind,
    apart from the bytes it read.  The log grows by the line of the
    command sent and then by at most two lines of read errors, one for
    each wait; the port has used up the result of one write; what the
    port reports when nothing arrives is unchanged. *)
Theorem X13_log_and_write_results fuel cmd t wd o mem wd' :
  ExecuteCommand fuel cmd t wd = Some (Return o) ->
  after o = Some (mem, wd') ->
  (exists errs,
      logged wd' = logged wd ++ LogSending (frame_of cmd) :: map LogReadError errs
      /\ (List.length errs <= 2)%nat)
  /\ wresults (port wd') = tl (wresults (port wd))
  /\ idle (port wd') = idle (port wd).
Proof.
  unfold ExecuteCommand.
  assert (Hw : logged (snd (WriteCommand wd cmd))
               = logged wd ++ [LogSending (frame_of cmd)]
               /\ wresults (port (snd (WriteCommand wd cmd))) = tl (wresults (port wd))
               /\ idle (port (snd (WriteCommand wd cmd))) = idle (port wd)).
  { unfold WriteCommand, Write. cbn [port log_Printf].
    destruct (wresults (port wd)); repeat split. }
  destruct (WriteCommand wd cmd) as [[e|] wd1]; cbn [snd] in Hw;
    destruct Hw as (HL & HW & HI).
  - intros H Ha. inversion H; subst. simpl in Ha. inversion Ha; subst.
    split; [exists []; rewrite HL; auto|]. auto.
  - destruct (waitForResponse fuel NewReader t wd1) as [x|] eqn:H1; [|discriminate].
    assert (Hx : forall m w, after_wait x = Some (m, w) ->
                 (exists errs, logged w = logged wd ++ LogSending (frame_of cmd)
                                          :: map LogReadError errs
                               /\ (List.length errs <= 1)%nat)
                 /\ wresults (port w) = tl (wresults (port wd))
                 /\ idle (port w) = idle (port wd)).
    { intros m w Hm.
      destruct (waitForResponse_logged _ _ _ _ _ _ _ H1 Hm) as ((errs & Hl & Hn) & A & B).
      split; [exists errs; rewrite Hl, HL, <- app_assoc; auto|]. split; congruence. }
    assert (Hweak : forall m w, after_wait x = Some (m, w) ->
                 (exists errs, logged w = logged wd ++ LogSending (frame_of cmd)
                                          :: map LogReadError errs
                               /\ (List.length errs <= 2)%nat)
                 /\ wresults (port w) = tl (wresults (port wd))
                 /\ idle (port w) = idle (port wd)).
    { intros m w Hm. destruct (Hx m w Hm) as ((errs & Hl & Hn) & A & B).
      split; [exists errs; split; [exact Hl|lia]|]. auto. }
    destruct x as [resp rd1 wd2|rd1 wd2|].
    + match goal with |- _ -> _ -> ?G =>
        assert (Hd : forall okf,
                 Some (Return (mkOutcome resp okf None (Some (buf rd1, wd2))))
                 = Some (Return o) ->
                 after o = Some (mem, wd') -> G) end.
      { intros okf Ho Ha. inversion Ho; subst. simpl in Ha. inversion Ha; subst.
        exact (Hweak _ _ eq_refl). }
      destruct (1 <=? len resp)%nat; [|apply Hd].
      destruct (index (buf rd1) resp 0) as [c|]; [|discriminate].
      destruct (Byte.eqb c x2b); [|apply Hd].
      destruct (waitForResponse fuel rd1 t wd2) as [y|] eqn:H2; [|discriminate].
      intros H Ha.
      assert (Hy : after_wait y = Some (mem, wd')).
      { destruct y; inversion H; subst; exact Ha. }
      destruct (waitForResponse_logged _ _ _ _ _ _ _ H2 Hy) as ((e2 & Hl2 & Hn2) & A2 & B2).
      destruct (Hx _ _ eq_refl) as ((e1 & Hl1 & Hn1) & A1 & B1).
      split; [|split; congruence].
      exists (e1 ++ e2). rewrite Hl2, Hl1, map_app, length_app, <- app_assoc.
      split; [reflexivity|lia].
    + intros H Ha. inversion H; subst. simpl in Ha. exact (Hweak _ _ Ha).
    + intros H Ha. inversion H; subst. discriminate.
Qed.

Lemma X13_witness :
  exists o mem wd',
    ExecuteCommand 100 CmdStart Second Script.w_broken_payload = Some (Return o)
    /\ after o = Some (mem, wd')
    /\ logged wd' = [LogSending (lit "AT" ++ CRLF); LogReadError (ErrPort 5)]
    /\ exists errs,
        logged wd'
        = logged Script.w_broken_payload
          ++ LogSending (frame_of CmdStart) :: map LogReadError errs
        /\ (List.length errs <= 2)%nat.
Proof.
  eexists. eexists. eexists.
  match goal with |- ?A /\ _ => assert (H : A) by (vm_compute; reflexivity) end.
  split; [exact H|].
  match goal with |- ?A /\ _ => assert (Ha : A) by reflexivity end.
  split; [exact Ha|].
  split; [reflexivity|].
  exact (proj1 (X13_log_and_write_results _ _ _ _ _ _ _ H Ha)).
Defined.

(** ** From one call to the next *)

Lemma WriteCommand_wresults wd cmd :
  wresults (port (snd (WriteCommand wd cmd))) = tl (wresults (port wd)).
Proof.
  unfold WriteCommand, Write. cbn [port log_Printf].
  destruct (wresults (port wd)); reflexivity.
Qed.

(** On a silent port [ExecuteCommand] gets no response. *)
Lemma ExecuteCommand_on_silent_port (k : N) (cmd : bytes) (t : Z) (wd : World)
      (fuel : nat) :
  (0 < k)%N -> silent k (port wd) -> hd None (wresults (port wd)) = None ->
  (polls t k < fuel)%nat ->
  exists e aft,
    ExecuteCommand fuel cmd t wd
    = Some (Return (mkOutcome empty false (Some (errResponse e)) aft))
    /\ (e = errTimeout \/ e = errClosed).
Proof.
  intros Hk [Hin Hid] Hw Hf.
  destruct (WriteCommand_ok wd cmd Hw) as (wd1 & Hw1 & Hc & Hsc & Hns & Hi1 & Hi2).
  assert (Hs1 : silent k (port wd1)) by (split; congruence).
  destruct (waitForResponse_silent _ k t wd1 defaultBuf_not_nil Hk Hs1 fuel Hf)
    as (x & Hx & Hr & He & _).
  unfold ExecuteCommand. rewrite Hw1, NewReader_fresh, Hx.
  destruct x as [resp rd' wd'|rd' wd'|]; cbn [w_response w_err] in *.
  - destruct He; discriminate.
  - exists errClosed. eexists. split; [reflexivity|now right].
  - exists errTimeout. eexists. split; [reflexivity|now left].
Qed.

(** X11.  What one call read ahead is lost to the next.  Every call makes
    a reader of its own, so when a read brings the status line of a
    command together with bytes that follow it, the call returns the
    status line, and the next call on the same port, on which nothing
    more arrives, fails with the timeout or closed-channel error, whatever
    those bytes were. *)
Theorem X11_read_ahead_is_lost fuel cmd1 cmd2 t wd ev s more k :
  hd None (wresults (port wd)) = None ->
  hd None (tl (wresults (port wd))) = None ->
  incoming (port wd) = [ev] ->
  idle (port wd) = mkRead k [] (Some EOF) ->
  (0 < k)%N ->
  data ev = CRLF ++ s ++ CRLF ++ more ->
  is_line s ->
  Spec.starts_with_plus s = false ->
  (List.length (data ev) <= defaultBufSize)%nat ->
  Z.of_N (wait ev) < t ->
  (polls t k < fuel)%nat ->
  exists o1 mem wd1 o2 e,
    ExecuteCommand fuel cmd1 t wd = Some (Return o1)
    /\ payload o1 = Some s
    /\ wavesharecomm.err o1 = None
    /\ after o1 = Some (mem, wd1)
    /\ ExecuteCommand fuel cmd2 t wd1 = Some (Return o2)
    /\ response o2 = empty
    /\ ok o2 = false
    /\ wavesharecomm.err o2 = Some (errResponse e)
    /\ (e = errTimeout \/ e = errClosed).
Proof.
  intros Hw Hw2 Hin Hid Hk Hd Hn Hp Hfit Ht Hf.
  destruct fuel as [|f]; [lia|].
  destruct (WriteCommand_ok wd cmd1 Hw) as (wd0 & Hw0 & Hc & Hsc & Hns & Hi1 & Hi2).
  pose proof (WriteCommand_wresults wd cmd1) as Hwr. rewrite Hw0 in Hwr.
  cbn [snd] in Hwr.
  destruct (waitForResponse_one_read f NewReader t wd0 ev [] s more
              NewReader_drained)
    as (b2 & wd2 & H1 & Hv & _ & Hin2 & Hid2 & Hwr2 & _); try assumption.
  { congruence. }
  destruct (ExecuteCommand_on_silent_port k cmd2 t wd2 (S f) Hk)
    as (e & aft & H2 & He).
  { split; congruence. }
  { congruence. }
  { exact Hf. }
  do 5 eexists. split.
  - eapply ExecuteCommand_direct; [exact Hw0|exact H1|]. now rewrite Hv.
  - split; [apply view_payload; [exact Hv|reflexivity]|].
    split; [reflexivity|]. split; [reflexivity|].
    split; [exact H2|]. repeat split. exact He.
Qed.

Lemma X11_witness :
  exists o1 mem wd1 o2 e,
    ExecuteCommand 20 CmdStart Second Cases.w_read_ahead = Some (Return o1)
    /\ payload o1 = Some (lit "OK")
    /\ wavesharecomm.err o1 = None
    /\ after o1 = Some (mem, wd1)
    /\ ExecuteCommand 20 (lit "+COPS?") Second wd1 = Some (Return o2)
    /\ response o2 = empty
    /\ ok o2 = false
    /\ wavesharecomm.err o2 = Some (errResponse e)
    /\ (e = errTimeout \/ e = errClosed).
Proof.
  refine (X11_read_ahead_is_lost 20 CmdStart (lit "+COPS?") Second
            Cases.w_read_ahead
            (Script.after_ms 10 (CRLF ++ lit "OK" ++ CRLF ++ Cases.one_read))
            (lit "OK") Cases.one_read (Script.ms 100)
            eq_refl eq_refl eq_refl eq_refl eq_refl eq_refl _ eq_refl _ eq_refl _).
  - apply is_lineb_spec. reflexivity.
  - apply Nat.leb_le. vm_compute. reflexivity.
  - apply Nat.ltb_lt. vm_compute. reflexivity.
Defined.

(** X4.  One call writes one frame.  Whatever the waits read, when the
    call returns with its workers finished (any return but a timeout taken
    at the deadline), the port has received the frame of the command and
    nothing else. *)
Theorem X4_reading_never_writes fuel cmd t wd o mem wd' :
  ExecuteCommand fuel cmd t wd = Some (Return o) ->
  after o = Some (mem, wd') ->
  sent (port wd') = sent (port wd) ++ [frame_of cmd].
Proof.
  apply ExecuteCommand_sent.
Qed.

Lemma X4_witness :
  exists o mem wd',
    ExecuteCommand 100 (lit "+COPS?") Second Script.w_framed = Some (Return o)
    /\ after o = Some (mem, wd')
    /\ sent (port wd') = [lit "AT+COPS?" ++ CRLF].
Proof.
  eexists. eexists. eexists.
  match goal with |- ?A /\ _ => assert (H : A) by (vm_compute; reflexivity) end.
  split; [exact H|].
  match goal with |- ?A /\ _ => assert (Ha : A) by reflexivity end.
  split; [exact Ha|].
  exact (X4_reading_never_writes _ _ _ _ _ _ _ H Ha).
Defined.

(** X3.  None of the three entry points indexes the payload out of range:
    whatever the port delivers, [response[0]] is read only behind the
    guard [len(response) >= 1]. *)
Theorem X3_never_out_of_range fuel cmd t wd :
  ExecuteCommand fuel cmd t wd <> Some Panic
  /\ ExecuteCommandRead fuel cmd t wd <> Some Panic
  /\ ExecuteCommandExecute fuel cmd t wd <> Some Panic.
Proof.
  repeat split; apply ExecuteCommand_no_panic.
Qed.

(** ** The worker gives up *)

Lemma readLineIgnoreEof_silent_late (bf : bytes) (k : N) (ctx : Context) :
  bf <> [] ->
  forall (m fuel : nat) (wd : World),
    silent k (port wd) ->
    deadline ctx - clock wd <= Z.of_nat m * Z.of_N k ->
    (m < fuel)%nat ->
    clock wd < deadline ctx ->
    exists wd',
      readLineIgnoreEof fuel ctx (fresh bf) wd
      = Some ((empty, Some errTimeout), fresh bf, wd')
      /\ deadline ctx <= clock wd' < deadline ctx + Z.of_N k
      /\ logged wd' = logged wd.
Proof.
  intros Hbf. induction m as [|m IH]; intros fuel wd Hs Hm Hf Hlt.
  - lia.
  - destruct fuel as [|fuel]; [lia|].
    rewrite (readLineIgnoreEof_retry fuel ctx (fresh bf) wd empty false
               (fresh bf) (advance wd k));
      [|now apply Z.leb_gt|now apply ReadLine_silent].
    destruct (Z.ltb_spec (clock (advance wd k)) (deadline ctx)) as [Hl|Hge].
    + destruct (IH fuel (advance wd k)) as (wd' & Hr & Hc & Hlog);
        [now apply advance_silent| |lia|exact Hl|].
      * unfold advance in *. cbn [clock] in *. lia.
      * exists wd'. split; [exact Hr|]. split; [exact Hc|]. exact Hlog.
    + destruct fuel as [|fuel]; [lia|].
      rewrite readLineIgnoreEof_done by (apply Z.leb_le; lia).
      exists (advance wd k). split; [reflexivity|].
      unfold advance in *. cbn [clock logged] in *. split; [lia|reflexivity].
Qed.

(** X14.  The worker does not outlive its wait by more than one poll.  On
    a port on which nothing arrives, a worker started before the deadline
    hands nothing over, logs the timeout error once and returns (closing
    its channel) at the first poll that ends at or after the deadline,
    that is less than one poll after it. *)
Theorem X14_worker_gives_up (bf : bytes) (k : N) (ctx : Context) (wd : World)
        (fuel : nat) :
  bf <> [] ->
  (0 < k)%N ->
  silent k (port wd) ->
  clock wd < deadline ctx ->
  (polls (deadline ctx - clock wd) k < fuel)%nat ->
  exists wd',
    goWaitForResponse fuel (fresh bf) ctx wd = Some (None, fresh bf, wd')
    /\ deadline ctx <= clock wd' < deadline ctx + Z.of_N k
    /\ logged wd' = logged wd ++ [LogReadError errTimeout].
Proof.
  intros Hbf Hk Hs Hlt Hf.
  destruct (readLineIgnoreEof_silent_late bf k ctx Hbf
              (polls (deadline ctx - clock wd) k) fuel wd Hs)
    as (wd' & Hr & Hc & Hlog); try lia.
  { pose proof (polls_enough (deadline ctx - clock wd) k Hk). lia. }
  unfold goWaitForResponse.
  replace (Done ctx (clock wd)) with false by (symmetry; apply Z.leb_gt; lia).
  rewrite Hr. eexists. split; [reflexivity|].
  cbn [clock logged log_Printf]. split; [exact Hc|]. now rewrite Hlog.
Qed.

Lemma X14_witness :
  exists wd',
    goWaitForResponse 20 NewReader (WithTimeout 0 Second) Cases.w_slow_polls
    = Some (None, NewReader, wd')
    /\ Second <= clock wd' < Second + Z.of_N (Script.ms 300)
    /\ logged wd' = [LogReadError errTimeout].
Proof.
  refine (X14_worker_gives_up (repeat x00 defaultBufSize) (Script.ms 300)
            (WithTimeout 0 Second) Cases.w_slow_polls 20
            defaultBuf_not_nil eq_refl (conj eq_refl eq_refl) eq_refl _).
  apply Nat.ltb_lt. vm_compute. reflexivity.
Defined.

(** ** Reads that bring nothing *)








